(** * Contract-testing verifier: recorder, differ, tolerance engine, templates

    A shallow embedding of the JavaScript sources of the API mocking framework
    (session recorder, snapshot verifier, tolerance rules, response templates)
    and the properties proved about them.

    Conventions of the embedding.
    - A JavaScript value that travels through JSON is a [json] tree; a property
      that may be missing ([undefined]) is an [option json].
    - A plain object is an association list in enumeration order.  Objects
      coming from [JSON.parse] or an object literal have pairwise distinct
      keys; [wf_json] states it where a proof needs it.
    - Numbers are integers ([Z]); scores, which the code computes by a
      division, are exact rationals ([Q]).
    - Strings are [string]; [toLowerCase] is the ASCII one.
    - What the code obtains from the JavaScript runtime or from an npm
      dependency (clock, [Date] parsing, [JSON.parse], [JSON.stringify],
      SHA-256, [localeCompare], Handlebars, is-uuid, the HTTP client) is a
      field of the class [Runtime]; nothing is assumed about these fields. *)

From Stdlib Require Import List String Ascii ZArith QArith Bool Lia.
From Stdlib Require Import Permutation Sorted Decimal DecimalString OrderedTypeEx.
Import ListNotations.
Open Scope string_scope.
Open Scope list_scope.
Open Scope Z_scope.

Set Implicit Arguments.
Set Warnings "-register-all".

(** ** JavaScript values *)

Module JS.

Inductive json : Type :=
| JNull : json
| JBool : bool -> json
| JNum : Z -> json
| JStr : string -> json
| JArr : list json -> json
| JObj : list (string * json) -> json.

(** The eliminator that gives an induction hypothesis for every element of
    an array and for every property value of an object. *)
Definition json_rect' (P : json -> Type) (Q : list json -> Type)
  (R : list (string * json) -> Type)
  (hnull : P JNull) (hbool : forall b, P (JBool b)) (hnum : forall n, P (JNum n))
  (hstr : forall s, P (JStr s))
  (harr : forall l, Q l -> P (JArr l)) (hobj : forall o, R o -> P (JObj o))
  (qnil : Q []) (qcons : forall x l, P x -> Q l -> Q (x :: l))
  (rnil : R []) (rcons : forall k x o, P x -> R o -> R ((k, x) :: o))
  : forall j, P j :=
  fix go (j : json) : P j :=
    match j with
    | JNull => hnull
    | JBool b => hbool b
    | JNum n => hnum n
    | JStr s => hstr s
    | JArr l =>
        harr l ((fix elems (l : list json) : Q l :=
                   match l with
                   | [] => qnil
                   | x :: l' => qcons x l' (go x) (elems l')
                   end) l)
    | JObj o =>
        hobj o ((fix props (o : list (string * json)) : R o :=
                   match o with
                   | [] => rnil
                   | (k, x) :: o' => rcons k x o' (go x) (props o')
                   end) o)
    end.

(** [typeof v]: arrays, objects and [null] all answer ["object"]. *)
Definition typeof (v : json) : string :=
  match v with
  | JNull | JArr _ | JObj _ => "object"
  | JBool _ => "boolean"
  | JNum _ => "number"
  | JStr _ => "string"
  end.

(** [typeof] of a property that may be missing. *)
Definition typeof_opt (v : option json) : string :=
  match v with
  | None => "undefined"
  | Some x => typeof x
  end.

(** Truthiness, as tested by [if (v)], [!v] and [v || d]. *)
Definition truthy (v : json) : bool :=
  match v with
  | JNull => false
  | JBool b => b
  | JNum n => negb (n =? 0)
  | JStr s => negb (s =? "")%string
  | JArr _ | JObj _ => true
  end.

Definition truthy_opt (v : option json) : bool :=
  match v with
  | None => false
  | Some x => truthy x
  end.

(** [a === b] for two values that live in different trees: primitives are
    compared by value, two arrays or objects are different references. *)
Definition strict_eq (a b : json) : bool :=
  match a, b with
  | JNull, JNull => true
  | JBool x, JBool y => Bool.eqb x y
  | JNum x, JNum y => x =? y
  | JStr x, JStr y => (x =? y)%string
  | _, _ => false
  end.

(** [obj[k]] *)
Fixpoint obj_get (k : string) (o : list (string * json)) : option json :=
  match o with
  | [] => None
  | (k', v) :: o' => if (k =? k')%string then Some v else obj_get k o'
  end.

(** [obj[k] = v]: an existing property keeps its place, a new one goes
    last.  The slots of a compiled template are assigned the same way, so
    the values are of any type. *)
Fixpoint obj_set {V : Type} (k : string) (v : V) (o : list (string * V))
  : list (string * V) :=
  match o with
  | [] => [(k, v)]
  | (k', v') :: o' =>
      if (k =? k')%string then (k, v) :: o' else (k', v') :: obj_set k v o'
  end.

Definition keys {V : Type} (o : list (string * V)) : list string := map fst o.

(** A loop over the properties that rewrites each value. *)
Definition map_values {A B : Type} (f : A -> B) (o : list (string * A))
  : list (string * B) :=
  map (fun kv => (fst kv, f (snd kv))) o.

(** A loop over the elements of an array with their indices. *)
Fixpoint mapi_from {A B : Type} (f : nat -> A -> B) (i : nat) (l : list A)
  : list B :=
  match l with
  | [] => []
  | x :: l' => f i x :: mapi_from f (S i) l'
  end.

(** Objects with pairwise distinct keys, at every depth (decided). *)
Fixpoint distinct (ks : list string) : bool :=
  match ks with
  | [] => true
  | k :: ks' => negb (existsb (String.eqb k) ks') && distinct ks'
  end.

Fixpoint wf_jsonb (j : json) : bool :=
  match j with
  | JArr l => forallb wf_jsonb l
  | JObj o => distinct (map fst o) && forallb (fun kv => wf_jsonb (snd kv)) o
  | _ => true
  end.

Definition wf_json (j : json) : Prop := wf_jsonb j = true.

Definition wf_opt (v : option json) : Prop :=
  match v with
  | None => True
  | Some x => wf_json x
  end.

End JS.
Export JS.

(** ** Strings and the two regular expressions of the tolerance rules *)

Module Str.

Definition is_upper (c : ascii) : bool :=
  let n := nat_of_ascii c in (65 <=? n)%nat && (n <=? 90)%nat.

Definition lower_char (c : ascii) : ascii :=
  if is_upper c then ascii_of_nat (nat_of_ascii c + 32) else c.

(** [s.toLowerCase()] *)
Fixpoint toLowerCase (s : string) : string :=
  match s with
  | EmptyString => EmptyString
  | String c s' => String (lower_char c) (toLowerCase s')
  end.

Definition is_lower (c : ascii) : bool :=
  let n := nat_of_ascii c in (97 <=? n)%nat && (n <=? 122)%nat.

Definition upper_char (c : ascii) : ascii :=
  if is_lower c then ascii_of_nat (nat_of_ascii c - 32) else c.

(** [s.toUpperCase()] *)
Fixpoint toUpperCase (s : string) : string :=
  match s with
  | EmptyString => EmptyString
  | String c s' => String (upper_char c) (toUpperCase s')
  end.

(** [s.startsWith(p)] *)
Definition startsWith (s p : string) : bool := String.prefix p s.

(** [hay.includes(needle)] *)
Fixpoint includes (hay needle : string) : bool :=
  String.prefix needle hay ||
  match hay with
  | EmptyString => false
  | String _ hay' => includes hay' needle
  end.

(** [s.split('.').pop()]: what follows the last dot. *)
Fixpoint last_segment_from (cur s : string) : string :=
  match s with
  | EmptyString => cur
  | String c s' =>
      if Ascii.eqb c "."%char then last_segment_from EmptyString s'
      else last_segment_from (cur ++ String c EmptyString)%string s'
  end.

Definition last_segment (s : string) : string := last_segment_from EmptyString s.

(** Decimal rendering of an array index and of a number ([String(n)]). *)
Definition of_nat (n : nat) : string := NilZero.string_of_uint (Nat.to_uint n).

Definition of_Z (n : Z) : string :=
  if n <? 0 then ("-" ++ of_nat (Z.to_nat (- n)))%string
  else of_nat (Z.to_nat n).

(** [parts.join(sep)] *)
Definition join (sep : string) (parts : list string) : string :=
  String.concat sep parts.

End Str.

(** Regular expressions as backtracking matchers: a matcher takes the
    remaining input and the continuation that must accept what it leaves. *)
Module Regex.

Definition re : Type := list ascii -> (list ascii -> bool) -> bool.

Definition chr (p : ascii -> bool) : re :=
  fun s k => match s with
             | [] => false
             | c :: s' => p c && k s'
             end.

Definition seq (r1 r2 : re) : re := fun s k => r1 s (fun s' => r2 s' k).

(** [r?] (greedy, then without). *)
Definition opt (r : re) : re := fun s k => r s k || k s.

(** [r{n}] *)
Fixpoint times (n : nat) (r : re) : re :=
  match n with
  | O => fun s k => k s
  | S n' => seq r (times n' r)
  end.

(** [c+] for a character class (greedy, backing off one at a time). *)
Fixpoint plus_chr (p : ascii -> bool) (s : list ascii) (k : list ascii -> bool)
  : bool :=
  match s with
  | [] => false
  | c :: s' => p c && (plus_chr p s' k || k s')
  end.

(** The final [$]. *)
Definition at_end (s : list ascii) : bool :=
  match s with
  | [] => true
  | _ => false
  end.

(** [/^r$/.test(s)] *)
Definition test (r : re) (s : string) : bool := r (list_ascii_of_string s) at_end.

Definition digit (c : ascii) : bool :=
  let n := nat_of_ascii c in (48 <=? n)%nat && (n <=? 57)%nat.

(** [[0-9a-f]] under the [i] flag. *)
Definition hex (c : ascii) : bool :=
  let n := nat_of_ascii c in
  digit c || ((97 <=? n)%nat && (n <=? 102)%nat) || ((65 <=? n)%nat && (n <=? 70)%nat).

Definition lit (a : ascii) : re := chr (Ascii.eqb a).

(** [.]: any character but a line terminator. *)
Definition any_char (c : ascii) : bool :=
  let n := nat_of_ascii c in negb ((n =? 10)%nat || (n =? 13)%nat).

(** [/^\d{4}-\d{2}-\d{2}T\d{2}:\d{2}:\d{2}(.\d+)?Z?$/] *)
Definition isoDatePattern : re :=
  seq (times 4 (chr digit)) (seq (lit "-") (seq (times 2 (chr digit)) (seq (lit "-")
  (seq (times 2 (chr digit)) (seq (lit "T") (seq (times 2 (chr digit)) (seq (lit ":")
  (seq (times 2 (chr digit)) (seq (lit ":") (seq (times 2 (chr digit))
  (seq (opt (seq (chr any_char) (plus_chr digit))) (opt (lit "Z"))))))))))))).

(** [/^[0-9a-f]{8}-?[0-9a-f]{4}-?[0-9a-f]{4}-?[0-9a-f]{4}-?[0-9a-f]{12}$/i] *)
Definition uuidPattern : re :=
  seq (times 8 (chr hex)) (seq (opt (lit "-")) (seq (times 4 (chr hex))
  (seq (opt (lit "-")) (seq (times 4 (chr hex)) (seq (opt (lit "-"))
  (seq (times 4 (chr hex)) (seq (opt (lit "-")) (times 12 (chr hex))))))))).

End Regex.

(** ** HTTP messages and the runtime *)

(** What a call gives back: a value, or the message of what it threw. *)
Inductive outcome (A : Type) : Type :=
| Returned (a : A)
| Thrown (msg : string).
Arguments Returned {A} a.
Arguments Thrown {A} msg.

Definition obj : Type := list (string * json).

(** A recorded or incoming request.  [req_params] is what the route
    resolver attaches ([request.params = ...]). *)
Record request : Type := {
  req_method : string;
  req_path : string;
  req_query : option json;
  req_headers : obj;
  req_body : option json;
  req_params : option json
}.

(** A recorded or replayed response. *)
Record response : Type := {
  statusCode : Z;
  res_headers : option obj;
  res_body : option json;
  replayError : bool
}.

(** The JavaScript runtime and the npm dependencies the sources call. *)
Class Runtime : Type := {
  (** [JSON.parse(s)], [None] when it throws *)
  JSON_parse : string -> option json;
  (** [JSON.stringify(v)] *)
  JSON_stringify : json -> string;
  (** [crypto.createHash('sha256').update(s).digest('hex')] *)
  sha256_hex : string -> string;
  (** [Date.now()] *)
  Date_now : Z;
  (** [new Date(s).getTime()], [None] for an invalid date *)
  Date_parse : string -> option Z;
  (** [Number(s)], [None] for [NaN] *)
  Number_of : string -> option Z;
  (** [a.localeCompare(b)] *)
  localeCompare : string -> string -> Z;
  (** [isUUID.anyNonNil(s)] of the is-uuid package *)
  isUUID_anyNonNil : string -> bool;
  (** [compile(source)(context)] of Handlebars *)
  handlebars : string -> json -> outcome string;
  (** the axios call of [replayRequest]: target base URL, request *)
  axios : string -> request -> outcome response;
  (** [match(routePattern, ...)(path)] of path-to-regexp: the parameters
      of a matching path *)
  path_match : string -> string -> option json;
  (** [uuidv4()] and [Math.floor(Math.random() * 1000)] of the default
      context builder *)
  uuidv4 : string;
  random_below_1000 : Z
}.

(** ** The deep-diff dependency

    [deepDiff.diff(lhs, rhs)] of the deep-diff package, on JSON trees: the
    list of differences in the order the package pushes them.  A difference
    found at the root carries no [path] property (the package sets it only
    for a non-empty path); here that is the empty path. *)

Module DeepDiff.

Inductive seg : Type :=
| Key (k : string)
| Idx (i : nat).

(** The [item] of an array difference. *)
Inductive item : Type :=
| ItemN (rhs : json)
| ItemD (lhs : json)
| ItemE (lhs rhs : json).

Inductive diff : Type :=
| DiffNew (path : list seg) (rhs : json)
| DiffDeleted (path : list seg) (lhs : json)
| DiffEdit (path : list seg) (lhs rhs : json)
| DiffArray (path : list seg) (index : nat) (it : item).

Definition diff_path (d : diff) : list seg :=
  match d with
  | DiffNew p _ | DiffDeleted p _ | DiffEdit p _ _ | DiffArray p _ _ => p
  end.

(** The package's own type test: it tells arrays and [null] from objects. *)
Definition realTypeOf (v : json) : string :=
  match v with
  | JArr _ => "array"
  | JNull => "null"
  | _ => typeof v
  end.

(** Elements past the common length, last index first. *)
Fixpoint tail_items (path : list seg) (mk : json -> item) (i : nat)
  (l : list json) : list diff :=
  match l with
  | [] => []
  | x :: l' => tail_items path mk (S i) l' ++ [DiffArray path i (mk x)]
  end.

(** The elements at the common indices, last index first; [rec] is the
    recursive call. *)
Fixpoint common_elems (rec : list seg -> json -> json -> list diff)
  (path : list seg) (i : nat) (l r : list json) {struct l} : list diff :=
  match l, r with
  | x :: l', y :: r' => common_elems rec path (S i) l' r' ++ rec (path ++ [Idx i]) x y
  | _, _ => []
  end.

(** The keys of [lhs] in order: compared when [rhs] has the key, deleted
    otherwise. *)
Fixpoint lhs_props (rec : list seg -> json -> json -> list diff)
  (path : list seg) (r : obj) (l : obj) {struct l} : list diff :=
  match l with
  | [] => []
  | kv :: l' =>
      match obj_get (fst kv) r with
      | Some y => rec (path ++ [Key (fst kv)]) (snd kv) y
      | None => [DiffDeleted (path ++ [Key (fst kv)]) (snd kv)]
      end ++ lhs_props rec path r l'
  end.

(** The keys only [rhs] has (the loop skips a falsy key, the empty one). *)
Definition rhs_only (path : list seg) (l r : obj) : list diff :=
  flat_map
    (fun kv =>
       if existsb (String.eqb (fst kv)) (keys l) then []
       else if (fst kv =? "")%string then []
       else [DiffNew (path ++ [Key (fst kv)]) (snd kv)])
    r.

Fixpoint deepDiff (path : list seg) (lhs rhs : json) {struct lhs} : list diff :=
  if negb (realTypeOf lhs =? realTypeOf rhs)%string then [DiffEdit path lhs rhs]
  else
    match lhs, rhs with
    | JArr l, JArr r =>
        tail_items path ItemN (List.length l) (skipn (List.length l) r) ++
        tail_items path ItemD (List.length r) (skipn (List.length r) l) ++
        common_elems deepDiff path O l r
    | JObj l, JObj r => lhs_props deepDiff path r l ++ rhs_only path l r
    | _, _ => if strict_eq lhs rhs then [] else [DiffEdit path lhs rhs]
    end.

(** [deepDiff.diff(lhs, rhs) || []] *)
Definition diff_of (lhs rhs : json) : list diff := deepDiff [] lhs rhs.

Definition seg_string (s : seg) : string :=
  match s with
  | Key k => k
  | Idx i => Str.of_nat i
  end.

(** [diff.path.join('.')]: a root difference has no [path], the call throws. *)
Definition path_join (p : list seg) : outcome string :=
  match p with
  | [] => Thrown "Cannot read properties of undefined (reading 'join')"
  | _ => Returned (Str.join "." (map seg_string p))
  end.

End DeepDiff.
Import DeepDiff.

(** ** The snapshot verifier (base class) *)

(** An entry of [ignoreFields]: a string, a [RegExp] (its [test]), or
    anything else. *)
Inductive pattern : Type :=
| PatString (s : string)
| PatRegExp (test : string -> bool)
| PatOther.

Record options : Type := {
  ignoreHeaders : list string;
  ignoreFields : list pattern;
  useDynamicResponses : bool
}.

(** The constructor's defaults. *)
Definition default_options : options := {|
  ignoreHeaders := ["date"; "content-length"; "etag"; "connection"];
  ignoreFields := [];
  useDynamicResponses := false
|}.

(** The entries of the four lists of a body comparison.  An incompatibility
    is kept as its path and reason (the values it repeats are in [removed]
    and [modified]). *)
Record added_entry : Type := { a_path : string; a_value : json }.
Record removed_entry : Type := { r_path : string; r_value : json }.
Record modified_entry : Type :=
  { m_path : string; m_original : json; m_replayed : json }.
Record incompatible_entry : Type := { i_path : string; i_reason : string }.

Record bodyDiffs : Type := {
  added : list added_entry;
  removed : list removed_entry;
  modified : list modified_entry;
  incompatible : list incompatible_entry;
  tolerated : Z;
  total : Z
}.

Record headerDiffs : Type := {
  h_added : list string;
  h_removed : list string;
  h_modified : list (string * json * json);
  h_total : Z
}.

Record comparison : Type := {
  statusMatch : bool;
  c_headerDiffs : headerDiffs;
  c_bodyDiffs : bodyDiffs;
  isCompatible : bool
}.

Definition len {A : Type} (l : list A) : Z := Z.of_nat (List.length l).

Definition is_empty {A : Type} (l : list A) : bool :=
  match l with
  | [] => true
  | _ => false
  end.

(** The type changes among the incompatibilities, as the summary printer
    selects them: [diff.reason.includes('Type changed')]. *)
Definition typeChanged (b : bodyDiffs) : list incompatible_entry :=
  filter (fun e => Str.includes (i_reason e) "Type changed") (incompatible b).

Module Base.

Section Verifier.
Context {RT : Runtime}.
Variable opts : options.

(** [shouldIgnoreField(fieldPath)] *)
Definition shouldIgnoreField (fieldPath : string) : bool :=
  existsb
    (fun p =>
       match p with
       | PatString s =>
           (fieldPath =? s)%string || Str.startsWith fieldPath (s ++ ".")%string
       | PatRegExp test => test fieldPath
       | PatOther => false
       end)
    (ignoreFields opts).

(** The header loop of [normalizeForComparison]: lower-cased keys, ignored
    headers dropped. *)
Definition normalizeHeaders (h : obj) : obj :=
  fold_left
    (fun acc kv =>
       let lowerKey := Str.toLowerCase (fst kv) in
       if existsb (String.eqb lowerKey) (ignoreHeaders opts) then acc
       else obj_set lowerKey (snd kv) acc)
    h [].

(** [normalizeForComparison(response)] *)
Definition normalizeForComparison (r : response) : response :=
  {| statusCode := statusCode r;
     res_headers := option_map normalizeHeaders (res_headers r);
     res_body :=
       match res_body r with
       | Some (JStr s) =>
           if Str.startsWith s "{" || Str.startsWith s "["
           then match JSON_parse s with
                | Some v => Some v
                | None => Some (JStr s)
                end
           else Some (JStr s)
       | b => b
       end;
     replayError := replayError r |}.

Definition or_empty (h : option obj) : obj :=
  match h with
  | Some o => o
  | None => []
  end.

Definition differs (a b : option json) : bool :=
  match a, b with
  | Some x, Some y => negb (strict_eq x y)
  | None, None => false
  | _, _ => true
  end.

(** [compareHeaders(originalHeaders, replayedHeaders)] *)
Definition compareHeaders (originalHeaders replayedHeaders : option obj)
  : headerDiffs :=
  let oh := or_empty originalHeaders in
  let rh := or_empty replayedHeaders in
  let originalKeys := keys oh in
  let replayedKeys := keys rh in
  let added := filter (fun k => negb (existsb (String.eqb k) originalKeys)) replayedKeys in
  let removed := filter (fun k => negb (existsb (String.eqb k) replayedKeys)) originalKeys in
  let modified :=
    flat_map
      (fun k =>
         if existsb (String.eqb k) replayedKeys && differs (obj_get k oh) (obj_get k rh)
         then match obj_get k oh, obj_get k rh with
              | Some x, Some y => [(k, x, y)]
              | _, _ => []
              end
         else [])
      originalKeys in
  {| h_added := added; h_removed := removed; h_modified := modified;
     h_total := len added + len removed + len modified |}.

Definition no_diffs : bodyDiffs :=
  {| added := []; removed := []; modified := []; incompatible := [];
     tolerated := 0; total := 0 |}.

(** The result of the two early exits that report one incompatibility at
    the root. *)
Definition root_incompatible (reason : string) : bodyDiffs :=
  {| added := []; removed := []; modified := [];
     incompatible := [{| i_path := "/"; i_reason := reason |}];
     tolerated := 0; total := 1 |}.

(** The four accumulators of the [forEach] over the differences. *)
Record acc : Type := {
  acc_added : list added_entry;
  acc_removed : list removed_entry;
  acc_modified : list modified_entry;
  acc_incompatible : list incompatible_entry
}.

Definition acc0 : acc :=
  {| acc_added := []; acc_removed := []; acc_modified := [];
     acc_incompatible := [] |}.

Definition push_added (a : acc) (p : string) (v : json) : acc :=
  {| acc_added := acc_added a ++ [{| a_path := p; a_value := v |}];
     acc_removed := acc_removed a; acc_modified := acc_modified a;
     acc_incompatible := acc_incompatible a |}.

Definition push_removed (a : acc) (p reason : string) (v : json) : acc :=
  {| acc_added := acc_added a;
     acc_removed := acc_removed a ++ [{| r_path := p; r_value := v |}];
     acc_modified := acc_modified a;
     acc_incompatible :=
       acc_incompatible a ++ [{| i_path := p; i_reason := reason |}] |}.

Definition type_changed_reason (l r : json) : string :=
  ("Type changed from " ++ typeof l ++ " to " ++ typeof r)%string.

Definition push_modified (a : acc) (p : string) (l r : json) : acc :=
  {| acc_added := acc_added a; acc_removed := acc_removed a;
     acc_modified :=
       acc_modified a ++ [{| m_path := p; m_original := l; m_replayed := r |}];
     acc_incompatible :=
       if negb (typeof l =? typeof r)%string
       then acc_incompatible a ++
            [{| i_path := p; i_reason := type_changed_reason l r |}]
       else acc_incompatible a |}.

Definition arrayPath (p : string) (index : nat) : string :=
  (p ++ "[" ++ Str.of_nat index ++ "]")%string.

(** The [switch (diff.kind)] of the callback. *)
Definition categorize (a : acc) (p : string) (d : diff) : acc :=
  match d with
  | DiffNew _ rhs => push_added a p rhs
  | DiffDeleted _ lhs => push_removed a p "Field was removed" lhs
  | DiffEdit _ lhs rhs => push_modified a p lhs rhs
  | DiffArray _ index (ItemD lhs) =>
      push_removed a (arrayPath p index) "Array element was removed" lhs
  | DiffArray _ index (ItemN rhs) => push_added a (arrayPath p index) rhs
  | DiffArray _ index (ItemE lhs rhs) =>
      push_modified a (arrayPath p index) lhs rhs
  end.

(** One call of the callback of [differences.forEach]. *)
Definition step (a : acc) (d : diff) : outcome acc :=
  match path_join (diff_path d) with
  | Thrown m => Thrown m
  | Returned p =>
      if shouldIgnoreField p then Returned a else Returned (categorize a p d)
  end.

Fixpoint forEach (a : acc) (ds : list diff) : outcome acc :=
  match ds with
  | [] => Returned a
  | d :: ds' =>
      match step a d with
      | Thrown m => Thrown m
      | Returned a' => forEach a' ds'
      end
  end.

Definition primitive_or_null (o r : json) : bool :=
  negb (typeof o =? "object")%string || strict_eq o JNull || strict_eq r JNull.

(** [compareResponseBodies(originalBody, replayedBody)] *)
Definition compareResponseBodies (originalBody replayedBody : option json)
  : bodyDiffs :=
  match originalBody, replayedBody with
  | None, None => no_diffs
  | Some o, Some r =>
      if negb (typeof o =? typeof r)%string then
        root_incompatible
          ("Type mismatch: " ++ typeof o ++ " vs " ++ typeof r)%string
      else if primitive_or_null o r then
        let identical := strict_eq o r in
        {| added := []; removed := [];
           modified :=
             if identical then []
             else [{| m_path := "/"; m_original := o; m_replayed := r |}];
           incompatible := []; tolerated := 0;
           total := if identical then 0 else 1 |}
      else
        match forEach acc0 (diff_of o r) with
        | Returned a =>
            {| added := acc_added a; removed := acc_removed a;
               modified := acc_modified a;
               incompatible := acc_incompatible a; tolerated := 0;
               total := len (acc_added a) + len (acc_removed a)
                        + len (acc_modified a) |}
        | Thrown m => root_incompatible ("Comparison error: " ++ m)%string
        end
  | _, _ =>
      root_incompatible
        ("Type mismatch: " ++ typeof_opt originalBody ++ " vs "
           ++ typeof_opt replayedBody)%string
  end.

(** [compareResponses(original, replayed)] *)
Definition compareResponses (original replayed : response) : comparison :=
  let normalizedOriginal := normalizeForComparison original in
  let normalizedReplayed := normalizeForComparison replayed in
  let statusMatch := statusCode normalizedOriginal =? statusCode normalizedReplayed in
  let headerDiffs :=
    compareHeaders (res_headers normalizedOriginal) (res_headers normalizedReplayed) in
  let bodyDiffs :=
    compareResponseBodies (res_body normalizedOriginal) (res_body normalizedReplayed) in
  {| statusMatch := statusMatch;
     c_headerDiffs := headerDiffs;
     c_bodyDiffs := bodyDiffs;
     isCompatible :=
       statusMatch && is_empty (h_added headerDiffs)
       && is_empty (h_removed headerDiffs)
       && is_empty (incompatible bodyDiffs)
       && is_empty (removed bodyDiffs) |}.

(** [compareResponses] as the replay loop calls it: in the base class it
    does not throw. *)
Definition compare (original replayed : response) : outcome comparison :=
  Returned (compareResponses original replayed).

End Verifier.

End Base.

(** ** The tolerance rules (the verifier with tolerances)

    The class of replay_strict_mode.js carries the methods of the base
    verifier ("previous methods remain unchanged") and reaches the base
    replay loop through [super]; it replaces the body comparison and
    defines [normalizeForComparison(path, data)].  A class has one method
    of a name: [this.normalizeForComparison] is the two-argument method
    for every caller, also for the inherited [compareResponses], which
    calls it with a response as its only argument. *)

Record tolerances : Type := {
  timestampDriftSeconds : Q;
  ignoreUUIDs : bool;
  sortArrays : bool;
  arrayFields : list string;
  timestampFields : list string;
  uuidFields : list string
}.

(** [Array.prototype.sort(cmp)] is stable: insertion from the right, an
    element going before the first one it does not exceed. *)
Fixpoint insert_by {A : Type} (cmp : A -> A -> Z) (x : A) (l : list A) : list A :=
  match l with
  | [] => [x]
  | y :: l' => if cmp x y <=? 0 then x :: y :: l' else y :: insert_by cmp x l'
  end.

Definition sort_by {A : Type} (cmp : A -> A -> Z) (l : list A) : list A :=
  fold_right (insert_by cmp) [] l.

(** The comparison of the default [sort()]: strings by code units. *)
Definition code_unit_cmp (a b : string) : Z :=
  match String.compare a b with
  | Lt => -1
  | Eq => 0
  | Gt => 1
  end.

(** [for (k, v) of pairs: target[k] = v], from the empty object. *)
Definition assign_all {V : Type} (pairs : list (string * V)) : list (string * V) :=
  fold_left (fun acc kv => obj_set (fst kv) (snd kv) acc) pairs [].

Module Tolerant.

Section Verifier.
Context {RT : Runtime}.
Variable opts : options.
Variable tol : tolerances.

(** [isLikelyUUID(key, value)] *)
Definition isLikelyUUID (key : string) (value : json) : bool :=
  let isUuidField :=
    existsb
      (fun field => Str.includes (Str.toLowerCase key) (Str.toLowerCase field))
      (uuidFields tol) in
  match value with
  | JStr s =>
      if isUuidField
      then isUUID_anyNonNil s || Regex.test Regex.uuidPattern s
      else false
  | _ => false
  end.

(** [shouldSortArray(path)] *)
Definition shouldSortArray (path : string) : bool :=
  if is_empty (arrayFields tol) then true
  else
    existsb
      (fun field =>
         (path =? field)%string
         || Str.startsWith path (field ++ ".")%string
         || Str.startsWith path (field ++ "[")%string)
      (arrayFields tol).

(** [sortObjectKeys(obj)] *)
Fixpoint sortObjectKeys (v : json) : json :=
  match v with
  | JArr l => JArr (map sortObjectKeys l)
  | JObj o =>
      JObj (assign_all
              (sort_by (fun a b => code_unit_cmp (fst a) (fst b))
                 (map_values sortObjectKeys o)))
  | _ => v
  end.

(** [String(a)] of a primitive. *)
Definition String_of (v : json) : string :=
  match v with
  | JStr s => s
  | JNum n => Str.of_Z n
  | JBool true => "true"
  | JBool false => "false"
  | JNull => "null"
  | JArr _ | JObj _ => "[object Object]"
  end.

Definition is_primitive (v : json) : bool :=
  negb (typeof v =? "object")%string || strict_eq v JNull.

(** [sortArray(array)] *)
Definition sortArray (array : list json) : list json :=
  if (List.length array <=? 1)%nat then array
  else if forallb is_primitive array then
    sort_by
      (fun a b =>
         if strict_eq a JNull then -1
         else if strict_eq b JNull then 1
         else localeCompare (String_of a) (String_of b))
      array
  else
    sort_by
      (fun a b =>
         localeCompare (JSON_stringify (sortObjectKeys a))
           (JSON_stringify (sortObjectKeys b)))
      array.

(** [normalizeForComparison(path, data)] *)
Fixpoint normalizeForComparison (path : string) (data : json) : json :=
  match data with
  | JArr l =>
      let normalizedArray := map (normalizeForComparison (path ++ "[]")%string) l in
      if sortArrays tol && shouldSortArray path
      then JArr (sortArray normalizedArray)
      else JArr normalizedArray
  | JObj o =>
      JObj (assign_all
              (map
                 (fun kv =>
                    let key := fst kv in
                    let value := snd kv in
                    let fullPath :=
                      if (path =? "")%string then key
                      else (path ++ "." ++ key)%string in
                    if ignoreUUIDs tol && isLikelyUUID key value
                       && negb (Base.shouldIgnoreField opts fullPath)
                    then (key, JStr "[UUID]")
                    else (key, normalizeForComparison fullPath value))
                 o))
  | _ => data
  end.

(** [toTimestamp(value)]: milliseconds, [None] for [null]. *)
Definition toTimestamp_number (n : Z) : Z :=
  if n <? 4102444800 then n * 1000 else n.

Definition toTimestamp (value : json) : option Z :=
  match value with
  | JNum n => Some (toTimestamp_number n)
  | JStr s =>
      match Date_parse s with
      | Some t => Some t
      | None =>
          match Number_of s with
          | Some n => Some (toTimestamp_number n)
          | None => None
          end
      end
  | _ => None
  end.

(** [!time]: [null] and [0] are falsy. *)
Definition falsy_time (t : option Z) : bool :=
  match t with
  | None => true
  | Some n => n =? 0
  end.

(** [areTimestampsEquivalent(timestamp1, timestamp2)] *)
Definition areTimestampsEquivalent (timestamp1 timestamp2 : json) : bool :=
  let time1 := toTimestamp timestamp1 in
  let time2 := toTimestamp timestamp2 in
  if falsy_time time1 || falsy_time time2 then false
  else
    match time1, time2 with
    | Some t1, Some t2 =>
        let diffSeconds := (inject_Z (Z.abs (t1 - t2)) / 1000)%Q in
        Qle_bool diffSeconds (timestampDriftSeconds tol)
    | _, _ => false
    end.

(** [isLikelyTimestamp(path, value)] *)
Definition isLikelyTimestamp (path : string) (value : json) : bool :=
  let fieldName := Str.last_segment path in
  let isTimestampField :=
    existsb
      (fun field =>
         Str.includes (Str.toLowerCase fieldName) (Str.toLowerCase field))
      (timestampFields tol) in
  match value with
  | JStr s => isTimestampField || Regex.test Regex.isoDatePattern s
  | JNum n =>
      let minTimestamp := 946684800000 in
      isTimestampField || ((minTimestamp <? n) && (n <=? Date_now))
  | _ => false
  end.

Definition both_strings (a b : json) : bool :=
  (typeof a =? "string")%string && (typeof b =? "string")%string.

(** [areValuesEquivalent(path, original, replayed)] *)
Definition areValuesEquivalent (path : string) (original replayed : json) : bool :=
  if strict_eq original replayed then true
  else if isLikelyTimestamp path original && isLikelyTimestamp path replayed
  then areTimestampsEquivalent original replayed
  else if ignoreUUIDs tol && both_strings original replayed
          && isLikelyUUID "" original && isLikelyUUID "" replayed
  then true
  else false.

(** [shouldTolerateDifference(diff, path)] *)
Definition shouldTolerateDifference (d : diff) (path : string) : bool :=
  match d with
  | DiffEdit _ lhs rhs => areValuesEquivalent path lhs rhs
  | DiffArray _ index (ItemE lhs rhs) =>
      areValuesEquivalent (Base.arrayPath path index) lhs rhs
  | _ => false
  end.

(** One call of the callback of [differences.forEach]; the second
    component counts [toleratedChanges]. *)
Definition step (st : Base.acc * Z) (d : diff) : outcome (Base.acc * Z) :=
  match path_join (diff_path d) with
  | Thrown m => Thrown m
  | Returned p =>
      if Base.shouldIgnoreField opts p then Returned st
      else if shouldTolerateDifference d p then Returned (fst st, snd st + 1)
      else Returned (Base.categorize (fst st) p d, snd st)
  end.

Fixpoint forEach (st : Base.acc * Z) (ds : list diff) : outcome (Base.acc * Z) :=
  match ds with
  | [] => Returned st
  | d :: ds' =>
      match step st d with
      | Thrown m => Thrown m
      | Returned st' => forEach st' ds'
      end
  end.

(** [compareResponseBodies(originalBody, replayedBody)] *)
Definition compareResponseBodies (originalBody replayedBody : option json)
  : bodyDiffs :=
  match originalBody, replayedBody with
  | None, None => Base.no_diffs
  | Some o, Some r =>
      if negb (typeof o =? typeof r)%string then
        Base.root_incompatible
          ("Type mismatch: " ++ typeof o ++ " vs " ++ typeof r)%string
      else if Base.primitive_or_null o r then
        let areEquivalent := areValuesEquivalent "/" o r in
        {| added := []; removed := [];
           modified :=
             if areEquivalent then []
             else [{| m_path := "/"; m_original := o; m_replayed := r |}];
           incompatible := []; tolerated := 0;
           total := if areEquivalent then 0 else 1 |}
      else
        let normalizedOriginal := normalizeForComparison "" o in
        let normalizedReplayed := normalizeForComparison "" r in
        match forEach (Base.acc0, 0) (diff_of normalizedOriginal normalizedReplayed) with
        | Returned (a, toleratedChanges) =>
            {| added := Base.acc_added a; removed := Base.acc_removed a;
               modified := Base.acc_modified a;
               incompatible := Base.acc_incompatible a;
               tolerated := toleratedChanges;
               total := len (Base.acc_added a) + len (Base.acc_removed a)
                        + len (Base.acc_modified a) |}
        | Thrown m => Base.root_incompatible ("Comparison error: " ++ m)%string
        end
  | _, _ =>
      Base.root_incompatible
        ("Type mismatch: " ++ typeof_opt originalBody ++ " vs "
           ++ typeof_opt replayedBody)%string
  end.

(** [compareResponses(original, replayed)], inherited.  Its first line,
    [this.normalizeForComparison(original)], runs the two-argument method
    with the response bound to [path] and [data] left [undefined]; the
    first test of that method ([data === undefined]) returns [data], so
    [normalizedOriginal] is [undefined] and reading its [statusCode]
    throws, whatever the two responses are. *)
Definition compareResponses (original replayed : response) : outcome comparison :=
  Thrown "Cannot read properties of undefined (reading 'statusCode')".

End Verifier.

End Tolerant.

(** [setStrict(true)]: the tolerances of strict comparison. *)
Definition strict_tolerances : tolerances := {|
  timestampDriftSeconds := 0;
  ignoreUUIDs := false;
  sortArrays := false;
  arrayFields := [];
  timestampFields := [];
  uuidFields := []
|}.

(** The tolerances the constructor writes down as defaults.  The
    constructor does not install them: the second [tolerances] key of its
    object literal replaces the first by a copy of [options.tolerances]
    ([{}] when the caller passes none).  A verifier holds this value when
    its caller passes it in full, as replay_tolerant_mode.js passes its
    own six fields. *)
Definition default_tolerances : tolerances := {|
  timestampDriftSeconds := 5;
  ignoreUUIDs := true;
  sortArrays := true;
  arrayFields := [];
  timestampFields :=
    ["timestamp"; "date"; "time"; "created"; "updated"; "at";
     "createdAt"; "updatedAt"; "created_at"; "updated_at"];
  uuidFields := ["id"; "uuid"; "guid"; "trackingId"]
|}.

(** The tolerances held by the verifier and the copy [setStrict] saves. *)
Record strictness : Type := {
  current_tolerances : tolerances;
  _originalTolerances : option tolerances
}.

(** [setStrict(strict)] *)
Definition setStrict (strict : bool) (v : strictness) : strictness :=
  if strict then
    {| current_tolerances := strict_tolerances;
       _originalTolerances :=
         match _originalTolerances v with
         | None => Some (current_tolerances v)
         | Some t => Some t
         end |}
  else
    match _originalTolerances v with
    | Some t => {| current_tolerances := t; _originalTolerances := None |}
    | None => v
    end.

(** ** Replaying a session *)

Record interaction : Type := {
  i_timestamp : string;
  i_requestHash : string;
  i_request : request;
  i_response : response
}.

(** An entry of [interactionResults]: a comparison, or the error caught for
    that interaction. *)
Inductive interactionResult : Type :=
| Compared (rq : request) (original replayed : response) (cmp : comparison)
| Errored (rq : request) (error : string).

Record summary : Type := {
  s_total : Z;
  s_compatible : Z;
  s_incompatible : Z;
  s_errors : Z;
  compatibilityScore : Q
}.

Record results : Type := {
  interactionResults : list interactionResult;
  r_summary : summary
}.

Module Replay.

Section Loop.
Context {RT : Runtime}.
(** The two methods the loop calls on [this]; subclasses override them.
    Both calls are inside the [try]. *)
Variable replayRequest : request -> outcome response.
Variable compareResponses : response -> response -> outcome comparison.

(** The counters of [results.summary] while the loop runs. *)
Record counters : Type := {
  n_total : Z;
  n_compatible : Z;
  n_incompatible : Z;
  n_errors : Z
}.

Definition counters0 : counters :=
  {| n_total := 0; n_compatible := 0; n_incompatible := 0; n_errors := 0 |}.

(** The two calls at the head of the [try] block: the replayed response
    and its comparison, or what either call throws. *)
Definition attempt (request : request) (originalResponse : response)
  : outcome (response * comparison) :=
  match replayRequest request with
  | Returned replayedResponse =>
      match compareResponses originalResponse replayedResponse with
      | Returned comparisonResult => Returned (replayedResponse, comparisonResult)
      | Thrown msg => Thrown msg
      end
  | Thrown msg => Thrown msg
  end.

(** The body of the [for ... of session.interactions] loop. *)
Definition replay_one (st : list interactionResult * counters) (it : interaction)
  : list interactionResult * counters :=
  let '(rs, n) := st in
  let request := i_request it in
  let originalResponse := i_response it in
  match attempt request originalResponse with
  | Returned (replayedResponse, comparisonResult) =>
      (rs ++ [Compared request originalResponse replayedResponse comparisonResult],
       if isCompatible comparisonResult
       then {| n_total := n_total n + 1; n_compatible := n_compatible n + 1;
               n_incompatible := n_incompatible n; n_errors := n_errors n |}
       else {| n_total := n_total n + 1; n_compatible := n_compatible n;
               n_incompatible := n_incompatible n + 1; n_errors := n_errors n |})
  | Thrown msg =>
      (rs ++ [Errored request msg],
       {| n_total := n_total n + 1; n_compatible := n_compatible n;
          n_incompatible := n_incompatible n; n_errors := n_errors n + 1 |})
  end.

(** [(compatible / total) * 100], or 0 for an empty session. *)
Definition score (compatible total : Z) : Q :=
  if 0 <? total then (inject_Z compatible / inject_Z total * 100)%Q else 0%Q.

(** [replayAgainstContract(sessionId, targetBaseUrl)] on the loaded session. *)
Definition replayAgainstContract (session : list interaction) : results :=
  let '(rs, n) := fold_left replay_one session ([], counters0) in
  {| interactionResults := rs;
     r_summary :=
       {| s_total := n_total n; s_compatible := n_compatible n;
          s_incompatible := n_incompatible n; s_errors := n_errors n;
          compatibilityScore := score (n_compatible n) (n_total n) |} |}.

End Loop.

(** [replayRequest(request, targetBaseUrl)] of the base class: any failure
    of the HTTP call becomes a 500 response marked [replayError]. *)
Definition replayRequest `{RT : Runtime} (targetBaseUrl : string) (rq : request)
  : outcome response :=
  match axios targetBaseUrl rq with
  | Returned r => Returned r
  | Thrown msg =>
      Returned {| statusCode := 500; res_headers := Some [];
                  res_body := Some (JObj [("error", JStr msg)]);
                  replayError := true |}
  end.

End Replay.

(** The summary after [updateVerificationSummary]. *)
Record tolerantSummary : Type := {
  base_summary : summary;
  totalChanges : Z;
  toleratedChanges : Z;
  effectiveChanges : Z;
  effectiveCompatible : Z;
  effectiveCompatibilityScore : Q
}.

(** An interaction result with the two fields the update writes on it
    (left undefined on an errored interaction). *)
Record annotated : Type := {
  an_result : interactionResult;
  an_toleratedChanges : option Z;
  an_effectiveChanges : option Z
}.

Record tolerantResults : Type := {
  t_interactionResults : list annotated;
  t_summary : tolerantSummary
}.

Module Summary.

(** The per-interaction part of the [forEach] of
    [updateVerificationSummary]. *)
Definition annotate (r : interactionResult) : annotated :=
  match r with
  | Compared _ _ _ c =>
      let total := h_total (c_headerDiffs c) + total (c_bodyDiffs c) in
      let tolerated := tolerated (c_bodyDiffs c) + 0 in
      {| an_result := r;
         an_toleratedChanges := Some tolerated;
         an_effectiveChanges := Some (total - tolerated) |}
  | Errored _ _ =>
      {| an_result := r; an_toleratedChanges := None;
         an_effectiveChanges := None |}
  end.

Definition changes_of (r : interactionResult) : Z :=
  match r with
  | Compared _ _ _ c => h_total (c_headerDiffs c) + total (c_bodyDiffs c)
  | Errored _ _ => 0
  end.

Definition tolerated_of (r : interactionResult) : Z :=
  match r with
  | Compared _ _ _ c => tolerated (c_bodyDiffs c) + 0
  | Errored _ _ => 0
  end.

Definition sum (f : interactionResult -> Z) (rs : list interactionResult) : Z :=
  fold_left (fun s r => s + f r) rs 0.

(** The filter that counts [toleratedInteractions]. *)
Definition toleratedInteraction (a : annotated) : bool :=
  match an_result a, an_effectiveChanges a with
  | Compared _ _ _ c, Some e => negb (isCompatible c) && (e =? 0)
  | _, _ => false
  end.

(** [updateVerificationSummary(result)] *)
Definition updateVerificationSummary (result : results) : tolerantResults :=
  let rs := interactionResults result in
  let s := r_summary result in
  let totalChanges := sum changes_of rs in
  let toleratedChanges := sum tolerated_of rs in
  let annotated := map annotate rs in
  let toleratedInteractions := len (filter toleratedInteraction annotated) in
  {| t_interactionResults := annotated;
     t_summary :=
       {| base_summary := s;
          totalChanges := totalChanges;
          toleratedChanges := toleratedChanges;
          effectiveChanges := totalChanges - toleratedChanges;
          effectiveCompatible :=
            if 0 <? s_total s then s_compatible s + toleratedInteractions else 0;
          effectiveCompatibilityScore :=
            if 0 <? s_total s
            then (inject_Z (s_compatible s + toleratedInteractions)
                  / inject_Z (s_total s) * 100)%Q
            else 0%Q |} |}.

(** [replayAgainstContract] of the tolerant verifier: the base replay, then
    the update. *)
Definition replayAgainstContract (replayRequest : request -> outcome response)
  (compareResponses : response -> response -> outcome comparison)
  (session : list interaction) : tolerantResults :=
  updateVerificationSummary
    (Replay.replayAgainstContract replayRequest compareResponses session).

End Summary.

(** ** Response templates and the route resolver *)

Module Template.

(** What [compile] leaves in [this.compiled] and in each slot of
    [compiledObj]: a Handlebars function, the function returned by
    [compileObjectTemplate] (it closes over its own [compiledObj]), or a
    static value. *)
Inductive compiled : Type :=
| HandlebarsFn (source : string)
| ObjectFn (compiledObj : list (string * compiled))
| Static (value : json).

(** The three branches of the loop of [compileObjectTemplate] for one
    property value; an array is an object to [typeof], so it takes the
    nested-object branch. *)
Fixpoint compile_value (value : json) : compiled :=
  match value with
  | JStr s => if Str.includes s "{{" then HandlebarsFn s else Static value
  | JObj o => ObjectFn (assign_all (map_values compile_value o))
  | JArr l =>
      ObjectFn (assign_all
                  (mapi_from (fun i x => (Str.of_nat i, compile_value x)) O l))
  | _ => Static value
  end.

(** [compileObjectTemplate(obj)]: [Object.entries(null)] throws. *)
Definition compileObjectTemplate (o : json) : outcome compiled :=
  match o with
  | JObj _ | JArr _ => Returned (compile_value o)
  | JNull => Thrown "Cannot convert undefined or null to object"
  | _ => Returned (ObjectFn [])
  end.

(** [compile()] of [ResponseTemplate] *)
Definition compile (originalTemplate : json) : outcome compiled :=
  match originalTemplate with
  | JStr s => Returned (HandlebarsFn s)
  | JObj _ | JArr _ | JNull => compileObjectTemplate originalTemplate
  | _ => Thrown "Template must be a string or object"
  end.

Section Render.
Context {RT : Runtime}.

Definition bind {A B : Type} (x : outcome A) (f : A -> outcome B) : outcome B :=
  match x with
  | Returned a => f a
  | Thrown m => Thrown m
  end.

(** The loop of the closure returned by [compileObjectTemplate]:
    [result[key] = ...] for each slot, a throw ending it; [run] calls a
    slot that is a function. *)
Fixpoint fill (run : compiled -> outcome json) (slots : list (string * compiled))
  (result : obj) : outcome obj :=
  match slots with
  | [] => Returned result
  | kv :: slots' =>
      bind
        (match snd kv with
         | Static v => Returned v
         | _ => run (snd kv)
         end)
        (fun v => fill run slots' (obj_set (fst kv) v result))
  end.

(** Calling a compiled slot on a context; for [ObjectFn] this is the
    closure returned by [compileObjectTemplate]. *)
Fixpoint call (context : json) (c : compiled) : outcome json :=
  match c with
  | HandlebarsFn source =>
      bind (handlebars source context) (fun s => Returned (JStr s))
  | ObjectFn compiledObj =>
      bind (fill (call context) compiledObj [])
        (fun result => Returned (JObj result))
  | Static v => Returned v
  end.

(** [render(context)]: the [catch] logs and rethrows. *)
Definition render (compiled_ : option compiled) (context : json) : outcome json :=
  match compiled_ with
  | None => Thrown "Template not compiled"
  | Some c => call context c
  end.

(** A template as the constructor leaves it: compiled at once. *)
Definition ResponseTemplate (template : json) : outcome compiled := compile template.

Record route : Type := {
  pattern : string;
  template : compiled;
  method : string;
  rt_statusCode : Z;
  rt_headers : obj
}.

Record resolver : Type := {
  defaultContext : obj;
  routeTemplates : list route;
  contextBuilders : list (request -> outcome obj)
}.

(** The context builder the constructor registers. *)
Definition default_builder (req : request) : outcome obj :=
  let opt_field (k : string) (v : option json) : obj :=
    match v with Some x => [(k, x)] | None => [] end in
  Returned
    [("request",
      JObj ([("method", JStr (req_method req)); ("path", JStr (req_path req))]
            ++ opt_field "query" (req_query req)
            ++ [("params",
                 if truthy_opt (req_params req)
                 then match req_params req with Some p => p | None => JObj [] end
                 else JObj [])]
            ++ opt_field "body" (req_body req)));
     ("timestamp", JNum Date_now);
     ("random", JObj [("uuid", JStr uuidv4); ("number", JNum random_below_1000)])].

(** [{ ...a, ...b }] *)
Definition spread (a b : obj) : obj :=
  fold_left (fun acc kv => obj_set (fst kv) (snd kv) acc) b (assign_all a).

(** [buildContext(request)]: a builder that throws is skipped. *)
Definition buildContext (r : resolver) (rq : request) : json :=
  JObj (fold_left
          (fun context builder =>
             match builder rq with
             | Returned additionalContext => spread context additionalContext
             | Thrown _ => context
             end)
          (contextBuilders r) (spread (defaultContext r) [])).

Definition method_matches (rt : route) (rq : request) : bool :=
  (method rt =? "*")%string
  || (Str.toUpperCase (method rt) =? Str.toUpperCase (req_method rq))%string.

(** [findMatchingTemplate(request)]: the first matching route and the
    parameters extracted from the path. *)
Fixpoint findMatchingTemplate (routes : list route) (rq : request)
  : option (route * json) :=
  match routes with
  | [] => None
  | rt :: routes' =>
      if negb (method_matches rt rq) then findMatchingTemplate routes' rq
      else
        match path_match (pattern rt) (req_path rq) with
        | None => findMatchingTemplate routes' rq
        | Some params => Some (rt, params)
        end
  end.

Definition with_params (rq : request) (params : json) : request :=
  {| req_method := req_method rq; req_path := req_path rq;
     req_query := req_query rq; req_headers := req_headers rq;
     req_body := req_body rq; req_params := Some params |}.

(** [resolveResponse(request)]: the request as the call leaves it (its
    [params] are overwritten on a match) and the response, [None] for
    [null]. *)
Definition resolveResponse (r : resolver) (rq : request)
  : request * outcome (option response) :=
  match findMatchingTemplate (routeTemplates r) rq with
  | None => (rq, Returned None)
  | Some (matchingRoute, params) =>
      let rq' := with_params rq params in
      let context := buildContext r rq' in
      (rq',
       bind (render (Some (template matchingRoute)) context)
         (fun responseBody =>
            Returned
              (Some {| statusCode := rt_statusCode matchingRoute;
                       res_headers := Some (rt_headers matchingRoute);
                       res_body := Some responseBody;
                       replayError := false |})))
  end.

(** [replayRequest(request, targetBaseUrl)] of the enhanced verifier: the
    template is rendered first, whatever [useDynamicResponses] says. *)
Definition replayRequest (opts : options) (r : resolver) (targetBaseUrl : string)
  (rq : request) : outcome response :=
  let '(rq', templateResponse) := resolveResponse r rq in
  bind templateResponse
    (fun t =>
       match t with
       | Some resp =>
           if useDynamicResponses opts then Returned resp
           else Replay.replayRequest targetBaseUrl rq'
       | None => Replay.replayRequest targetBaseUrl rq'
       end).

End Render.

End Template.

(** ** The session recorder *)

Record recorder_options : Type := {
  includeHeaders : bool;
  includeBody : bool;
  sensitiveHeaders : list string;
  sensitiveFields : list string
}.

(** The constructor's defaults. *)
Definition default_recorder_options : recorder_options := {|
  includeHeaders := true;
  includeBody := true;
  sensitiveHeaders := ["authorization"; "cookie"; "set-cookie"];
  sensitiveFields := ["password"; "token"; "secret"; "key"; "authorization"]
|}.

(** What [captureRequest] and [captureResponse] store. *)
Record capturedRequest : Type := {
  cr_method : string;
  cr_path : string;
  cr_query : json;
  cr_headers : option obj;
  cr_body : option json
}.

Record capturedResponse : Type := {
  cs_statusCode : Z;
  cs_headers : option obj;
  cs_body : option json
}.

Record recordedInteraction : Type := {
  ri_timestamp : string;
  ri_requestHash : string;
  ri_request : capturedRequest;
  ri_response : capturedResponse;
  ri_duration : option Z
}.

Record recorder : Type := {
  isRecording : bool;
  currentSession : option (list recordedInteraction)
}.

Definition REDACTED : json := JStr "[REDACTED]".

Module Recorder.

Section WithOptions.
Context {RT : Runtime}.
Variable ropts : recorder_options.

(** [filterSensitiveHeaders(headers)] *)
Definition filterSensitiveHeaders (headers : obj) : obj :=
  fold_left
    (fun filteredHeaders header =>
       if truthy_opt (obj_get header filteredHeaders)
       then obj_set header REDACTED filteredHeaders
       else filteredHeaders)
    (sensitiveHeaders ropts) (assign_all headers).

(** The test of [recursiveSanitize] on a key. *)
Definition sensitive (key : string) : bool :=
  existsb (fun field => Str.includes (Str.toLowerCase key) field)
    (sensitiveFields ropts).

(** [recursiveSanitize(obj)], returning the object it leaves.  The keys of
    an array are its indices. *)
Fixpoint recursiveSanitize (v : json) : json :=
  match v with
  | JObj o =>
      JObj (map
              (fun kv =>
                 (fst kv,
                  if sensitive (fst kv) then REDACTED
                  else recursiveSanitize (snd kv)))
              o)
  | JArr l =>
      JArr (mapi_from
              (fun i x =>
                 if sensitive (Str.of_nat i) then REDACTED
                 else recursiveSanitize x)
              O l)
  | _ => v
  end.

(** [sanitizeData(data)]: the deep clone of a JSON tree is the tree. *)
Definition sanitizeData (data : json) : json := recursiveSanitize data.

(** [normalizeForHashing(data)] *)
Fixpoint normalizeForHashing (data : json) : json :=
  match data with
  | JArr l => JArr (map normalizeForHashing l)
  | JObj o =>
      JObj (assign_all
              (sort_by (fun a b => code_unit_cmp (fst a) (fst b))
                 (map_values normalizeForHashing o)))
  | _ => data
  end.

(** [generateContentHash(data)] *)
Definition generateContentHash (data : json) : string :=
  let stringified :=
    match data with
    | JStr s => s
    | _ => JSON_stringify (normalizeForHashing data)
    end in
  sha256_hex stringified.

(** [captureRequest(req)] *)
Definition captureRequest (req : request) : capturedRequest :=
  {| cr_method := req_method req;
     cr_path := req_path req;
     cr_query :=
       match req_query req with
       | Some q => if truthy q then q else JObj []
       | None => JObj []
       end;
     cr_headers :=
       if includeHeaders ropts
       then Some (filterSensitiveHeaders (req_headers req))
       else None;
     cr_body :=
       match req_body req with
       | Some b =>
           if includeBody ropts && truthy b then Some (sanitizeData b) else None
       | None => None
       end |}.

(** [captureResponse(res)] *)
Definition captureResponse (res : response) : capturedResponse :=
  {| cs_statusCode := statusCode res;
     cs_headers := if includeHeaders ropts then res_headers res else None;
     cs_body :=
       match res_body res with
       | Some b => if includeBody ropts && truthy b then Some b else None
       | None => None
       end |}.

(** The object literal handed to [generateContentHash]; a [body] that is
    [undefined] leaves no trace in [JSON.stringify]. *)
Definition hash_input (request : capturedRequest) : json :=
  JObj ([("method", JStr (cr_method request));
         ("path", JStr (cr_path request));
         ("query", cr_query request)]
        ++ match cr_body request with
           | Some b => [("body", b)]
           | None => []
           end).

(** [recordInteraction(req, res)] at clock reading [timestamp], with the
    [res.duration] the hook measured. *)
Definition recordInteraction (r : recorder) (timestamp : string)
  (duration : option Z) (req : request) (res : response) : bool * recorder :=
  match isRecording r, currentSession r with
  | true, Some interactions =>
      let request := captureRequest req in
      let response := captureResponse res in
      let requestHash := generateContentHash (hash_input request) in
      (true,
       {| isRecording := true;
          currentSession :=
            Some (interactions ++
                  [{| ri_timestamp := timestamp;
                      ri_requestHash := requestHash;
                      ri_request := request;
                      ri_response := response;
                      ri_duration := duration |}]) |})
  | _, _ => (false, r)
  end.

(** The hash [recordInteraction] stores for a request. *)
Definition requestHash (req : request) : string :=
  generateContentHash (hash_input (captureRequest req)).

End WithOptions.

End Recorder.

(** ** Verifying sessions against a threshold

    [verifyCompatibility] and [batchVerify] of the base verifier.  The
    sessions loaded so far are the map [originalSessions]; the report writer
    [generateDiffReport], which subclasses override and which writes a file,
    is a parameter: it returns the path of the report or throws. *)

(** [Map.prototype.get] on a map kept as the list of its entries. *)
Fixpoint map_get {V : Type} (k : string) (m : list (string * V)) : option V :=
  match m with
  | [] => None
  | (k', v) :: m' => if (k =? k')%string then Some v else map_get k m'
  end.

Record verifyOptions : Type := {
  threshold : Q;
  generateReport : bool;
  printSummary : bool
}.

(** The defaults of [verifyCompatibility]. *)
Definition default_verifyOptions : verifyOptions :=
  {| threshold := 100; generateReport := true; printSummary := true |}.

(** What [verifyCompatibility] returns. *)
Record verification : Type := {
  v_sessionId : string;
  v_compatibilityScore : Q;
  v_meetsThreshold : bool;
  v_threshold : Q;
  v_reportPath : option string
}.

(** An entry of [batchResults.results]: a verification, or the error caught
    for that session. *)
Inductive batchEntry : Type :=
| Verified (v : verification)
| Failed (sessionId error : string).

Record batchSummary : Type := {
  b_total : Z;
  b_passed : Z;
  b_failed : Z;
  b_overallScore : Q
}.

Record batchResults : Type := {
  b_results : list batchEntry;
  b_summary : batchSummary
}.

Module Verify.

Section Verifier.
Variable replayRequest : request -> outcome response.
Variable compareResponses : response -> response -> outcome comparison.
Variable generateDiffReport : string -> results -> outcome string.
Variable originalSessions : list (string * list interaction).

(** [replayAgainstContract(sessionId, targetBaseUrl)]: the lookup of the
    session, then the loop. *)
Definition replayAgainstContract (sessionId : string) : outcome results :=
  match map_get sessionId originalSessions with
  | None =>
      Thrown ("Session " ++ sessionId ++ " not found. Make sure to load it first.")%string
  | Some session =>
      Returned (Replay.replayAgainstContract replayRequest compareResponses session)
  end.

(** [verifyCompatibility(sessionId, targetBaseUrl, options)] *)
Definition verifyCompatibility (sessionId : string) (verifyOpts : verifyOptions)
  : outcome verification :=
  match replayAgainstContract sessionId with
  | Thrown m => Thrown m
  | Returned results =>
      let report :=
        if generateReport verifyOpts
        then match generateDiffReport sessionId results with
             | Returned reportPath => Returned (Some reportPath)
             | Thrown m => Thrown m
             end
        else Returned None in
      match report with
      | Thrown m => Thrown m
      | Returned reportPath =>
          let compatibilityScore := compatibilityScore (r_summary results) in
          Returned
            {| v_sessionId := sessionId;
               v_compatibilityScore := compatibilityScore;
               v_meetsThreshold :=
                 Qle_bool (threshold verifyOpts) compatibilityScore;
               v_threshold := threshold verifyOpts;
               v_reportPath := reportPath |}
      end
  end.

(** The counters of [batchResults.summary] while the loop runs. *)
Record tally : Type := { t_passed : Z; t_failed : Z }.

(** The body of the loop of [batchVerify]. *)
Definition verify_one (verifyOpts : verifyOptions)
  (st : list batchEntry * tally) (sessionId : string) : list batchEntry * tally :=
  let '(rs, n) := st in
  match verifyCompatibility sessionId
          {| threshold := threshold verifyOpts;
             generateReport := generateReport verifyOpts;
             printSummary := false |} with
  | Returned result =>
      (rs ++ [Verified result],
       if v_meetsThreshold result
       then {| t_passed := t_passed n + 1; t_failed := t_failed n |}
       else {| t_passed := t_passed n; t_failed := t_failed n + 1 |})
  | Thrown msg =>
      (rs ++ [Failed sessionId msg],
       {| t_passed := t_passed n; t_failed := t_failed n + 1 |})
  end.

(** The scores of the entries that have one. *)
Definition scores (rs : list batchEntry) : list Q :=
  flat_map
    (fun e =>
       match e with
       | Verified v => [v_compatibilityScore v]
       | Failed _ _ => []
       end)
    rs.

Definition Qsum (l : list Q) : Q := fold_left Qplus l 0%Q.

(** [batchVerify(sessionIds, targetBaseUrl, options)] *)
Definition batchVerify (sessionIds : list string) (verifyOpts : verifyOptions)
  : batchResults :=
  let '(rs, n) :=
    fold_left (verify_one verifyOpts) sessionIds
      ([], {| t_passed := 0; t_failed := 0 |}) in
  let totalScore := Qsum (scores rs) in
  let validResults := len (scores rs) in
  {| b_results := rs;
     b_summary :=
       {| b_total := len sessionIds;
          b_passed := t_passed n;
          b_failed := t_failed n;
          b_overallScore :=
            if 0 <? validResults then (totalScore / inject_Z validResults)%Q
            else 0%Q |} |}.

End Verifier.

End Verify.

(** ** The recorder's sessions

    [startRecording], [stopRecording] and [recordInteraction] on the whole
    state of a [SessionRecorder], the lookup of a recorded response by
    request hash, and the tagging of sessions.  A clock reading ([new
    Date()]) is an argument of the call that takes it. *)

Record sessionMetadata : Type := {
  md_userAgent : option string;
  md_environment : option string;
  md_tags : option (list string)
}.

Record session : Type := {
  sess_id : string;
  sess_startTime : Z;
  sess_timestamp : string;
  sess_interactions : list recordedInteraction;
  sess_metadata : option sessionMetadata;
  sess_endTime : option Z;
  sess_duration : option Z
}.

Record sessionRecorder : Type := {
  sr_sessions : list session;
  sr_currentSession : option session;
  sr_isRecording : bool
}.

(** The state the constructor leaves. *)
Definition new_recorder : sessionRecorder :=
  {| sr_sessions := []; sr_currentSession := None; sr_isRecording := false |}.

Module SessionRecorder.

Section WithOptions.
Context {RT : Runtime}.
Variable ropts : recorder_options.
(** [process.env.NODE_ENV] *)
Variable NODE_ENV : option string.

Definition environment : string :=
  match NODE_ENV with
  | Some e => if (e =? "")%string then "development" else e
  | None => "development"
  end.

(** [startRecording(sessionName)] at clock reading [now], whose ISO form is
    [nowISO]; without a name the session is named after [Date.now()]. *)
Definition startRecording (r : sessionRecorder) (sessionName : option string)
  (now : Z) (nowISO : string) : bool * sessionRecorder :=
  if sr_isRecording r then (false, r)
  else
    (true,
     {| sr_sessions := sr_sessions r;
        sr_currentSession :=
          Some {| sess_id :=
                    match sessionName with
                    | Some name => name
                    | None => ("session-" ++ Str.of_Z Date_now)%string
                    end;
                  sess_startTime := now;
                  sess_timestamp := nowISO;
                  sess_interactions := [];
                  sess_metadata :=
                    Some {| md_userAgent := Some "Recorded Session";
                            md_environment := Some environment;
                            md_tags := None |};
                  sess_endTime := None;
                  sess_duration := None |};
        sr_isRecording := true |}).

Definition close_session (s : session) (now : Z) : session :=
  {| sess_id := sess_id s; sess_startTime := sess_startTime s;
     sess_timestamp := sess_timestamp s;
     sess_interactions := sess_interactions s;
     sess_metadata := sess_metadata s;
     sess_endTime := Some now;
     sess_duration := Some (now - sess_startTime s) |}.

(** [stopRecording()] at clock reading [now]: the completed session, [None]
    for [null]; with [isRecording] set and no current session the first
    assignment throws. *)
Definition stopRecording (r : sessionRecorder) (now : Z)
  : outcome (option session * sessionRecorder) :=
  if negb (sr_isRecording r) then Returned (None, r)
  else
    match sr_currentSession r with
    | None => Thrown "Cannot set properties of null (setting 'endTime')"
    | Some s =>
        let completedSession := close_session s now in
        Returned
          (Some completedSession,
           {| sr_sessions := sr_sessions r ++ [completedSession];
              sr_currentSession := None;
              sr_isRecording := false |})
    end.

(** The interaction [recordInteraction] builds. *)
Definition interaction_of (timestamp : string) (duration : option Z)
  (req : request) (res : response) : recordedInteraction :=
  let request := Recorder.captureRequest ropts req in
  {| ri_timestamp := timestamp;
     ri_requestHash := Recorder.generateContentHash (Recorder.hash_input request);
     ri_request := request;
     ri_response := Recorder.captureResponse ropts res;
     ri_duration := duration |}.

Definition push_interaction (s : session) (i : recordedInteraction) : session :=
  {| sess_id := sess_id s; sess_startTime := sess_startTime s;
     sess_timestamp := sess_timestamp s;
     sess_interactions := sess_interactions s ++ [i];
     sess_metadata := sess_metadata s;
     sess_endTime := sess_endTime s;
     sess_duration := sess_duration s |}.

(** [recordInteraction(req, res)] *)
Definition recordInteraction (r : sessionRecorder) (timestamp : string)
  (duration : option Z) (req : request) (res : response)
  : bool * sessionRecorder :=
  match sr_isRecording r, sr_currentSession r with
  | true, Some s =>
      (true,
       {| sr_sessions := sr_sessions r;
          sr_currentSession :=
            Some (push_interaction s (interaction_of timestamp duration req res));
          sr_isRecording := true |})
  | _, _ => (false, r)
  end.

(** The object literal [findMatchingResponse] hashes: the request as it
    arrives; a property that is [undefined] leaves no trace in
    [JSON.stringify]. *)
Definition lookup_hash_input (request : request) : json :=
  let opt_field (k : string) (v : option json) : obj :=
    match v with Some x => [(k, x)] | None => [] end in
  JObj ([("method", JStr (req_method request)); ("path", JStr (req_path request))]
        ++ opt_field "query" (req_query request)
        ++ opt_field "body" (req_body request)).

(** [findMatchingResponse(session, request)], on the interactions of the
    session. *)
Definition findMatchingResponse (interactions : list recordedInteraction)
  (request : request) : option capturedResponse :=
  let requestHash := Recorder.generateContentHash (lookup_hash_input request) in
  match find (fun interaction => (ri_requestHash interaction =? requestHash)%string)
          interactions with
  | Some matchingInteraction => Some (ri_response matchingInteraction)
  | None => None
  end.

(** The loop of [tagSession] and [tagInteraction] that adds the new tags. *)
Definition add_tags (existing newTags : list string) : list string :=
  fold_left
    (fun tags tag => if existsb (String.eqb tag) tags then tags else tags ++ [tag])
    newTags existing.

(** What [tagSession] leaves of the session it found. *)
Definition tag (newTags : list string) (s : session) : session :=
  let metadata :=
    match sess_metadata s with
    | Some m => m
    | None => {| md_userAgent := None; md_environment := None; md_tags := None |}
    end in
  let tags :=
    match md_tags metadata with
    | Some t => t
    | None => []
    end in
  {| sess_id := sess_id s; sess_startTime := sess_startTime s;
     sess_timestamp := sess_timestamp s;
     sess_interactions := sess_interactions s;
     sess_metadata :=
       Some {| md_userAgent := md_userAgent metadata;
               md_environment := md_environment metadata;
               md_tags := Some (add_tags tags newTags) |};
     sess_endTime := sess_endTime s;
     sess_duration := sess_duration s |}.

(** The first session of the list with the given id, updated in place. *)
Fixpoint update_first (sessionId : string) (f : session -> session)
  (l : list session) : option (session * list session) :=
  match l with
  | [] => None
  | s :: l' =>
      if (sess_id s =? sessionId)%string then Some (f s, f s :: l')
      else
        match update_first sessionId f l' with
        | Some (s', l'') => Some (s', s :: l'')
        | None => None
        end
  end.

(** [tagSession(sessionId, tags)]: the session is looked up among the
    stopped ones, then in the current one. *)
Definition tagSession (r : sessionRecorder) (sessionId : string)
  (tags : list string) : outcome (session * sessionRecorder) :=
  match update_first sessionId (tag tags) (sr_sessions r) with
  | Some (s', sessions') =>
      Returned (s', {| sr_sessions := sessions';
                       sr_currentSession := sr_currentSession r;
                       sr_isRecording := sr_isRecording r |})
  | None =>
      match sr_currentSession r with
      | Some s =>
          if (sess_id s =? sessionId)%string
          then Returned (tag tags s,
                         {| sr_sessions := sr_sessions r;
                            sr_currentSession := Some (tag tags s);
                            sr_isRecording := sr_isRecording r |})
          else Thrown ("Session with ID " ++ sessionId ++ " not found")%string
      | None => Thrown ("Session with ID " ++ sessionId ++ " not found")%string
      end
  end.

End WithOptions.

End SessionRecorder.

(** ** Registering templates

    [registerTemplate] and the constructor of [ResponseResolver].  The
    path-to-regexp dependency compiles the route pattern at registration
    and throws on a pattern it rejects: [pathToRegexp pattern] is the
    message it throws with, [None] when it accepts the pattern. *)

Record templateOptions : Type := {
  to_method : option string;
  to_statusCode : option Z;
  to_headers : option obj
}.

(** [options = {}] *)
Definition no_templateOptions : templateOptions :=
  {| to_method := None; to_statusCode := None; to_headers := None |}.

Module Resolver.

Section Registration.
Context {RT : Runtime}.
Variable pathToRegexp : string -> option string.

(** [options.method || '*'], [options.statusCode || 200] and
    [options.headers || { 'Content-Type': 'application/json' }] *)
Definition method_of (o : templateOptions) : string :=
  match to_method o with
  | Some m => if (m =? "")%string then "*" else m
  | None => "*"
  end.

Definition statusCode_of (o : templateOptions) : Z :=
  match to_statusCode o with
  | Some c => if c =? 0 then 200 else c
  | None => 200
  end.

Definition headers_of (o : templateOptions) : obj :=
  match to_headers o with
  | Some h => h
  | None => [("Content-Type", JStr "application/json")]
  end.

(** [new ResponseResolver({ defaultContext })]: no route, and the default
    context builder. *)
Definition new_resolver (defaultContext : obj) : Template.resolver :=
  {| Template.defaultContext := defaultContext;
     Template.routeTemplates := [];
     Template.contextBuilders := [Template.default_builder] |}.

(** [registerTemplate(routePattern, template, options)]: the template is
    compiled by the constructor of [ResponseTemplate]. *)
Definition registerTemplate (r : Template.resolver) (routePattern : string)
  (template : json) (options : templateOptions) : outcome Template.resolver :=
  match pathToRegexp routePattern with
  | Some msg => Thrown msg
  | None =>
      match Template.ResponseTemplate template with
      | Thrown msg => Thrown msg
      | Returned compiled =>
          Returned
            {| Template.defaultContext := Template.defaultContext r;
               Template.routeTemplates :=
                 Template.routeTemplates r ++
                 [{| Template.pattern := routePattern;
                     Template.template := compiled;
                     Template.method := method_of options;
                     Template.rt_statusCode := statusCode_of options;
                     Template.rt_headers := headers_of options |}];
               Template.contextBuilders := Template.contextBuilders r |}
      end
  end.

(** [registerContextBuilder(builder)] with a function. *)
Definition registerContextBuilder (r : Template.resolver)
  (builder : request -> outcome obj) : Template.resolver :=
  {| Template.defaultContext := Template.defaultContext r;
     Template.routeTemplates := Template.routeTemplates r;
     Template.contextBuilders := Template.contextBuilders r ++ [builder] |}.

End Registration.

End Resolver.

(** ** The resolver with a lookup cache

    The [ResponseResolver] that caches the result of
    [findMatchingTemplate] under the key [METHOD-path] and compiles a
    template when it is first rendered.  A cached entry is the matched
    route with its parameters, or [null]. *)

Record lazyRoute : Type := {
  lr_pattern : string;
  lr_template : json;
  lr_method : string;
  lr_statusCode : Z;
  lr_headers : obj
}.

Record metrics : Type := {
  templateCompilations : Z;
  templateRenders : Z;
  cacheHits : Z;
  cacheMisses : Z;
  totalRenderTime : Q
}.

Record cachedResolver : Type := {
  c_defaultContext : obj;
  c_routeTemplates : list lazyRoute;
  c_contextBuilders : list (request -> outcome obj);
  templateCache : list (string * option (lazyRoute * json));
  c_metrics : metrics
}.

Module CachedResolver.

Section Resolver.
Context {RT : Runtime}.
Variable pathToRegexp : string -> option string.

Definition new_resolver (defaultContext : obj) : cachedResolver :=
  {| c_defaultContext := defaultContext;
     c_routeTemplates := [];
     c_contextBuilders := [Template.default_builder];
     templateCache := [];
     c_metrics :=
       {| templateCompilations := 0; templateRenders := 0; cacheHits := 0;
          cacheMisses := 0; totalRenderTime := 0 |} |}.

(** [registerTemplate(routePattern, template, options)]: the template is
    kept as given. *)
Definition registerTemplate (r : cachedResolver) (routePattern : string)
  (template : json) (options : templateOptions) : outcome cachedResolver :=
  match pathToRegexp routePattern with
  | Some msg => Thrown msg
  | None =>
      Returned
        {| c_defaultContext := c_defaultContext r;
           c_routeTemplates :=
             c_routeTemplates r ++
             [{| lr_pattern := routePattern;
                 lr_template := template;
                 lr_method := Resolver.method_of options;
                 lr_statusCode := Resolver.statusCode_of options;
                 lr_headers := Resolver.headers_of options |}];
           c_contextBuilders := c_contextBuilders r;
           templateCache := templateCache r;
           c_metrics := c_metrics r |}
  end.

(** The slow path of [findMatchingTemplate]: the first route that matches
    the method and the path. *)
Fixpoint find_route (routes : list lazyRoute) (rq : request)
  : option (lazyRoute * json) :=
  match routes with
  | [] => None
  | route :: routes' =>
      if negb ((lr_method route =? "*")%string)
         && negb (Str.toUpperCase (lr_method route)
                  =? Str.toUpperCase (req_method rq))%string
      then find_route routes' rq
      else
        match path_match (lr_pattern route) (req_path rq) with
        | None => find_route routes' rq
        | Some params => Some (route, params)
        end
  end.

Definition fastCacheKey (rq : request) : string :=
  (Str.toUpperCase (req_method rq) ++ "-" ++ req_path rq)%string.

Definition with_cache (r : cachedResolver)
  (cache : list (string * option (lazyRoute * json))) (m : metrics)
  : cachedResolver :=
  {| c_defaultContext := c_defaultContext r;
     c_routeTemplates := c_routeTemplates r;
     c_contextBuilders := c_contextBuilders r;
     templateCache := cache;
     c_metrics := m |}.

Definition hit (m : metrics) : metrics :=
  {| templateCompilations := templateCompilations m;
     templateRenders := templateRenders m;
     cacheHits := cacheHits m + 1;
     cacheMisses := cacheMisses m;
     totalRenderTime := totalRenderTime m |}.

Definition miss (m : metrics) : metrics :=
  {| templateCompilations := templateCompilations m;
     templateRenders := templateRenders m;
     cacheHits := cacheHits m;
     cacheMisses := cacheMisses m + 1;
     totalRenderTime := totalRenderTime m |}.

(** [findMatchingTemplate(request)]: the answer and the resolver it
    leaves. *)
Definition findMatchingTemplate (r : cachedResolver) (rq : request)
  : option (lazyRoute * json) * cachedResolver :=
  match map_get (fastCacheKey rq) (templateCache r) with
  | Some cached => (cached, with_cache r (templateCache r) (hit (c_metrics r)))
  | None =>
      let found := find_route (c_routeTemplates r) rq in
      (found,
       with_cache r (templateCache r ++ [(fastCacheKey rq, found)])
         (miss (c_metrics r)))
  end.

(** [clearCaches()] *)
Definition clearCaches (r : cachedResolver) : cachedResolver :=
  with_cache r [] (c_metrics r).


Definition averageRenderTimeMs (m : metrics) : Q :=
  if 0 <? templateRenders m
  then (totalRenderTime m / inject_Z (templateRenders m))%Q
  else 0%Q.

End Resolver.

End CachedResolver.

(** ** Filtering the interactions to replay

    [setFilter], [matchesFilter] and [filterSession] of the verifier with
    filters.  A criterion of the filter is a list of strings or is absent;
    what the filter reads of an interaction is its request and its tags.
    [regexp_test source s] is [new RegExp(source).test(s)], which throws on
    a source that is no regular expression. *)

Record filterCriteria : Type := {
  f_methods : option (list string);
  f_routes : option (list string);
  f_tags : option (list string);
  f_sessionTags : option (list string)
}.

Record filterable : Type := {
  fi_request : request;
  fi_tags : option (list string)
}.

(** A session as [filterSession] reads and returns it: [metadata?.tags],
    the interactions, and the three properties it adds ([filtered] with the
    two counts). *)
Record filterableSession : Type := {
  fs_tags : option (list string);
  fs_interactions : list filterable;
  fs_filtered : option (Z * Z)
}.

Module Filter.

(** [s.replace(/c/g, by)] for a pattern of one character. *)
Fixpoint replace_char (c : ascii) (by_ : string) (s : string) : string :=
  match s with
  | EmptyString => EmptyString
  | String a s' =>
      if Ascii.eqb a c then (by_ ++ replace_char c by_ s')%string
      else String a (replace_char c by_ s')
  end.

(** [xs.some(f)] with a callback that may throw. *)
Fixpoint some_outcome {A : Type} (f : A -> outcome bool) (xs : list A) : outcome bool :=
  match xs with
  | [] => Returned false
  | x :: xs' =>
      match f x with
      | Thrown m => Thrown m
      | Returned true => Returned true
      | Returned false => some_outcome f xs'
      end
  end.

(** [xs.filter(f)] with a callback that may throw. *)
Fixpoint filter_outcome {A : Type} (f : A -> outcome bool) (xs : list A)
  : outcome (list A) :=
  match xs with
  | [] => Returned []
  | x :: xs' =>
      match f x with
      | Thrown m => Thrown m
      | Returned keep =>
          match filter_outcome f xs' with
          | Thrown m => Thrown m
          | Returned kept => Returned (if keep then x :: kept else kept)
          end
      end
  end.

(** [criterion && criterion.length > 0] *)
Definition active (criterion : option (list string)) : bool :=
  match criterion with
  | Some (_ :: _) => true
  | _ => false
  end.

Definition items (criterion : option (list string)) : list string :=
  match criterion with
  | Some l => l
  | None => []
  end.

Section Matching.
Variable regexp_test : string -> string -> outcome bool.

(** The callback of [this.filter.routes.some]. *)
Definition routeMatches (path routePattern : string) : outcome bool :=
  if Str.startsWith routePattern "/" && Str.includes routePattern "*" then
    let regexPattern :=
      replace_char "*" ".*" (replace_char "/" "\/" routePattern) in
    regexp_test ("^" ++ regexPattern ++ "$")%string path
  else Returned (Str.includes path routePattern).

(** [matchesFilter(interaction)] *)
Definition matchesFilter (filter : option filterCriteria) (interaction : filterable)
  : outcome bool :=
  match filter with
  | None => Returned true
  | Some f =>
      if active (f_methods f)
         && negb (existsb
                    (fun m =>
                       (Str.toUpperCase (req_method (fi_request interaction))
                        =? Str.toUpperCase m)%string)
                    (items (f_methods f)))
      then Returned false
      else
        match
          (if active (f_routes f)
           then some_outcome (routeMatches (req_path (fi_request interaction)))
                  (items (f_routes f))
           else Returned true)
        with
        | Thrown m => Thrown m
        | Returned false => Returned false
        | Returned true =>
            if active (f_tags f) then
              match fi_tags interaction with
              | None | Some [] => Returned false
              | Some tags =>
                  Returned
                    (existsb (fun tag => existsb (String.eqb tag) tags)
                       (items (f_tags f)))
              end
            else Returned true
        end
  end.

(** [filterSession(session)] *)
Definition filterSession (filter : option filterCriteria) (session : filterableSession)
  : outcome filterableSession :=
  match filter with
  | None => Returned session
  | Some f =>
      let sessionTags := items (fs_tags session) in
      if active (f_sessionTags f)
         && negb (existsb (fun tag => existsb (String.eqb tag) sessionTags)
                    (items (f_sessionTags f)))
      then Returned {| fs_tags := fs_tags session;
                       fs_interactions := [];
                       fs_filtered := fs_filtered session |}
      else
        match filter_outcome (matchesFilter filter) (fs_interactions session) with
        | Thrown m => Thrown m
        | Returned filteredInteractions =>
            Returned {| fs_tags := fs_tags session;
                        fs_interactions := filteredInteractions;
                        fs_filtered :=
                          Some (len (fs_interactions session),
                                len filteredInteractions) |}
        end
  end.

End Matching.

End Filter.

(** ** The hash of a template

    [generateTemplateHash] of the template that compiles on demand.  The
    loop works on 32-bit integers: [<<] and [&] convert their operands with
    ToInt32, the subtraction and the addition between them are exact. *)

Module TemplateHash.

(** ToInt32 of an integer. *)
Definition toInt32 (n : Z) : Z :=
  let m := n mod 2 ^ 32 in
  if 2 ^ 31 <=? m then m - 2 ^ 32 else m.

(** [str.charCodeAt(i)] for every [i]. *)
Definition charCodes (str : string) : list Z :=
  map (fun c => Z.of_nat (nat_of_ascii c)) (list_ascii_of_string str).

(** The body of the loop: [hash = ((hash << 5) - hash) + char;
    hash = hash & hash]. *)
Definition step (hash char : Z) : Z :=
  let hash := toInt32 (Z.shiftl (toInt32 hash) 5) - hash + char in
  Z.land (toInt32 hash) (toInt32 hash).

Definition hashCode (str : string) : Z := fold_left step (charCodes str) 0.

Definition digit36 (d : Z) : ascii :=
  if d <? 10 then ascii_of_nat (Z.to_nat (48 + d))
  else ascii_of_nat (Z.to_nat (87 + d)).

(** The digits of a non-negative number in base 36; seven digits cover the
    32-bit range. *)
Fixpoint digits36 (fuel : nat) (n : Z) (acc : string) : string :=
  match fuel with
  | O => acc
  | S fuel' =>
      let acc' := String (digit36 (n mod 36)) acc in
      if n / 36 =? 0 then acc' else digits36 fuel' (n / 36) acc'
  end.

(** [n.toString(36)] for a 32-bit integer. *)
Definition toString36 (n : Z) : string :=
  if n <? 0 then ("-" ++ digits36 7 (- n) "")%string else digits36 7 n "".

(** [generateTemplateHash(template)]; [None] is [undefined]. *)
Definition generateTemplateHash `{RT : Runtime} (template : option json) : string :=
  match template with
  | None => "empty"
  | Some t =>
      if negb (truthy t) then "empty"
      else
        let str :=
          match t with
          | JStr s => s
          | _ => JSON_stringify t
          end in
        toString36 (hashCode str)
  end.

End TemplateHash.

(** * The vocabulary of the statements *)

(** ** A runtime for the closed examples

    The closed examples need one concrete [Runtime].  Its functions are
    the library functions on the inputs described with each of them:
    [JSON.stringify] and [JSON.parse] on integers and on strings of code
    units below 256, SHA-256 in full, [Date] parsing on the ISO-8601 forms
    in the UTC time zone, [Number] on integers, [localeCompare] on letters
    and digits, Handlebars on text with [{{path}}] tags and calls of
    helpers, path-to-regexp on literal and [:name] segments.  The clock
    stands at 2026-01-01T00:00:00Z, [uuidv4] and the random number are
    fixed, and the HTTP client finds no server. *)

Module TestRuntime.

(** *** Characters *)

Definition dquote : ascii := "034"%char.
Definition backslash : ascii := "092"%char.

Definition code (c : ascii) : Z := Z.of_nat (nat_of_ascii c).

Definition char_of (n : Z) : ascii := ascii_of_nat (Z.to_nat n).

Definition one (c : ascii) : string := String c EmptyString.

Definition hex_char (d : Z) : ascii :=
  if d <? 10 then char_of (48 + d) else char_of (87 + d).

(** [String(n)] of an integer below 10^21. *)
Definition decimal (n : Z) : string := NilZero.string_of_int (Z.to_int n).

Module Json.

(** *** [JSON.stringify(value)] without indentation *)

Definition quote_char (c : ascii) : string :=
  let n := code c in
  if n =? 34 then String backslash (one dquote)
  else if n =? 92 then String backslash (one backslash)
  else if n =? 8 then String backslash "b"
  else if n =? 12 then String backslash "f"
  else if n =? 10 then String backslash "n"
  else if n =? 13 then String backslash "r"
  else if n =? 9 then String backslash "t"
  else if n <? 32
  then String backslash
         ("u00" ++ String (hex_char (n / 16)) (one (hex_char (n mod 16))))%string
  else one c.

Fixpoint quote_chars (s : string) : string :=
  match s with
  | EmptyString => EmptyString
  | String c s' => (quote_char c ++ quote_chars s')%string
  end.

Definition quote (s : string) : string :=
  String dquote (quote_chars s ++ one dquote)%string.

Fixpoint stringify (v : json) : string :=
  match v with
  | JNull => "null"
  | JBool true => "true"
  | JBool false => "false"
  | JNum n => decimal n
  | JStr s => quote s
  | JArr l => ("[" ++ String.concat "," (map stringify l) ++ "]")%string
  | JObj o =>
      ("{" ++ String.concat ","
                (map (fun kv => (quote (fst kv) ++ ":" ++ stringify (snd kv))%string) o)
           ++ "}")%string
  end.

(** *** [JSON.parse(text)]

    Numbers are read when they are integers written without fraction and
    exponent, escapes [\uXXXX] when they name a code unit below 256. *)

Definition is_ws (c : ascii) : bool :=
  let n := code c in (n =? 32) || (n =? 9) || (n =? 10) || (n =? 13).

Fixpoint skip_ws (cs : list ascii) : list ascii :=
  match cs with
  | c :: cs' => if is_ws c then skip_ws cs' else cs
  | [] => []
  end.

Definition hex_value (c : ascii) : option Z :=
  let n := code c in
  if (48 <=? n) && (n <=? 57) then Some (n - 48)
  else if (97 <=? n) && (n <=? 102) then Some (n - 87)
  else if (65 <=? n) && (n <=? 70) then Some (n - 55)
  else None.

(** The characters of a string after its opening quote, up to the closing
    one. *)
Fixpoint string_body (cs : list ascii) (acc : string) : option (string * list ascii) :=
  match cs with
  | [] => None
  | c :: cs' =>
      if code c =? 34 then Some (acc, cs')
      else if code c =? 92 then
        match cs' with
        | e :: cs'' =>
            let simple (x : ascii) := string_body cs'' (acc ++ one x)%string in
            if code e =? 34 then simple dquote
            else if code e =? 92 then simple backslash
            else if code e =? 47 then simple "/"%char
            else if code e =? 98 then simple (char_of 8)
            else if code e =? 102 then simple (char_of 12)
            else if code e =? 110 then simple (char_of 10)
            else if code e =? 114 then simple (char_of 13)
            else if code e =? 116 then simple (char_of 9)
            else if code e =? 117 then
              match cs'' with
              | h1 :: h2 :: h3 :: h4 :: rest =>
                  match hex_value h1, hex_value h2, hex_value h3, hex_value h4 with
                  | Some a, Some b, Some c', Some d =>
                      let n := ((a * 16 + b) * 16 + c') * 16 + d in
                      if n <? 256 then string_body rest (acc ++ one (char_of n))%string
                      else None
                  | _, _, _, _ => None
                  end
              | _ => None
              end
            else None
        | [] => None
        end
      else if code c <? 32 then None
      else string_body cs' (acc ++ one c)%string
  end.

Fixpoint digits (cs : list ascii) (acc : Z) : Z * list ascii :=
  match cs with
  | c :: cs' =>
      if Regex.digit c then digits cs' (acc * 10 + (code c - 48)) else (acc, cs)
  | [] => (acc, [])
  end.

(** An integer of the JSON grammar: no leading zero, no fraction, no
    exponent. *)
Definition integer (cs : list ascii) : option (Z * list ascii) :=
  let '(negative, cs1) :=
    match cs with
    | c :: cs' => if code c =? 45 then (true, cs') else (false, cs)
    | [] => (false, cs)
    end in
  match cs1 with
  | d :: cs2 =>
      if Regex.digit d then
        let '(n, rest) :=
          if code d =? 48 then (0, cs2) else digits cs1 0 in
        match rest with
        | c :: _ =>
            if Regex.digit c || (code c =? 46) || (code c =? 101) || (code c =? 69)
            then None
            else Some (if negative then - n else n, rest)
        | [] => Some (if negative then - n else n, rest)
        end
      else None
  | [] => None
  end.

Fixpoint value (fuel : nat) (cs : list ascii) {struct fuel}
  : option (json * list ascii) :=
  match fuel with
  | O => None
  | S fuel' =>
      match skip_ws cs with
      | [] => None
      | c :: rest =>
          let n := code c in
          if n =? 34 then
            match string_body rest "" with
            | Some (s, rest') => Some (JStr s, rest')
            | None => None
            end
          else if n =? 91 then
            match skip_ws rest with
            | c' :: rest' =>
                if code c' =? 93 then Some (JArr [], rest')
                else elements fuel' (c' :: rest') []
            | [] => None
            end
          else if n =? 123 then
            match skip_ws rest with
            | c' :: rest' =>
                if code c' =? 125 then Some (JObj [], rest')
                else members fuel' (c' :: rest') []
            | [] => None
            end
          else
            match c :: rest with
            | "n" :: "u" :: "l" :: "l" :: rest' => Some (JNull, rest')
            | "t" :: "r" :: "u" :: "e" :: rest' => Some (JBool true, rest')
            | "f" :: "a" :: "l" :: "s" :: "e" :: rest' => Some (JBool false, rest')
            | _ =>
                match integer (c :: rest) with
                | Some (z, rest') => Some (JNum z, rest')
                | None => None
                end
            end%char
      end
  end
with elements (fuel : nat) (cs : list ascii) (acc : list json) {struct fuel}
  : option (json * list ascii) :=
  match fuel with
  | O => None
  | S fuel' =>
      match value fuel' cs with
      | Some (v, rest) =>
          match skip_ws rest with
          | c :: rest' =>
              if code c =? 44 then elements fuel' rest' (acc ++ [v])
              else if code c =? 93 then Some (JArr (acc ++ [v]), rest')
              else None
          | [] => None
          end
      | None => None
      end
  end
with members (fuel : nat) (cs : list ascii) (acc : obj) {struct fuel}
  : option (json * list ascii) :=
  match fuel with
  | O => None
  | S fuel' =>
      match skip_ws cs with
      | q :: rest =>
          if code q =? 34 then
            match string_body rest "" with
            | Some (k, rest1) =>
                match skip_ws rest1 with
                | c :: rest2 =>
                    if code c =? 58 then
                      match value fuel' rest2 with
                      | Some (v, rest3) =>
                          match skip_ws rest3 with
                          | c' :: rest4 =>
                              if code c' =? 44
                              then members fuel' rest4 (obj_set k v acc)
                              else if code c' =? 125
                              then Some (JObj (obj_set k v acc), rest4)
                              else None
                          | [] => None
                          end
                      | None => None
                      end
                    else None
                | [] => None
                end
            | None => None
            end
          else None
      | [] => None
      end
  end.

Definition parse (text : string) : option json :=
  let cs := list_ascii_of_string text in
  match value (2 * List.length cs + 2) cs with
  | Some (v, rest) =>
      match skip_ws rest with
      | [] => Some v
      | _ => None
      end
  | None => None
  end.

End Json.

Module Sha256.

(** *** SHA-256 (FIPS 180-4) of the UTF-8 bytes of a string, in hexadecimal *)

Definition w32 (x : Z) : Z := x mod 2 ^ 32.

Definition rotr (n x : Z) : Z :=
  Z.lor (Z.shiftr x n) (w32 (Z.shiftl x (32 - n))).

Definition Ch (x y z : Z) : Z := Z.lxor (Z.land x y) (Z.land (Z.lxor x (2 ^ 32 - 1)) z).

Definition Maj (x y z : Z) : Z :=
  Z.lxor (Z.lxor (Z.land x y) (Z.land x z)) (Z.land y z).

Definition Sigma0 (x : Z) : Z := Z.lxor (Z.lxor (rotr 2 x) (rotr 13 x)) (rotr 22 x).
Definition Sigma1 (x : Z) : Z := Z.lxor (Z.lxor (rotr 6 x) (rotr 11 x)) (rotr 25 x).
Definition sigma0 (x : Z) : Z := Z.lxor (Z.lxor (rotr 7 x) (rotr 18 x)) (Z.shiftr x 3).
Definition sigma1 (x : Z) : Z := Z.lxor (Z.lxor (rotr 17 x) (rotr 19 x)) (Z.shiftr x 10).

(** The constants of the standard are fractional parts of roots of the
    first primes, 32 bits of each. *)
Definition is_prime (n : Z) : bool :=
  forallb (fun d => negb (n mod Z.of_nat d =? 0)) (List.seq 2 (Z.to_nat n - 2)).

Definition primes (count : nat) : list Z :=
  firstn count (filter is_prime (map Z.of_nat (List.seq 2 310))).

(** The integer part of a cube root, between [lo] and [hi]. *)
Fixpoint cube_root (fuel : nat) (lo hi n : Z) : Z :=
  match fuel with
  | O => lo
  | S fuel' =>
      let mid := (lo + hi + 1) / 2 in
      if mid * mid * mid <=? n then cube_root fuel' mid hi n
      else cube_root fuel' lo (mid - 1) n
  end.

(** The round constants: the cube roots of the first 64 primes. *)
Definition K256 : list Z :=
  Eval vm_compute in
  map (fun p => cube_root 40 0 (2 ^ 35) (p * 2 ^ 96) mod 2 ^ 32) (primes 64).

(** The initial hash value: the square roots of the first 8 primes. *)
Definition H256 : list Z :=
  Eval vm_compute in map (fun p => Z.sqrt (p * 2 ^ 64) mod 2 ^ 32) (primes 8).

(** The UTF-8 bytes of a string of code units below 256. *)
Definition utf8 (s : string) : list Z :=
  flat_map
    (fun c =>
       let n := code c in
       if n <? 128 then [n] else [192 + n / 64; 128 + n mod 64])
    (list_ascii_of_string s).

(** The message followed by the bit 1, zeros, and its length in bits on
    eight bytes. *)
Definition pad (bytes : list Z) : list Z :=
  let l := Z.of_nat (List.length bytes) in
  let zeros := (55 - l) mod 64 in
  bytes ++ [128] ++ List.repeat 0 (Z.to_nat zeros)
  ++ map (fun i => (l * 8) / 2 ^ (8 * (7 - Z.of_nat i)) mod 256) (List.seq 0 8).

Fixpoint words (bytes : list Z) {struct bytes} : list Z :=
  match bytes with
  | a :: b :: c :: d :: rest => (((a * 256 + b) * 256 + c) * 256 + d) :: words rest
  | _ => []
  end.

(** The message schedule, latest word first. *)
Fixpoint schedule (n : nat) (w : list Z) : list Z :=
  match n with
  | O => w
  | S n' =>
      schedule n'
        (w32 (sigma1 (nth 1 w 0) + nth 6 w 0 + sigma0 (nth 14 w 0) + nth 15 w 0) :: w)
  end.

Definition round (st : list Z) (kw : Z * Z) : list Z :=
  match st with
  | [a; b; c; d; e; f; g; h] =>
      let t1 := h + Sigma1 e + Ch e f g + fst kw + snd kw in
      let t2 := Sigma0 a + Maj a b c in
      [w32 (t1 + t2); a; b; c; w32 (d + t1); e; f; g]
  | _ => st
  end.

Definition compress (h : list Z) (block : list Z) : list Z :=
  let w := List.rev (schedule 48 (List.rev block)) in
  map (fun p => w32 (fst p + snd p))
    (combine h (fold_left round (combine K256 w) h)).

Fixpoint blocks (fuel : nat) (ws : list Z) (h : list Z) : list Z :=
  match fuel with
  | O => h
  | S fuel' =>
      match ws with
      | [] => h
      | _ => blocks fuel' (skipn 16 ws) (compress h (firstn 16 ws))
      end
  end.

Definition hex8 (x : Z) : string :=
  string_of_list_ascii
    (map (fun i => hex_char (x / 16 ^ (7 - Z.of_nat i) mod 16)) (List.seq 0 8)).

Definition sha256 (s : string) : string :=
  let ws := words (pad (utf8 s)) in
  String.concat "" (map hex8 (blocks (List.length ws) ws H256)).

End Sha256.

(** *** The clock and the random sources *)

Definition now : Z := 1767225600000.

Definition fresh_uuid : string := "00000000-0000-4000-8000-000000000000".

Module Handlebars.

(** *** Handlebars on plain templates

    [compile(source)(context)] for a source made of text and of the tags
    [{{path}}], [{{{path}}}] and [{{name argument ...}}], a path being
    identifiers joined by dots, with the helpers the template class
    registers.  Of the helpers, [uuid] and [timestamp] are read; blocks,
    partials, comments, literals in first position, escaped tags and the
    other helpers are not, and the model raises on them. *)

Inductive piece : Type :=
| Text (s : string)
| Tag (raw : bool) (content : string).

Definition ends_with_backslash (s : string) : bool :=
  match List.rev (list_ascii_of_string s) with
  | c :: _ => code c =? 92
  | [] => false
  end.

(** The text and the tags of a source; [None] for a tag that is not closed
    or closed by the wrong number of braces, and for a backslash before a
    tag. *)
Fixpoint scan (cs : list ascii) (tag : option bool) (cur : string)
  (out : list piece) {struct cs} : option (list piece) :=
  match tag with
  | None =>
      match cs with
      | [] => Some (out ++ [Text cur])
      | "{" :: "{" :: "{" :: rest =>
          if ends_with_backslash cur then None
          else scan rest (Some true) "" (out ++ [Text cur])
      | "{" :: "{" :: rest =>
          if ends_with_backslash cur then None
          else scan rest (Some false) "" (out ++ [Text cur])
      | c :: rest => scan rest None (cur ++ one c)%string out
      end
  | Some true =>
      match cs with
      | [] => None
      | "}" :: "}" :: "}" :: rest => scan rest None "" (out ++ [Tag true cur])
      | c :: rest => scan rest (Some true) (cur ++ one c)%string out
      end
  | Some false =>
      match cs with
      | [] => None
      | "}" :: "}" :: "}" :: rest => None
      | "}" :: "}" :: rest => scan rest None "" (out ++ [Tag false cur])
      | c :: rest => scan rest (Some false) (cur ++ one c)%string out
      end
  end%char.

(** [s.split(sep)] without the empty pieces, and with them. *)
Fixpoint split_from (sep : ascii) (s : string) (cur : string) : list string :=
  match s with
  | EmptyString => [cur]
  | String c s' =>
      if Ascii.eqb c sep then cur :: split_from sep s' ""
      else split_from sep s' (cur ++ one c)%string
  end.

Definition split (sep : ascii) (s : string) : list string := split_from sep s "".

Definition blank (c : ascii) : ascii := if Json.is_ws c then " "%char else c.

Definition words (s : string) : list string :=
  filter (fun w => negb (w =? "")%string)
    (split " " (string_of_list_ascii (map blank (list_ascii_of_string s)))).

Definition letter (c : ascii) : bool := Str.is_upper c || Str.is_lower c.

Definition ident_char (c : ascii) : bool :=
  letter c || Regex.digit c || (code c =? 95).

Definition is_ident (s : string) : bool :=
  match s with
  | EmptyString => false
  | String c s' =>
      (letter c || (code c =? 95)) && forallb ident_char (list_ascii_of_string s')
  end.

Definition is_path (s : string) : bool := forallb is_ident (split "." s).

Definition is_number (s : string) : bool :=
  negb (s =? "")%string && forallb Regex.digit (list_ascii_of_string s).

Definition keywords : list string :=
  ["this"; "true"; "false"; "null"; "undefined"; "else"].

(** The helpers Handlebars knows when a template of this code is rendered:
    its own and those [initialize] registers. *)
Definition helpers : list string :=
  ["helperMissing"; "blockHelperMissing"; "each"; "if"; "unless"; "with"; "log";
   "lookup"; "uuid"; "now"; "timestamp"; "random"; "concat"; "if_eq"].

Definition mem (s : string) (l : list string) : bool := existsb (String.eqb s) l.

(** [lookupProperty(parent, name)]: own properties only. *)
Definition property (parent : json) (name : string) : option json :=
  match parent with
  | JObj o => obj_get name o
  | JArr l => if (name =? "length")%string then Some (JNum (len l)) else None
  | JStr s =>
      if (name =? "length")%string then Some (JNum (Z.of_nat (String.length s)))
      else None
  | _ => None
  end.

(** A path looked up from a value; a [null] or [undefined] on the way is
    the result. *)
Fixpoint lookup_path (v : option json) (parts : list string) : option json :=
  match parts with
  | [] => v
  | p :: parts' =>
      match v with
      | None | Some JNull => v
      | Some x => lookup_path (property x p) parts'
      end
  end.

(** ['' + value]: arrays join their elements, objects answer
    [[object Object]]. *)
Fixpoint display (v : json) : string :=
  match v with
  | JNull => ""
  | JBool true => "true"
  | JBool false => "false"
  | JNum n => decimal n
  | JStr s => s
  | JArr l => String.concat "," (map display l)
  | JObj _ => "[object Object]"
  end.

(** [escapeExpression] on a string. *)
Definition escape_char (c : ascii) : string :=
  let n := code c in
  if n =? 38 then "&amp;"
  else if n =? 60 then "&lt;"
  else if n =? 62 then "&gt;"
  else if n =? 34 then "&quot;"
  else if n =? 39 then "&#x27;"
  else if n =? 96 then "&#x60;"
  else if n =? 61 then "&#x3D;"
  else one c.

Fixpoint escape (s : string) : string :=
  match s with
  | EmptyString => EmptyString
  | String c s' => (escape_char c ++ escape s')%string
  end.

Definition shown (raw : bool) (v : option json) : string :=
  match v with
  | None => ""
  | Some x => if raw then display x else escape (display x)
  end.

Definition unread : string := "Template outside the part of Handlebars read here".

(** One tag on a context. *)
Definition run_tag (raw : bool) (content : string) (context : json) : outcome string :=
  match words content with
  | [] => Thrown "Parse error"
  | name :: args =>
      if negb (is_path name) || mem name keywords then Thrown unread
      else if negb (forallb (fun a => is_path a || is_number a) args) then Thrown unread
      else
        match split "." name, args with
        | [simple], [] =>
            if (simple =? "uuid")%string then Returned (shown raw (Some (JStr fresh_uuid)))
            else if (simple =? "timestamp")%string
            then Returned (shown raw (Some (JNum now)))
            else if mem simple helpers then Thrown unread
            else Returned (shown raw (property context simple))
        | [simple], _ :: _ =>
            if mem simple helpers then Thrown unread
            else
              match property context simple with
              | Some v =>
                  if truthy v then Thrown unread
                  else Thrown ("Missing helper: " ++ Json.quote simple)%string
              | None => Thrown ("Missing helper: " ++ Json.quote simple)%string
              end
        | parts, [] => Returned (shown raw (lookup_path (Some context) parts))
        | _, _ => Thrown unread
        end
  end.

Fixpoint run (pieces : list piece) (context : json) (out : string) : outcome string :=
  match pieces with
  | [] => Returned out
  | Text s :: pieces' => run pieces' context (out ++ s)%string
  | Tag raw content :: pieces' =>
      match run_tag raw content context with
      | Returned s => run pieces' context (out ++ s)%string
      | Thrown m => Thrown m
      end
  end.

Definition render (source : string) (context : json) : outcome string :=
  match scan (list_ascii_of_string source) None "" [] with
  | Some pieces => run pieces context ""
  | None => Thrown "Parse error"
  end.

End Handlebars.

Module Route.

(** *** path-to-regexp on patterns of literal and [:name] segments

    [match(pattern)(path)]: without regard to case, with one optional
    delimiter at the end of the path.  A pattern with a modifier, a group or
    a segment that mixes a parameter with text is not read, nor is a path
    with a percent escape: the model answers [None]. *)

Definition literal_char (c : ascii) : bool :=
  Handlebars.ident_char c || (code c =? 45) || (code c =? 46) || (code c =? 126).

Definition is_param (segment : string) : bool :=
  match segment with
  | String ":" name => Handlebars.is_ident name
  | _ => false
  end%char.

Definition is_literal (segment : string) : bool :=
  forallb literal_char (list_ascii_of_string segment).

(** The segments after the leading slash. *)
Definition segments (s : string) : option (list string) :=
  match s with
  | String "/" s' => Some (Handlebars.split "/" s')
  | _ => None
  end%char.

Definition value_char (c : ascii) : bool :=
  negb ((code c =? 47) || (code c =? 35) || (code c =? 63) || (code c =? 37)).

Fixpoint match_segments (pattern path : list string) (params : obj) : option obj :=
  match pattern, path with
  | [], [] => Some params
  | p :: pattern', x :: path' =>
      if is_param p then
        match p with
        | String _ name =>
            if negb (x =? "")%string && forallb value_char (list_ascii_of_string x)
            then match_segments pattern' path' (params ++ [(name, JStr x)])
            else None
        | EmptyString => None
        end
      else if (Str.toLowerCase p =? Str.toLowerCase x)%string
      then match_segments pattern' path' params
      else None
  | _, _ => None
  end.

Definition match_exact (pattern : list string) (path : string) : option obj :=
  match segments path with
  | Some xs => match_segments pattern xs []
  | None => None
  end.

Definition drop_last_delimiter (path : string) : option string :=
  match List.rev (list_ascii_of_string path) with
  | c :: rest =>
      if (code c =? 47) || (code c =? 35) || (code c =? 63)
      then Some (string_of_list_ascii (List.rev rest))
      else None
  | [] => None
  end.

Definition route_match (pattern path : string) : option json :=
  match segments pattern with
  | Some ps =>
      if forallb (fun p => is_param p || is_literal p) ps
         && distinct (filter is_param ps)
         && forallb (fun c => negb (code c =? 37)) (list_ascii_of_string path)
      then
        match match_exact ps path with
        | Some params => Some (JObj params)
        | None =>
            match drop_last_delimiter path with
            | Some shorter =>
                match match_exact ps shorter with
                | Some params => Some (JObj params)
                | None => None
                end
            | None => None
            end
        end
      else None
  | None => None
  end.

End Route.

(** *** [new Date(s).getTime()] on the ISO-8601 forms

    [YYYY-MM-DD] and [YYYY-MM-DDTHH:MM[:SS[.f...]]] followed by [Z], by an
    offset [+HH:MM] or [-HH:MM], or by nothing; the machine's time zone is
    UTC.  The other spellings an engine accepts are not read: [None]. *)

Module Dates.

(** Days from 1970-01-01 to a date of the proleptic Gregorian calendar. *)
Definition days_from_civil (y m d : Z) : Z :=
  let y' := if m <=? 2 then y - 1 else y in
  let era := y' / 400 in
  let yoe := y' - era * 400 in
  let doy := (153 * (if 2 <? m then m - 3 else m + 9) + 2) / 5 + d - 1 in
  let doe := yoe * 365 + yoe / 4 - yoe / 100 + doy in
  era * 146097 + doe - 719468.

Definition leap (y : Z) : bool :=
  ((y mod 4 =? 0) && negb (y mod 100 =? 0)) || (y mod 400 =? 0).

Definition days_in_month (y m : Z) : Z :=
  if m =? 2 then (if leap y then 29 else 28)
  else if (m =? 4) || (m =? 6) || (m =? 9) || (m =? 11) then 30
  else 31.

(** Exactly [n] digits. *)
Fixpoint fixed (n : nat) (cs : list ascii) (acc : Z) : option (Z * list ascii) :=
  match n with
  | O => Some (acc, cs)
  | S n' =>
      match cs with
      | c :: cs' =>
          if Regex.digit c then fixed n' cs' (acc * 10 + (code c - 48)) else None
      | [] => None
      end
  end.

(** The digits of a fraction of a second, read to the millisecond. *)
Fixpoint fraction (cs : list ascii) (scale acc : Z) : Z * list ascii :=
  match cs with
  | c :: cs' =>
      if Regex.digit c
      then fraction cs' (scale / 10) (acc + (code c - 48) * scale)
      else (acc, cs)
  | [] => (acc, [])
  end.

(** The end of a date and time: the offset in minutes that is taken off. *)
Definition zone (cs : list ascii) : option Z :=
  match cs with
  | [] => Some 0
  | ["Z"%char] => Some 0
  | sign :: rest =>
      if (code sign =? 43) || (code sign =? 45) then
        match fixed 2 rest 0 with
        | Some (h, ":"%char :: rest') =>
            match fixed 2 rest' 0 with
            | Some (m, []) =>
                if (h <? 24) && (m <? 60)
                then Some (if code sign =? 43 then h * 60 + m else - (h * 60 + m))
                else None
            | _ => None
            end
        | _ => None
        end
      else None
  end.

Definition time_of_day (cs : list ascii) : option Z :=
  match fixed 2 cs 0 with
  | Some (h, ":"%char :: cs1) =>
      match fixed 2 cs1 0 with
      | Some (mi, cs2) =>
          let '(s, ms, cs4) :=
            match cs2 with
            | ":"%char :: cs3 =>
                match fixed 2 cs3 0 with
                | Some (s, "."%char :: d :: cs') =>
                    if Regex.digit d
                    then let '(ms, rest) := fraction (d :: cs') 100 0 in (s, ms, rest)
                    else (60, 0, [])
                | Some (s, rest) => (s, 0, rest)
                | None => (60, 0, [])
                end
            | _ => (0, 0, cs2)
            end in
          match zone cs4 with
          | Some offset =>
              if ((h <? 24) && (mi <? 60) && (s <? 60))
                 || ((h =? 24) && (mi =? 0) && (s =? 0) && (ms =? 0))
              then Some (((h * 60 + mi - offset) * 60 + s) * 1000 + ms)
              else None
          | None => None
          end
      | None => None
      end
  | _ => None
  end.

Definition parse (s : string) : option Z :=
  match fixed 4 (list_ascii_of_string s) 0 with
  | Some (y, "-"%char :: cs1) =>
      match fixed 2 cs1 0 with
      | Some (m, "-"%char :: cs2) =>
          match fixed 2 cs2 0 with
          | Some (d, rest) =>
              if (1 <=? m) && (m <=? 12) && (1 <=? d) && (d <=? days_in_month y m)
              then
                let day := days_from_civil y m d * 86400000 in
                match rest with
                | [] => Some day
                | "T"%char :: cs3 =>
                    match time_of_day cs3 with
                    | Some t => Some (day + t)
                    | None => None
                    end
                | _ => None
                end
              else None
          | None => None
          end
      | _ => None
      end
  | _ => None
  end.

End Dates.

(** *** [Number(s)] when the result is an integer

    Blank strings are 0, decimal digits with an optional sign and the
    prefixes [0x], [0o], [0b] are read; a string with a fraction or an
    exponent, or [Infinity], has no image among the integers and is
    answered like a string that is no number: [None]. *)

Module Numbers.

Definition trim (cs : list ascii) : list ascii :=
  List.rev (Json.skip_ws (List.rev (Json.skip_ws cs))).

Fixpoint in_base (base : Z) (cs : list ascii) (acc : Z) : option Z :=
  match cs with
  | [] => Some acc
  | c :: cs' =>
      match Json.hex_value c with
      | Some d => if d <? base then in_base base cs' (acc * base + d) else None
      | None => None
      end
  end.

Definition nonempty (base : Z) (cs : list ascii) : option Z :=
  match cs with
  | [] => None
  | _ => in_base base cs 0
  end.

Definition number_of (s : string) : option Z :=
  match trim (list_ascii_of_string s) with
  | [] => Some 0
  | "0"%char :: "x"%char :: cs | "0"%char :: "X"%char :: cs => nonempty 16 cs
  | "0"%char :: "o"%char :: cs | "0"%char :: "O"%char :: cs => nonempty 8 cs
  | "0"%char :: "b"%char :: cs | "0"%char :: "B"%char :: cs => nonempty 2 cs
  | "+"%char :: cs => nonempty 10 cs
  | "-"%char :: cs => option_map Z.opp (nonempty 10 cs)
  | cs => nonempty 10 cs
  end.

End Numbers.

(** *** [a.localeCompare(b)] on letters and digits

    The root collation on strings of ASCII letters and digits: digits
    before letters, letters without regard to case, and at the first
    difference of case alone the lower case first.  Other characters are
    placed before the digits in the order of their codes, which is not the
    order of the collation. *)

Module Collation.

(** The rank of a character: what is neither letter nor digit first,
    then the digits, then the letters, both cases of a letter together. *)
Definition primary (c : ascii) : ascii :=
  let n := code c in
  if n <? 48 then c
  else if n <? 58 then char_of (n + 18)
  else if n <? 65 then char_of (n - 10)
  else if n <? 91 then char_of (n + 11)
  else if n <? 97 then char_of (n - 36)
  else if n <? 123 then char_of (n - 21)
  else if n <? 128 then char_of (n - 62)
  else char_of (n - 26).

Definition swap_case (c : ascii) : ascii :=
  if Str.is_upper c then Str.lower_char c
  else if Str.is_lower c then Str.upper_char c
  else c.

Fixpoint map_string (f : ascii -> ascii) (s : string) : string :=
  match s with
  | EmptyString => EmptyString
  | String c s' => String (f c) (map_string f s')
  end.

Definition compare (a b : string) : Z :=
  let p := code_unit_cmp (map_string primary a) (map_string primary b) in
  if p =? 0 then code_unit_cmp (map_string swap_case a) (map_string swap_case b)
  else p.

End Collation.

(** *** [isUUID.anyNonNil(s)]

    The digits in five groups, of any version, the variant digit among 8,
    9, a and b. *)

Definition variant_digit (c : ascii) : bool :=
  let n := code c in
  (n =? 56) || (n =? 57) || (n =? 97) || (n =? 98) || (n =? 65) || (n =? 66).

Definition any_uuid : Regex.re :=
  Regex.seq (Regex.times 8 (Regex.chr Regex.hex)) (Regex.seq (Regex.lit "-")
  (Regex.seq (Regex.times 4 (Regex.chr Regex.hex)) (Regex.seq (Regex.lit "-")
  (Regex.seq (Regex.times 4 (Regex.chr Regex.hex)) (Regex.seq (Regex.lit "-")
  (Regex.seq (Regex.chr variant_digit) (Regex.seq (Regex.times 3 (Regex.chr Regex.hex))
  (Regex.seq (Regex.lit "-") (Regex.times 12 (Regex.chr Regex.hex)))))))))).

Definition runtime : Runtime := {|
  JSON_parse := Json.parse;
  JSON_stringify := Json.stringify;
  sha256_hex := Sha256.sha256;
  Date_now := now;
  Date_parse := Dates.parse;
  Number_of := Numbers.number_of;
  localeCompare := Collation.compare;
  isUUID_anyNonNil := Regex.test any_uuid;
  handlebars := Handlebars.render;
  axios := fun _ _ => Thrown "connect ECONNREFUSED";
  path_match := Route.route_match;
  uuidv4 := fresh_uuid;
  random_below_1000 := 7
|}.

End TestRuntime.

(** ** The verdict of the differ *)

(** The incompatibilities that [typeChanged] keeps. *)
Definition is_type_change (e : incompatible_entry) : bool :=
  Str.includes (i_reason e) "Type changed".




(** What the accumulators of the differ satisfy at every step: the
    incompatibilities that are not type changes are as many as the
    removals. *)
Definition removals_counted (a : Base.acc) : Prop :=
  List.length (filter (fun e => negb (is_type_change e)) (Base.acc_incompatible a))
  = List.length (Base.acc_removed a).

(** Additions: a new property or a new array element, not at the root. *)
Definition is_addition (d : diff) : bool :=
  match d with
  | DiffNew (_ :: _) _ | DiffArray (_ :: _) _ (ItemN _) => true
  | _ => false
  end.

(** A header that [normalizeHeaders] keeps. *)
Definition kept_header (opts : options) (k : string) : bool :=
  negb (existsb (String.eqb (Str.toLowerCase k)) (ignoreHeaders opts)).

(** A response with the given status, headers and body. *)
Definition mkResponse (status : Z) (headers : option obj) (body : option json)
  : response :=
  {| statusCode := status; res_headers := headers; res_body := body;
     replayError := false |}.

(** The header names of a response, as sent. *)
Definition header_names (r : response) : list string :=
  keys (Base.or_empty (res_headers r)).

(** ** The replay loop *)

(** The three kinds of entries of [interactionResults]. *)
Definition is_compatible_result (r : interactionResult) : bool :=
  match r with
  | Compared _ _ _ c => isCompatible c
  | Errored _ _ => false
  end.

Definition is_incompatible_result (r : interactionResult) : bool :=
  match r with
  | Compared _ _ _ c => negb (isCompatible c)
  | Errored _ _ => false
  end.

Definition is_error_result (r : interactionResult) : bool :=
  match r with
  | Compared _ _ _ _ => false
  | Errored _ _ => true
  end.

(** The loop invariant: each counter is the number of results of its kind. *)
Definition counted (st : list interactionResult * Replay.counters) : Prop :=
  Replay.n_total (snd st) = len (fst st)
  /\ Replay.n_compatible (snd st) = len (filter is_compatible_result (fst st))
  /\ Replay.n_incompatible (snd st) = len (filter is_incompatible_result (fst st))
  /\ Replay.n_errors (snd st) = len (filter is_error_result (fst st)).

(** ** The request hash *)

(** The comparison [normalizeForHashing] sorts the entries with, and the
    order it leaves them in. *)
Definition by_key {V : Type} (p q : string * V) : Z := code_unit_cmp (fst p) (fst q).

Definition key_le {V : Type} (p q : string * V) : Prop := String.leb (fst p) (fst q) = true.

(** Two trees that differ only in the order of the keys of their objects,
    at any depth. *)
Inductive key_reorder : json -> json -> Prop :=
| reorder_refl v : key_reorder v v
| reorder_arr l1 l2 :
    Forall2 key_reorder l1 l2 -> key_reorder (JArr l1) (JArr l2)
| reorder_obj o1 o2 o2' :
    Forall2 (fun p q => fst p = fst q /\ key_reorder (snd p) (snd q)) o1 o2' ->
    Permutation o2' o2 ->
    key_reorder (JObj o1) (JObj o2).

(** The same for a query or a body that may be missing. *)
Definition reorder_opt (a b : option json) : Prop :=
  match a, b with
  | Some x, Some y => key_reorder x y
  | None, None => True
  | _, _ => False
  end.

(** Two requests with the same method and path, whose queries and bodies
    differ at most in the order of their keys. *)
Definition same_hashed_parts (r1 r2 : request) : Prop :=
  req_method r1 = req_method r2
  /\ req_path r1 = req_path r2
  /\ reorder_opt (req_query r1) (req_query r2)
  /\ reorder_opt (req_body r1) (req_body r2).

(** An order as a client sends it. *)
Definition order_request : request := {|
  req_method := "POST";
  req_path := "/api/orders";
  req_query := Some (JObj [("page", JStr "1"); ("sort", JStr "asc")]);
  req_headers := [("authorization", JStr "Bearer abc"); ("x-request-id", JStr "1")];
  req_body := Some (JObj [("productId", JNum 1); ("quantity", JNum 2)]);
  req_params := None
|}.

(** The same request with other headers and its query and body keys in
    another order. *)
Definition order_request_reordered : request := {|
  req_method := "POST";
  req_path := "/api/orders";
  req_query := Some (JObj [("sort", JStr "asc"); ("page", JStr "1")]);
  req_headers := [("user-agent", JStr "curl")];
  req_body := Some (JObj [("quantity", JNum 2); ("productId", JNum 1)]);
  req_params := None
|}.

(** ** The tolerant comparison *)

(** What [normalizeForComparison] writes for one property of an object
    found at [path]. *)
Definition normalize_entry `{RT : Runtime} (opts : options) (tol : tolerances)
  (path : string) (kv : string * json) : string * json :=
  let key := fst kv in
  let value := snd kv in
  let fullPath := if (path =? "")%string then key else (path ++ "." ++ key)%string in
  if ignoreUUIDs tol && Tolerant.isLikelyUUID tol key value
     && negb (Base.shouldIgnoreField opts fullPath)
  then (key, JStr "[UUID]")
  else (key, Tolerant.normalizeForComparison opts tol fullPath value).

(** Arrays and objects. *)
Definition is_container (v : json) : bool :=
  match v with
  | JArr _ | JObj _ => true
  | _ => false
  end.

Section Pairwise.
Context {A B : Type}.
Variable f : A -> B -> bool.


End Pairwise.


(** Two identifiers of one resource, one per run. *)
Definition recorded_uuid : string := "550e8400-e29b-41d4-a716-446655440000".

Definition replayed_uuid : string := "123e4567-e89b-12d3-a456-426614174000".



(** When deep-diff reports an edit for two values: their [realTypeOf]
    differ, or they are two different primitives of one type. *)
Definition leaf_edit (l r : json) : bool :=
  negb (realTypeOf l =? realTypeOf r)%string
  || (negb (is_container l) && negb (strict_eq l r)).

(** An instant written as an ISO-8601 string in the recording and as
    epoch milliseconds in the replay. *)
Definition created_as_string : json :=
  JObj [("createdAt", JStr "2023-01-01T12:00:00Z")].

Definition created_as_number : json :=
  JObj [("createdAt", JNum 1672574400000)].

(** A description that is a string in the recording and an object in the
    replay, and the incompatibility the differ lists for it. *)
Definition description_original : response :=
  mkResponse 200 (Some []) (Some (JObj [("id", JNum 1); ("description", JStr "x")])).

Definition description_replayed : response :=
  mkResponse 200 (Some [])
    (Some (JObj [("id", JNum 1); ("description", JObj [("short", JStr "x")])])).


(** ** The replay of the tolerant verifier *)


(** A session of one interaction, answered 200. *)
Definition status_only_session : list interaction :=
  [{| i_timestamp := "2023-01-01T12:00:00Z"; i_requestHash := "";
      i_request := order_request;
      i_response := mkResponse 200 (Some []) (Some (JObj [("ok", JBool true)])) |}].

(** The new version answers 500 with the same body. *)
Definition answers_500 (_ : request) : outcome response :=
  Returned (mkResponse 500 (Some []) (Some (JObj [("ok", JBool true)]))).

(** A session of one interaction whose body holds an instant. *)
Definition same_instant_session : list interaction :=
  [{| i_timestamp := "2023-01-01T12:00:00Z"; i_requestHash := "";
      i_request := order_request;
      i_response :=
        mkResponse 200 (Some [])
          (Some (JObj [("created", JStr "2023-01-01T12:00:00Z")])) |}].

(** The new version writes the same instant with milliseconds. *)
Definition answers_with_millis (_ : request) : outcome response :=
  Returned (mkResponse 200 (Some [])
              (Some (JObj [("created", JStr "2023-01-01T12:00:00.000Z")]))).

(** ** Redaction *)

(** Every field whose key is sensitive holds the redaction marker, at any
    depth (decided). *)
Fixpoint all_redacted (sensitive : string -> bool) (v : json) : bool :=
  match v with
  | JObj o =>
      forallb
        (fun kv =>
           if sensitive (fst kv) then strict_eq (snd kv) REDACTED
           else all_redacted sensitive (snd kv))
        o
  | JArr l =>
      forallb (fun b => b)
        (mapi_from
           (fun i x =>
              if sensitive (Str.of_nat i) then strict_eq x REDACTED
              else all_redacted sensitive x)
           O l)
  | _ => true
  end.

(** The value found by following property names and array indices. *)
Fixpoint get_path (p : list seg) (v : json) : option json :=
  match p with
  | [] => Some v
  | Key k :: p' =>
      match v with
      | JObj o =>
          match obj_get k o with
          | Some x => get_path p' x
          | None => None
          end
      | _ => None
      end
  | Idx i :: p' =>
      match v with
      | JArr l =>
          match nth_error l i with
          | Some x => get_path p' x
          | None => None
          end
      | _ => None
      end
  end.

(** The loop over [sensitiveHeaders], from any copy of the headers. *)
Definition redact_headers (hs : list string) (acc : obj) : obj :=
  fold_left
    (fun filteredHeaders header =>
       if truthy_opt (obj_get header filteredHeaders)
       then obj_set header REDACTED filteredHeaders
       else filteredHeaders)
    hs acc.

(** A path segment whose name is a sensitive key. *)
Definition seg_sensitive (ropts : recorder_options) (s : seg) : bool :=
  Recorder.sensitive ropts (seg_string s).

(** A login request with a credential in a header and two in the body. *)
Definition login_request : request := {|
  req_method := "POST";
  req_path := "/api/login";
  req_query := None;
  req_headers := [("authorization", JStr "Bearer abc"); ("accept", JStr "*/*")];
  req_body :=
    Some (JObj [("user", JStr "ann");
                ("Password", JStr "hunter2");
                ("profile", JObj [("apiKey", JStr "k-1"); ("city", JStr "Oslo")])]);
  req_params := None
|}.

(** ** Templates *)

(** No placeholder in any string value, at any depth. *)
Fixpoint placeholder_free (v : json) : bool :=
  match v with
  | JStr s => negb (Str.includes s "{{")
  | JArr l => forallb placeholder_free l
  | JObj o => forallb (fun kv => placeholder_free (snd kv)) o
  | _ => true
  end.

(** No array at any depth. *)
Fixpoint array_free (v : json) : bool :=
  match v with
  | JArr _ => false
  | JObj o => forallb (fun kv => array_free (snd kv)) o
  | _ => true
  end.


(** A constant template that holds an array. *)
Definition tags_template : json :=
  JObj [("status", JStr "ok"); ("tags", JArr [JStr "a"; JStr "b"])].




(** A route whose template calls a helper nobody registered. *)
Definition missing_helper_route : Template.route :=
  {| Template.pattern := "/users/1";
     Template.template :=
       Template.ObjectFn [("id", Template.HandlebarsFn "{{missing 1}}")];
     Template.method := "GET";
     Template.rt_statusCode := 200;
     Template.rt_headers := [] |}.

(** A resolver that holds this route only. *)
Definition missing_helper_resolver : Template.resolver :=
  {| Template.defaultContext := [];
     Template.routeTemplates := [missing_helper_route];
     Template.contextBuilders := [] |}.

(** The request the route answers, and a session that holds it. *)
Definition get_user : request :=
  {| req_method := "GET"; req_path := "/users/1"; req_query := None;
     req_headers := []; req_body := None; req_params := None |}.

Definition missing_helper_interaction : interaction :=
  {| i_timestamp := "2023-01-01T12:00:00Z"; i_requestHash := "h";
     i_request := get_user;
     i_response := mkResponse 200 (Some []) (Some (JObj [("id", JStr "1")])) |}.

Definition missing_helper_session : list interaction := [missing_helper_interaction].




(** ** Thresholds and batches *)

(** What [batchVerify] appends for one session id. *)
Definition entry_of (replayRequest : request -> outcome response)
  (compareResponses : response -> response -> outcome comparison)
  (generateDiffReport : string -> results -> outcome string)
  (originalSessions : list (string * list interaction))
  (verifyOpts : verifyOptions) (sessionId : string) : batchEntry :=
  match Verify.verifyCompatibility replayRequest compareResponses generateDiffReport
          originalSessions sessionId
          {| threshold := threshold verifyOpts;
             generateReport := generateReport verifyOpts;
             printSummary := false |} with
  | Returned result => Verified result
  | Thrown msg => Failed sessionId msg
  end.

(** The entries counted as passed. *)
Definition is_passed (e : batchEntry) : bool :=
  match e with
  | Verified v => v_meetsThreshold v
  | Failed _ _ => false
  end.

(** ** Orders *)

(** [x] goes before [y] for a comparison function of [sort]. *)
Definition cmp_le {A : Type} (cmp : A -> A -> Z) (x y : A) : Prop := cmp x y <= 0.

(** A string value. *)
Definition is_string (v : json) : bool :=
  match v with
  | JStr _ => true
  | _ => false
  end.

(** ** Counting differences *)

(** A difference the callback skips because its path is ignored. *)
Definition ignored_diff (opts : options) (d : diff) : bool :=
  match path_join (diff_path d) with
  | Returned p => Base.shouldIgnoreField opts p
  | Thrown _ => false
  end.

(** The entries of the three lists that [total] adds up. *)
Definition counted_entries (a : Base.acc) : Z :=
  len (Base.acc_added a) + len (Base.acc_removed a) + len (Base.acc_modified a).

(** A value that [isLikelyTimestamp] accepts whatever the name of its
    field: a string of the ISO form, or a number of milliseconds between
    2000 and now. *)
Definition timestamp_like `{RT : Runtime} (v : json) : bool :=
  match v with
  | JStr s => Regex.test Regex.isoDatePattern s
  | JNum n => (946684800000 <? n) && (n <=? Date_now)
  | _ => false
  end.

(** No such value at any depth. *)
Fixpoint timestamp_free `{RT : Runtime} (v : json) : bool :=
  match v with
  | JArr l => forallb timestamp_free l
  | JObj o => forallb (fun kv => timestamp_free (snd kv)) o
  | _ => negb (timestamp_like v)
  end.

(** A difference no tolerance rule can accept when no field name marks a
    timestamp and UUIDs are not ignored: not an edit, or an edit between
    two values that are not strictly equal and do not both look like
    timestamps. *)
Definition plain_difference `{RT : Runtime} (d : diff) : Prop :=
  match d with
  | DiffEdit _ x y =>
      strict_eq x y = false /\ timestamp_like x = false /\ timestamp_like y = false
  | DiffArray _ _ (ItemE _ _) => False
  | _ => True
  end.

(** One call of [recordInteraction]: the clock reading, the duration the
    hook measured, the request and the response. *)
Record recorderCall : Type := {
  call_at : string;
  call_duration : option Z;
  call_req : request;
  call_res : response
}.

(** The calls made one after the other. *)
Definition record_all `{RT : Runtime} (ropts : recorder_options)
  (r : sessionRecorder) (calls : list recorderCall) : sessionRecorder :=
  fold_left
    (fun r c =>
       snd (SessionRecorder.recordInteraction ropts r (call_at c) (call_duration c)
              (call_req c) (call_res c)))
    calls r.

Definition interaction_of_call `{RT : Runtime} (ropts : recorder_options)
  (c : recorderCall) : recordedInteraction :=
  SessionRecorder.interaction_of ropts (call_at c) (call_duration c)
    (call_req c) (call_res c).

(** A body the recorder stores as it arrives: none, or a truthy one that
    is recorded and that sanitising leaves alone. *)
Definition body_as_recorded `{RT : Runtime} (ropts : recorder_options)
  (b : option json) : Prop :=
  match b with
  | None => True
  | Some v =>
      includeBody ropts = true /\ truthy v = true
      /\ Recorder.sanitizeData ropts v = v
  end.

(** The tags of a session, none when it has no metadata or no tag list. *)
Definition tags_of (s : session) : list string :=
  match sess_metadata s with
  | Some m => match md_tags m with Some t => t | None => [] end
  | None => []
  end.

(** A session with the given id is among the stopped ones or is the
    current one. *)
Definition known_session (r : sessionRecorder) (sessionId : string) : bool :=
  existsb (fun s => (sess_id s =? sessionId)%string) (sr_sessions r)
  || match sr_currentSession r with
     | Some s => (sess_id s =? sessionId)%string
     | None => false
     end.

(** What a caller does to a cached resolver: a lookup or a registration
    (one that throws leaves the resolver as it was). *)
Inductive resolverCall : Type :=
| LookupCall (rq : request)
| RegisterCall (routePattern : string) (template : json) (options : templateOptions).

Definition after_call `{RT : Runtime} (pathToRegexp : string -> option string)
  (r : cachedResolver) (c : resolverCall) : cachedResolver :=
  match c with
  | LookupCall rq => snd (CachedResolver.findMatchingTemplate r rq)
  | RegisterCall routePattern template options =>
      match CachedResolver.registerTemplate pathToRegexp r routePattern template options with
      | Returned r' => r'
      | Thrown _ => r
      end
  end.

Definition after_calls `{RT : Runtime} (pathToRegexp : string -> option string)
  (r : cachedResolver) (calls : list resolverCall) : cachedResolver :=
  fold_left (after_call pathToRegexp) calls r.


(** [get_user] with its method in lower case. *)
Definition get_user_lower : request :=
  {| req_method := "get"; req_path := req_path get_user; req_query := None;
     req_headers := []; req_body := None; req_params := None |}.

(** A cached resolver that looked up [get_user] before a route for its
    path was registered. *)
Definition resolver_after_miss : cachedResolver :=
  after_calls (RT := TestRuntime.runtime) (fun _ => None)
    (snd (CachedResolver.findMatchingTemplate (RT := TestRuntime.runtime)
            (CachedResolver.new_resolver (RT := TestRuntime.runtime) []) get_user))
    [RegisterCall (req_path get_user) (JObj [("ok", JBool true)]) no_templateOptions].

(** No object of the tree has a property with the empty name. *)
Fixpoint no_empty_key (v : json) : bool :=
  match v with
  | JArr l => forallb no_empty_key l
  | JObj o =>
      forallb (fun kv => negb (fst kv =? "")%string && no_empty_key (snd kv)) o
  | _ => true
  end.

(** A criterion of a filter: absent or empty it lets everything pass,
    otherwise one of its entries has to be accepted. *)
Definition passes (criterion : option (list string)) (accepts : string -> bool) : bool :=
  match criterion with
  | None | Some [] => true
  | Some l => existsb accepts l
  end.

Definition has_tag (tags : option (list string)) (t : string) : bool :=
  existsb (String.eqb t) (Filter.items tags).

(** The interactions a filter selects: the method is one of [methods]
    whatever the case, the path contains one of [routes], and one of [tags]
    is a tag of the interaction. *)
Definition selected (f : filterCriteria) (i : filterable) : bool :=
  passes (f_methods f)
    (fun m => (Str.toUpperCase (req_method (fi_request i)) =? Str.toUpperCase m)%string)
  && passes (f_routes f) (fun p => Str.includes (req_path (fi_request i)) p)
  && passes (f_tags f) (has_tag (fi_tags i)).

(** No route of the filter is a wildcard pattern (a leading slash and a
    star). *)
Definition plain_routes (f : filterCriteria) : bool :=
  forallb (fun p => negb (Str.startsWith p "/" && Str.includes p "*"))
    (Filter.items (f_routes f)).

(** A filter on the method and the path, and a session of two
    interactions. *)
Definition users_filter : filterCriteria :=
  {| f_methods := Some ["get"]; f_routes := Some ["/users"];
     f_tags := None; f_sessionTags := Some [] |}.

Definition two_call_session : filterableSession :=
  {| fs_tags := None;
     fs_interactions :=
       [{| fi_request := order_request; fi_tags := Some ["smoke"] |};
        {| fi_request := get_user; fi_tags := None |}];
     fs_filtered := None |}.

(** The polynomial of the code units in base 31, first unit highest. *)
Definition poly31 (codes : list Z) : Z := fold_left (fun h c => 31 * h + c) codes 0.

(** * Properties *)

(** ** Induction over JSON values *)

(** Induction with the hypothesis for every element of an array and every
    value of an object. *)
Lemma json_ind' (P : json -> Prop) :
  P JNull -> (forall b, P (JBool b)) -> (forall n, P (JNum n)) ->
  (forall s, P (JStr s)) ->
  (forall l, Forall P l -> P (JArr l)) ->
  (forall o, Forall (fun kv => P (snd kv)) o -> P (JObj o)) ->
  forall j, P j.
Proof.
  intros hn hb hz hs ha ho.
  apply (json_rect' P (Forall P) (Forall (fun kv => P (snd kv)))); auto.
Qed.

(** ** Patterns, paths and deep-diff on examples *)

Example iso_plain : Regex.test Regex.isoDatePattern "2023-01-01T12:00:00Z" = true.
Proof. reflexivity. Qed.

Example iso_millis : Regex.test Regex.isoDatePattern "2023-01-01T12:00:00.000Z" = true.
Proof. reflexivity. Qed.

Example iso_not : Regex.test Regex.isoDatePattern "2023-01-01" = false.
Proof. reflexivity. Qed.

Example uuid_hyphens :
  Regex.test Regex.uuidPattern "550e8400-e29b-41d4-a716-446655440000" = true.
Proof. reflexivity. Qed.

Example uuid_not : Regex.test Regex.uuidPattern "x" = false.
Proof. reflexivity. Qed.

Example last_segment_ex : Str.last_segment "order.createdAt" = "createdAt".
Proof. reflexivity. Qed.

Example of_nat_ex : Str.of_nat 10 = "10" /\ Str.of_nat 0 = "0".
Proof. split; reflexivity. Qed.

Example diff_added_and_removed :
  diff_of
    (JObj [("products", JArr [JObj [("id", JNum 1)]]); ("count", JNum 1)])
    (JObj [("products", JArr [JObj [("id", JNum 1); ("inStock", JBool true)]])])
  = [DiffNew [Key "products"; Idx 0; Key "inStock"] (JBool true);
     DiffDeleted [Key "count"] (JNum 1)].
Proof. reflexivity. Qed.

Example diff_root_arrays :
  diff_of (JArr [JNum 1]) (JArr [JNum 1; JNum 2])
  = [DiffArray [] 1 (ItemN (JNum 2))].
Proof. reflexivity. Qed.

(** ** The runtime of the examples on known values *)

(** SHA-256 on the test vectors of FIPS 180-4: the empty message, one
    block, and a message whose padding needs a second block. *)
Example sha256_test_vectors :
  TestRuntime.Sha256.sha256 ""
  = "e3b0c44298fc1c149afbf4c8996fb92427ae41e4649b934ca495991b7852b855"
  /\ TestRuntime.Sha256.sha256 "abc"
     = "ba7816bf8f01cfea414140de5dae2223b00361a396177a9cb410ff61f20015ad"
  /\ TestRuntime.Sha256.sha256
       "abcdbcdecdefdefgefghfghighijhijkijkljklmklmnlmnomnopnopq"
     = "248d6a61d20638b8e5c026930c3e6039a33ce45964ff2167f6ecedd419db06c1".
Proof. vm_compute. repeat split. Qed.

(** [JSON.stringify] writes no space and keeps the order of the keys;
    [JSON.parse] reads it back. *)
Example json_round_trip :
  let q := TestRuntime.one TestRuntime.dquote in
  let v := JObj [("id", JNum 7); ("tags", JArr [JStr "a"; JNull; JBool true]);
                 ("price", JNum (-3))] in
  TestRuntime.Json.stringify v
  = ("{" ++ q ++ "id" ++ q ++ ":7," ++ q ++ "tags" ++ q ++ ":[" ++ q ++ "a" ++ q
         ++ ",null,true]," ++ q ++ "price" ++ q ++ ":-3}")%string
  /\ TestRuntime.Json.parse (TestRuntime.Json.stringify v) = Some v
  /\ TestRuntime.Json.parse "{not json" = None.
Proof. vm_compute. repeat split. Qed.

(** Handlebars: a path is looked up in the context and its value escaped,
    a name that nothing resolves renders as the empty string, and a call
    of a helper nobody registered raises. *)
Example handlebars_on_paths :
  let context :=
    JObj [("request", JObj [("params", JObj [("id", JStr "42")])]);
          ("name", JStr "R&D")] in
  TestRuntime.Handlebars.render "user {{request.params.id}} of {{name}}" context
  = Returned "user 42 of R&amp;D"
  /\ TestRuntime.Handlebars.render "user {{{name}}}" context = Returned "user R&D"
  /\ TestRuntime.Handlebars.render "user {{nickname}}." context = Returned "user ."
  /\ TestRuntime.Handlebars.render "{{request.body.id}}" context = Returned ""
  /\ TestRuntime.Handlebars.render "{{missing 1}}" context
     = Thrown ("Missing helper: " ++ TestRuntime.Json.quote "missing")%string.
Proof. vm_compute. repeat split. Qed.

(** path-to-regexp: a parameter takes one segment, letter case and one
    trailing slash are ignored. *)
Example route_match_on_paths :
  TestRuntime.Route.route_match "/users/:id" "/users/42"
  = Some (JObj [("id", JStr "42")])
  /\ TestRuntime.Route.route_match "/users/:id" "/USERS/42/"
     = Some (JObj [("id", JStr "42")])
  /\ TestRuntime.Route.route_match "/users/:id" "/users/42/orders" = None
  /\ TestRuntime.Route.route_match "/users/:id" "/users/" = None.
Proof. vm_compute. repeat split. Qed.

(** [Date.parse] on ISO-8601 forms, [Number] on integers, and the order of
    [localeCompare]: letters after digits, a lower-case letter before its
    capital. *)
Example dates_numbers_and_order :
  TestRuntime.Dates.parse "2023-01-01T12:00:00.000Z" = Some 1672574400000
  /\ TestRuntime.Dates.parse "2023-01-01T13:00:00+01:00" = Some 1672574400000
  /\ TestRuntime.Dates.parse "2023-01-01" = Some 1672531200000
  /\ TestRuntime.Dates.parse "yesterday" = None
  /\ TestRuntime.Numbers.number_of " 42 " = Some 42
  /\ TestRuntime.Numbers.number_of "4x" = None
  /\ TestRuntime.Collation.compare "a" "B" = -1
  /\ TestRuntime.Collation.compare "a" "A" = -1
  /\ TestRuntime.Collation.compare "9" "a" = -1.
Proof. vm_compute. repeat split. Qed.

(** ** Lists, keys and objects *)

Section BasicFacts.

Lemma existsb_eqb_In (k : string) (ks : list string) :
  existsb (String.eqb k) ks = true <-> In k ks.
Proof.
  rewrite existsb_exists. split.
  - intros [x [Hin Heq]]. apply String.eqb_eq in Heq. now subst.
  - intros Hin. exists k. split; [assumption | apply String.eqb_refl].
Qed.

Lemma distinct_NoDup (ks : list string) : distinct ks = true <-> NoDup ks.
Proof.
  induction ks as [|k ks IH]; simpl.
  - split; [constructor | reflexivity].
  - rewrite andb_true_iff, negb_true_iff, IH. split.
    + intros [Hn Hd]. constructor; [|assumption].
      intro Hin. apply existsb_eqb_In in Hin. congruence.
    + intros H. inversion H as [|? ? Hn Hd]; subst. split; [|assumption].
      destruct (existsb (String.eqb k) ks) eqn:E; [|reflexivity].
      apply existsb_eqb_In in E. contradiction.
Qed.

Lemma obj_get_In (o : obj) (k : string) (x : json) :
  distinct (keys o) = true -> In (k, x) o -> obj_get k o = Some x.
Proof.
  induction o as [|[k' x'] o IH]; simpl; [contradiction|].
  rewrite andb_true_iff, negb_true_iff. intros [Hn Hd] [Heq | Hin].
  - inversion Heq; subst. now rewrite String.eqb_refl.
  - destruct (String.eqb_spec k k') as [->|Hne]; [|auto].
    exfalso. assert (In k' (keys o)) by (apply (in_map fst _ _ Hin)).
    apply existsb_eqb_In in H. congruence.
Qed.

Lemma obj_get_app_l (o1 o2 : obj) (k : string) (x : json) :
  obj_get k o1 = Some x -> obj_get k (o1 ++ o2) = Some x.
Proof.
  induction o1 as [|[k' x'] o1 IH]; simpl; [discriminate|].
  destruct (k =? k')%string; auto.
Qed.

Lemma strict_eq_refl_prim (v : json) :
  DeepDiff.realTypeOf v <> "array" -> DeepDiff.realTypeOf v <> "object" ->
  strict_eq v v = true.
Proof.
  destruct v; simpl; intros; try reflexivity; try congruence.
  - apply Bool.eqb_reflx.
  - apply Z.eqb_refl.
  - apply String.eqb_refl.
Qed.

Lemma NoDup_app_disjoint {A : Type} (l1 l2 : list A) :
  NoDup (l1 ++ l2) -> forall a, In a l1 -> ~ In a l2.
Proof.
  induction l1 as [|x l1 IH]; simpl; intros H a; [contradiction|].
  inversion H as [|? ? Hn Hd]; subst. intros [<- | Hin] Hin2.
  - apply Hn, in_or_app. now right.
  - exact (IH Hd a Hin Hin2).
Qed.

Lemma keys_app {V : Type} (o1 o2 : list (string * V)) : keys (o1 ++ o2) = keys o1 ++ keys o2.
Proof. unfold keys. apply map_app. Qed.

Lemma fold_set_append {V : Type} (l acc : list (string * V)) :
  NoDup (keys acc ++ keys l) ->
  fold_left (fun acc kv => obj_set (fst kv) (snd kv) acc) l acc = acc ++ l.
Proof.
  revert acc. induction l as [|[k v] l IH]; intros acc H; simpl.
  - now rewrite app_nil_r.
  - assert (E : obj_set k v acc = acc ++ [(k, v)]).
    { assert (Hk : ~ In k (keys acc)).
      { intro Hin. simpl in H. apply NoDup_remove_2 in H. apply H, in_or_app. now left. }
      clear H IH. induction acc as [|[k0 v0] acc IHa]; simpl; [reflexivity|].
      destruct (String.eqb_spec k k0) as [->|Hne]; [exfalso; apply Hk; now left|].
      f_equal. apply IHa. intro Hin. apply Hk. now right. }
    rewrite E, IH.
    + now rewrite <- app_assoc.
    + rewrite keys_app. simpl. now rewrite <- app_assoc.
Qed.

(** Copying an object with distinct keys gives the object. *)
Lemma assign_all_id {V : Type} (o : list (string * V)) : distinct (keys o) = true -> assign_all o = o.
Proof.
  intros H. unfold assign_all. rewrite fold_set_append; [reflexivity|].
  simpl. now apply distinct_NoDup.
Qed.

End BasicFacts.

Section DeepDiffFacts.

Lemma realTypeOf_same (v : json) :
  negb (realTypeOf v =? realTypeOf v)%string = false.
Proof. now rewrite String.eqb_refl. Qed.

Lemma skipn_length_self {A : Type} (l : list A) : skipn (List.length l) l = [].
Proof. induction l; simpl; auto. Qed.

Lemma common_elems_nil (rec : list seg -> json -> json -> list diff) (l : list json) :
  Forall (fun x => forall path, rec path x x = []) l ->
  forall path i, common_elems rec path i l l = [].
Proof.
  induction 1 as [|x l Hx Hl IH]; intros path i; simpl; [reflexivity|].
  now rewrite IH, Hx.
Qed.

Lemma lhs_props_nil (rec : list seg -> json -> json -> list diff) (r l : obj) :
  Forall (fun kv => forall path, rec path (snd kv) (snd kv) = []) l ->
  (forall kv, In kv l -> obj_get (fst kv) r = Some (snd kv)) ->
  forall path, lhs_props rec path r l = [].
Proof.
  induction 1 as [|kv l Hx Hl IH]; intros Hget path; simpl; [reflexivity|].
  rewrite (Hget kv (or_introl eq_refl)), Hx. simpl.
  apply IH. intros kv' Hin. apply Hget. now right.
Qed.

Lemma rhs_only_known (path : list seg) (l r : obj) :
  (forall kv, In kv r -> In (fst kv) (keys l)) -> rhs_only path l r = [].
Proof.
  unfold rhs_only. induction r as [|kv r IH]; intros Hin; simpl; [reflexivity|].
  assert (E : existsb (String.eqb (fst kv)) (keys l) = true)
    by (apply existsb_eqb_In, Hin; now left).
  rewrite E. simpl. apply IH. intros kv' H'. apply Hin. now right.
Qed.

Lemma wf_arr (l : list json) : wf_json (JArr l) <-> Forall wf_json l.
Proof. unfold wf_json. simpl. now rewrite forallb_forall, Forall_forall. Qed.

Lemma wf_obj (o : obj) :
  wf_json (JObj o) <->
  distinct (keys o) = true /\ Forall (fun kv => wf_json (snd kv)) o.
Proof.
  unfold wf_json. simpl. now rewrite andb_true_iff, forallb_forall, Forall_forall.
Qed.

(** Diffing a well-formed tree against itself finds nothing. *)
Lemma deepDiff_refl (v : json) :
  wf_json v -> forall path, deepDiff path v v = [].
Proof.
  induction v as [| b | n | s | l IH | o IH] using json_ind'; intros Hwf path.
  - reflexivity.
  - simpl. now rewrite Bool.eqb_reflx.
  - simpl. now rewrite Z.eqb_refl.
  - simpl. now rewrite String.eqb_refl.
  - simpl. rewrite skipn_length_self. simpl.
    apply common_elems_nil. apply wf_arr in Hwf.
    rewrite Forall_forall in *. intros x Hin. apply IH; auto.
  - simpl. apply wf_obj in Hwf. destruct Hwf as [Hd Hall].
    rewrite lhs_props_nil, rhs_only_known; auto.
    + intros kv Hin. apply in_map. exact Hin.
    + rewrite Forall_forall in *. intros kv Hin. apply IH; auto.
    + intros [k x] Hin. simpl. now apply obj_get_In.
Qed.

(** A replayed object that keeps every recorded property and appends new
    ones differs by additions only. *)
Lemma deepDiff_extend (o extra : obj) (path : list seg) :
  wf_json (JObj o) ->
  (forall kv, In kv extra -> ~ In (fst kv) (keys o)) ->
  deepDiff path (JObj o) (JObj (o ++ extra)) =
  flat_map
    (fun kv => if (fst kv =? "")%string then []
               else [DiffNew (path ++ [Key (fst kv)]) (snd kv)])
    extra.
Proof.
  intros Hwf Hfresh. apply wf_obj in Hwf. destruct Hwf as [Hd Hall].
  simpl. rewrite lhs_props_nil.
  - simpl. unfold rhs_only. rewrite flat_map_app.
    fold (rhs_only path o o). rewrite rhs_only_known.
    + simpl. clear Hd Hall. induction extra as [|kv extra IH]; simpl; [reflexivity|].
      destruct (existsb (String.eqb (fst kv)) (keys o)) eqn:E.
      * apply existsb_eqb_In in E. exfalso. apply (Hfresh kv); [now left | exact E].
      * f_equal. apply IH. intros kv' H'. apply Hfresh. now right.
    + intros kv Hin. now apply in_map.
  - rewrite Forall_forall in *. intros kv Hin p. apply deepDiff_refl. auto.
  - intros [k x] Hin. simpl. apply obj_get_app_l. now apply obj_get_In.
Qed.

End DeepDiffFacts.

Section BaseDiffer.
Context {RT : Runtime}.
Variable opts : options.

Lemma type_changed_reason_is (l r : json) :
  is_type_change {| i_path := ""; i_reason := Base.type_changed_reason l r |} = true.
Proof. reflexivity. Qed.

Lemma categorize_removals_counted (a : Base.acc) (p : string) (d : diff) :
  removals_counted a -> removals_counted (Base.categorize a p d).
Proof.
  unfold removals_counted. intros H.
  destruct d as [? rhs | ? lhs | ? lhs rhs | ? index [rhs | lhs | lhs rhs]]; simpl;
    try assumption;
    try (rewrite filter_app, !length_app; simpl; lia);
    try (destruct (negb (typeof lhs =? typeof rhs)%string); simpl; [|assumption];
         rewrite filter_app, length_app; simpl; lia).
Qed.

Lemma forEach_removals_counted (ds : list diff) :
  forall a a', removals_counted a -> Base.forEach opts a ds = Returned a' ->
               removals_counted a'.
Proof.
  induction ds as [|d ds IH]; simpl; intros a a' Ha H.
  - now inversion H; subst.
  - unfold Base.step in H.
    destruct (path_join (diff_path d)) as [p|m]; [|discriminate].
    destruct (Base.shouldIgnoreField opts p); eauto using categorize_removals_counted.
Qed.

Lemma removals_counted_empty (a : Base.acc) :
  removals_counted a ->
  is_empty (Base.acc_incompatible a) =
  is_empty (Base.acc_removed a)
  && is_empty (filter is_type_change (Base.acc_incompatible a)).
Proof.
  unfold removals_counted. intros H.
  destruct (Base.acc_incompatible a) as [|e es] eqn:Ei; simpl in *.
  - destruct (Base.acc_removed a); [reflexivity | discriminate].
  - destruct (is_type_change e) eqn:Et; simpl in *.
    + now rewrite andb_false_r.
    + destruct (Base.acc_removed a); [discriminate | reflexivity].
Qed.

(** A body comparison either stops at the root with one incompatibility, or
    its incompatibilities are exactly its removals and its type changes. *)
Lemma compareResponseBodies_incompatible (ob rb : option json) :
  let b := Base.compareResponseBodies opts ob rb in
  (exists reason, b = Base.root_incompatible reason) \/
  is_empty (incompatible b) = is_empty (removed b) && is_empty (typeChanged b).
Proof.
  unfold Base.compareResponseBodies.
  destruct ob as [o|], rb as [r|]; simpl; eauto.
  destruct (negb (typeof o =? typeof r)%string); eauto.
  destruct (Base.primitive_or_null o r); [now right|].
  destruct (Base.forEach opts Base.acc0 (diff_of o r)) as [a|m] eqn:E; eauto.
  right. simpl. apply removals_counted_empty.
  eapply forEach_removals_counted; [|exact E]. reflexivity.
Qed.

Lemma forEach_additions (ds : list diff) :
  forallb is_addition ds = true ->
  forall a, exists a',
    Base.forEach opts a ds = Returned a'
    /\ Base.acc_removed a' = Base.acc_removed a
    /\ Base.acc_incompatible a' = Base.acc_incompatible a
    /\ Base.acc_modified a' = Base.acc_modified a.
Proof.
  induction ds as [|d ds IH]; simpl; intros H a; [eauto|].
  apply andb_true_iff in H. destruct H as [Hd Hds].
  unfold Base.step.
  destruct d as [[|s p] rhs | [|s p] lhs | [|s p] lhs rhs | [|s p] index [rhs | lhs | lhs rhs]];
    try discriminate; simpl;
    match goal with
    | |- context [Base.shouldIgnoreField opts ?q] =>
        destruct (Base.shouldIgnoreField opts q)
    end;
    try (apply IH; assumption);
    match goal with
    | |- context [Base.forEach opts ?b ds] =>
        destruct (IH Hds b) as [a' [E [H1 [H2 H3]]]]; exists a'; simpl in *; auto
    end.
Qed.

End BaseDiffer.

Section Headers.
Context {RT : Runtime}.
Variable opts : options.

Lemma keys_obj_set (k : string) (v : json) (o : obj) (k' : string) :
  In k' (keys (obj_set k v o)) <-> k' = k \/ In k' (keys o).
Proof.
  induction o as [|[k0 v0] o IH]; simpl.
  - intuition.
  - destruct (String.eqb_spec k k0) as [->|Hne]; simpl; [intuition|].
    rewrite IH. intuition.
Qed.

Lemma keys_normalize_fold (h acc : obj) (k' : string) :
  In k'
    (keys (fold_left
             (fun acc kv =>
                let lowerKey := Str.toLowerCase (fst kv) in
                if existsb (String.eqb lowerKey) (ignoreHeaders opts) then acc
                else obj_set lowerKey (snd kv) acc) h acc))
  <-> In k' (keys acc)
      \/ exists k, In k (keys h) /\ Str.toLowerCase k = k' /\ kept_header opts k = true.
Proof.
  revert acc. induction h as [|[k v] h IH]; intros acc; simpl.
  - split; [auto | intros [H | [k [[] _]]]; exact H].
  - rewrite IH. unfold kept_header. simpl.
    destruct (existsb (String.eqb (Str.toLowerCase k)) (ignoreHeaders opts)) eqn:E.
    + split.
      * intros [H | [k0 [H1 H2]]]; [auto | right; exists k0; auto].
      * intros [H | [k0 [[<- | H1] [H2 H3]]]]; [auto | | right; exists k0; auto].
        rewrite E in H3. discriminate.
    + rewrite keys_obj_set. split.
      * intros [[-> | H] | [k0 [H1 H2]]]; [right; exists k; rewrite E; auto | auto |
                                           right; exists k0; auto].
      * intros [H | [k0 [[<- | H1] [H2 H3]]]]; [auto | left; left; auto |
                                                 right; exists k0; auto].
Qed.

(** The header names that reach the comparison: lower-cased, the ignored
    ones dropped. *)
Lemma keys_normalizeHeaders (h : obj) (k' : string) :
  In k' (keys (Base.normalizeHeaders opts h))
  <-> exists k, In k (keys h) /\ Str.toLowerCase k = k' /\ kept_header opts k = true.
Proof.
  unfold Base.normalizeHeaders. rewrite keys_normalize_fold. simpl. intuition.
Qed.

Lemma filter_known (ks : list string) :
  filter (fun k => negb (existsb (String.eqb k) ks)) ks = [].
Proof.
  assert (H : forall l, (forall k, In k l -> In k ks) ->
                        filter (fun k => negb (existsb (String.eqb k) ks)) l = []).
  { induction l as [|k l IH]; intros Hin; simpl; [reflexivity|].
    assert (E : existsb (String.eqb k) ks = true)
      by (apply existsb_eqb_In, Hin; now left).
    rewrite E. simpl. apply IH. intros k' H'. apply Hin. now right. }
  apply H. auto.
Qed.

Lemma compareHeaders_same (h : option obj) :
  h_added (Base.compareHeaders h h) = [] /\ h_removed (Base.compareHeaders h h) = [].
Proof. unfold Base.compareHeaders. simpl. now rewrite filter_known. Qed.

End Headers.

Lemma compareResponseBodies_objects `{RT : Runtime} (opts : options) (o r : obj) :
  Base.compareResponseBodies opts (Some (JObj o)) (Some (JObj r)) =
  match Base.forEach opts Base.acc0 (diff_of (JObj o) (JObj r)) with
  | Returned a =>
      {| added := Base.acc_added a; removed := Base.acc_removed a;
         modified := Base.acc_modified a;
         incompatible := Base.acc_incompatible a; tolerated := 0;
         total := len (Base.acc_added a) + len (Base.acc_removed a)
                  + len (Base.acc_modified a) |}
  | Thrown m => Base.root_incompatible ("Comparison error: " ++ m)%string
  end.
Proof. reflexivity. Qed.

(** C1 (amended).  The verdict of [compareResponses]: either the body
    comparison stopped at the root with one incompatibility (bodies of
    different [typeof], or a comparison error) and the interaction is
    incompatible, or [isCompatible] is the conjunction of [statusMatch], no
    added header, no removed header, no removed body field and no type
    change.  A replayed object body that keeps every recorded property and
    appends new ones, under the same status and headers, is compatible.  A
    replayed header whose lower-cased name is not ignored and is no
    recorded header makes the interaction incompatible. *)
Theorem compareResponses_verdict `{RT : Runtime} (opts : options) :
  (forall original replayed,
      let c := Base.compareResponses opts original replayed in
      (exists reason,
          c_bodyDiffs c = Base.root_incompatible reason /\ isCompatible c = false)
      \/ isCompatible c =
         statusMatch c
         && is_empty (h_added (c_headerDiffs c))
         && is_empty (h_removed (c_headerDiffs c))
         && is_empty (removed (c_bodyDiffs c))
         && is_empty (typeChanged (c_bodyDiffs c)))
  /\ (forall status headers o extra,
         wf_json (JObj o) ->
         (forall kv, In kv extra -> ~ In (fst kv) (keys o)) ->
         isCompatible
           (Base.compareResponses opts
              (mkResponse status headers (Some (JObj o)))
              (mkResponse status headers (Some (JObj (o ++ extra))))) = true)
  /\ (forall original replayed k,
         In k (header_names replayed) ->
         ~ In (Str.toLowerCase k) (ignoreHeaders opts) ->
         ~ In (Str.toLowerCase k) (map Str.toLowerCase (header_names original)) ->
         isCompatible (Base.compareResponses opts original replayed) = false).
Proof.
  split; [|split].
  - intros original replayed c. subst c. unfold Base.compareResponses.
    cbn [c_bodyDiffs isCompatible statusMatch c_headerDiffs].
    pose proof (compareResponseBodies_incompatible opts
                  (res_body (Base.normalizeForComparison opts original))
                  (res_body (Base.normalizeForComparison opts replayed))) as H.
    cbv zeta in H.
    set (b := Base.compareResponseBodies opts _ _) in *.
    set (h := Base.compareHeaders _ _).
    set (sm := (_ =? _)).
    destruct H as [[reason E] | E].
    + left. exists reason. split; [exact E|]. rewrite E. simpl.
      now rewrite !andb_false_r.
    + right. rewrite E.
      destruct sm, (is_empty (h_added h)), (is_empty (h_removed h)),
        (is_empty (removed b)), (is_empty (typeChanged b)); reflexivity.
  - intros status headers o extra Hwf Hfresh.
    unfold Base.compareResponses.
    cbn [c_bodyDiffs isCompatible statusMatch c_headerDiffs].
    unfold Base.normalizeForComparison, mkResponse.
    cbn [statusCode res_headers res_body].
    rewrite Z.eqb_refl.
    destruct (compareHeaders_same (option_map (Base.normalizeHeaders opts) headers))
      as [E1 E2].
    rewrite E1, E2, compareResponseBodies_objects.
    unfold diff_of. rewrite deepDiff_extend by assumption.
    destruct (forEach_additions opts
                (flat_map
                   (fun kv => if (fst kv =? "")%string then []
                              else [DiffNew ([] ++ [Key (fst kv)]) (snd kv)])
                   extra)) with (a := Base.acc0) as [a' [E [H1 [H2 _]]]].
    { clear. induction extra as [|kv extra IH]; simpl; [reflexivity|].
      destruct (fst kv =? "")%string; simpl; assumption. }
    rewrite E. cbn [incompatible removed]. now rewrite H1, H2.
  - intros original replayed k Hin Hkeep Hnew.
    unfold Base.compareResponses.
    cbn [c_bodyDiffs isCompatible statusMatch c_headerDiffs].
    match goal with
    | |- context [is_empty (h_added ?hd)] =>
        assert (Hadd : In (Str.toLowerCase k) (h_added hd))
    end.
    { unfold Base.compareHeaders. cbn [h_added]. apply filter_In.
      unfold Base.normalizeForComparison. cbn [res_headers]. split.
      - unfold header_names in Hin.
        destruct (res_headers replayed) as [h|]; simpl in *; [|contradiction].
        apply keys_normalizeHeaders. exists k. repeat split; auto.
        unfold kept_header. apply negb_true_iff.
        destruct (existsb _ (ignoreHeaders opts)) eqn:E; [|reflexivity].
        apply existsb_eqb_In in E. contradiction.
      - apply negb_true_iff.
        match goal with |- ?b = false => destruct b eqn:E; [|reflexivity] end.
        apply existsb_eqb_In in E. exfalso. apply Hnew.
        unfold header_names.
        destruct (res_headers original) as [h|]; simpl in *; [|contradiction].
        apply keys_normalizeHeaders in E. destruct E as [k0 [H1 [H2 _]]].
        rewrite <- H2. now apply in_map. }
    match goal with
    | |- context [is_empty (h_added ?hd)] => destruct (h_added hd); [contradiction|]
    end.
    simpl. now rewrite andb_false_r.
Qed.

Example iso_utc_noon :
  TestRuntime.Dates.parse "2023-01-01T12:00:00Z" = Some 1672574400000.
Proof. reflexivity. Qed.

(** C1, the claim as stated fails.  Recorded body the string "ok", replayed
    body an object, same status, no headers: nothing is removed and no type
    change is listed, yet the interaction is incompatible.  The same for a
    body that is an array and gains an element: deep-diff gives the
    difference no path, [diff.path.join] raises, and the comparison error
    makes the interaction incompatible.  And a replayed response that adds
    the header [Date], which the verifier ignores, is compatible. *)
Lemma compareResponses_verdict_counterexample :
  let c := Base.compareResponses (RT := TestRuntime.runtime) default_options
             (mkResponse 200 (Some []) (Some (JStr "ok")))
             (mkResponse 200 (Some []) (Some (JObj [("status", JStr "ok")]))) in
  (isCompatible c = false
   /\ statusMatch c
      && is_empty (h_added (c_headerDiffs c))
      && is_empty (h_removed (c_headerDiffs c))
      && is_empty (removed (c_bodyDiffs c))
      && is_empty (typeChanged (c_bodyDiffs c)) = true)
  /\ (let c := Base.compareResponses (RT := TestRuntime.runtime) default_options
                 (mkResponse 200 (Some []) (Some (JArr [JNum 1])))
                 (mkResponse 200 (Some []) (Some (JArr [JNum 1; JNum 2]))) in
      isCompatible c = false
      /\ statusMatch c = true
      /\ removed (c_bodyDiffs c) = []
      /\ typeChanged (c_bodyDiffs c) = [])
  /\ isCompatible
       (Base.compareResponses (RT := TestRuntime.runtime) default_options
          (mkResponse 200 (Some []) (Some (JObj [("id", JNum 1)])))
          (mkResponse 200 (Some [("Date", JStr "Mon, 02 Jan 2023 10:00:00 GMT")])
             (Some (JObj [("id", JNum 1)])))) = true.
Proof. vm_compute. repeat split. Qed.

Lemma compareResponses_verdict_witness :
  isCompatible
    (Base.compareResponses (RT := TestRuntime.runtime) default_options
       (mkResponse 200 None (Some (JObj [("id", JNum 1)])))
       (mkResponse 200 None
          (Some (JObj ([("id", JNum 1)] ++ [("inStock", JBool true)]))))) = true
  /\ isCompatible
       (Base.compareResponses (RT := TestRuntime.runtime) default_options
          (mkResponse 200 (Some []) None)
          (mkResponse 200 (Some [("X-Trace", JStr "1")]) None)) = false.
Proof.
  split.
  - apply (proj1 (proj2 (compareResponses_verdict (RT := TestRuntime.runtime)
                           default_options))).
    + reflexivity.
    + intros kv [<- | []] [H | []]. discriminate H.
  - apply (proj2 (proj2 (compareResponses_verdict (RT := TestRuntime.runtime)
                           default_options)))
      with (k := "X-Trace").
    + left. reflexivity.
    + simpl. intuition discriminate.
    + simpl. tauto.
Defined.

(** ** The replay loop *)

Section ReplayFacts.
Variable replayRequest : request -> outcome response.
Variable compareResponses : response -> response -> outcome comparison.

Lemma len_app {A : Type} (l1 l2 : list A) : len (l1 ++ l2) = len l1 + len l2.
Proof. unfold len. rewrite length_app. lia. Qed.

Lemma len_nil {A : Type} : len (@nil A) = 0.
Proof. reflexivity. Qed.

Lemma len_one {A : Type} (x : A) : len [x] = 1.
Proof. reflexivity. Qed.

Lemma replay_one_counted st (it : interaction) :
  counted st -> counted (Replay.replay_one replayRequest compareResponses st it).
Proof.
  destruct st as [rs n]. unfold counted, Replay.replay_one. simpl.
  intros [Ht [Hc [Hi He]]].
  destruct (Replay.attempt replayRequest compareResponses (i_request it)
              (i_response it)) as [[replayed c] | msg]; simpl.
  - destruct (isCompatible c) eqn:E;
      simpl; rewrite !filter_app, !len_app; simpl; rewrite ?E; simpl;
      rewrite ?len_one, ?len_nil; repeat split; lia.
  - rewrite !filter_app, !len_app; simpl. rewrite ?len_one, ?len_nil.
    repeat split; lia.
Qed.

Lemma replay_one_length st (it : interaction) :
  len (fst (Replay.replay_one replayRequest compareResponses st it))
  = len (fst st) + 1.
Proof.
  destruct st as [rs n]. unfold Replay.replay_one.
  destruct (Replay.attempt replayRequest compareResponses (i_request it)
              (i_response it)) as [[replayed c] | msg];
    simpl; rewrite len_app; reflexivity.
Qed.

Lemma replay_loop_counted (session : list interaction) :
  forall st, counted st ->
    counted (fold_left (Replay.replay_one replayRequest compareResponses) session st)
    /\ len (fst (fold_left (Replay.replay_one replayRequest compareResponses)
                   session st))
       = len (fst st) + len session.
Proof.
  induction session as [|it session IH]; simpl; intros st Hst.
  - split; [assumption | unfold len; simpl; lia].
  - destruct (IH _ (replay_one_counted it Hst)) as [H1 H2]. split; [assumption|].
    rewrite H2, replay_one_length. unfold len. cbn [List.length]. lia.
Qed.

Lemma len_partition (rs : list interactionResult) :
  len rs = len (filter is_compatible_result rs)
           + len (filter is_incompatible_result rs)
           + len (filter is_error_result rs).
Proof.
  assert (H : List.length rs =
              (List.length (filter is_compatible_result rs)
               + List.length (filter is_incompatible_result rs)
               + List.length (filter is_error_result rs))%nat).
  { induction rs as [|r rs IH]; simpl; [reflexivity|].
    destruct r as [rq o p c | rq e]; simpl;
      [destruct (isCompatible c); simpl|]; lia. }
  unfold len. lia.
Qed.

Lemma score_formula (compatible total : Z) :
  (Replay.score compatible total ==
   if 0 <? total then 100 * inject_Z compatible / inject_Z total else 0)%Q.
Proof.
  unfold Replay.score. destruct (0 <? total) eqn:E; [|reflexivity].
  apply Z.ltb_lt in E. field. intro H.
  unfold Qeq in H. simpl in H. lia.
Qed.

(** C2.  The summary of a replayed session: every interaction is counted
    once in [total] and in exactly one of [compatible], [incompatible] and
    [errors], so [total = compatible + incompatible + errors]; and
    [compatibilityScore] is [100 * compatible / total], 0 for an empty
    session. *)
Theorem replayAgainstContract_summary (session : list interaction) :
  let r := Replay.replayAgainstContract replayRequest compareResponses session in
  let s := r_summary r in
  s_total s = s_compatible s + s_incompatible s + s_errors s
  /\ s_total s = len session
  /\ len (interactionResults r) = len session
  /\ s_compatible s = len (filter is_compatible_result (interactionResults r))
  /\ s_incompatible s = len (filter is_incompatible_result (interactionResults r))
  /\ s_errors s = len (filter is_error_result (interactionResults r))
  /\ (compatibilityScore s ==
      if 0 <? s_total s
      then 100 * inject_Z (s_compatible s) / inject_Z (s_total s)
      else 0)%Q.
Proof.
  intros r s. subst s r. unfold Replay.replayAgainstContract.
  destruct (replay_loop_counted session (st := ([], Replay.counters0)))
    as [[Ht [Hc [Hi He]]] Hlen].
  { repeat split. }
  destruct (fold_left _ session _) as [rs n]. simpl in *.
  assert (Hp := len_partition rs).
  repeat split; try lia; try assumption.
  apply score_formula.
Qed.

End ReplayFacts.

(** ** The replay loop of the tolerant verifier *)

Section TolerantReplay.
Variable replayRequest : request -> outcome response.







End TolerantReplay.

(** ** Sorting by key *)

Section SortFacts.

Lemma compare_lt_trans (a b c : string) :
  String.compare a b = Lt -> String.compare b c = Lt -> String.compare a c = Lt.
Proof.
  intros H1 H2.
  apply OrderedTypeEx.String_as_OT.cmp_lt in H1.
  apply OrderedTypeEx.String_as_OT.cmp_lt in H2.
  apply OrderedTypeEx.String_as_OT.cmp_lt.
  eapply OrderedTypeEx.String_as_OT.lt_trans; eassumption.
Qed.

Lemma leb_iff (a b : string) :
  String.leb a b = true <-> String.compare a b = Lt \/ a = b.
Proof.
  unfold String.leb. destruct (String.compare a b) eqn:E.
  - apply String.compare_eq_iff in E. intuition.
  - intuition.
  - split; [discriminate|]. intros [H | ->]; [discriminate|].
    assert (H : String.compare b b = Eq)
      by (apply OrderedTypeEx.String_as_OT.cmp_eq; reflexivity).
    congruence.
Qed.

Lemma leb_trans (a b c : string) :
  String.leb a b = true -> String.leb b c = true -> String.leb a c = true.
Proof.
  rewrite !leb_iff. intros [H1 | ->] [H2 | ->]; auto.
  left. eapply compare_lt_trans; eassumption.
Qed.

Lemma code_unit_cmp_le (a b : string) :
  (code_unit_cmp a b <=? 0) = String.leb a b.
Proof. unfold code_unit_cmp, String.leb. now destruct (String.compare a b). Qed.

Lemma insert_by_perm {A : Type} (cmp : A -> A -> Z) (x : A) (l : list A) :
  Permutation (insert_by cmp x l) (x :: l).
Proof.
  induction l as [|y l IH]; simpl; [reflexivity|].
  destruct (cmp x y <=? 0); [reflexivity|].
  rewrite IH. apply perm_swap.
Qed.

Lemma sort_by_perm {A : Type} (cmp : A -> A -> Z) (l : list A) :
  Permutation (sort_by cmp l) l.
Proof.
  induction l as [|x l IH]; simpl; [reflexivity|].
  unfold sort_by in *. simpl. rewrite insert_by_perm. now constructor.
Qed.

Variable V : Type.

Lemma insert_by_sorted (x : string * V) (l : list (string * V)) :
  StronglySorted key_le l -> StronglySorted key_le (insert_by by_key x l).
Proof.
  induction 1 as [|y l Hs IH Hy]; simpl.
  - repeat constructor.
  - unfold by_key at 1. rewrite code_unit_cmp_le.
    destruct (String.leb (fst x) (fst y)) eqn:E.
    + constructor; [now constructor|]. constructor; [exact E|].
      rewrite Forall_forall in *. intros z Hz.
      eapply leb_trans; [exact E | apply Hy, Hz].
    + constructor; [assumption|].
      rewrite Forall_forall in *. intros z Hz.
      apply (Permutation_in _ (insert_by_perm by_key x l)) in Hz.
      destruct Hz as [<- | Hz]; [|now apply Hy].
      destruct (String.leb_total (fst x) (fst y)) as [H | H]; [congruence | exact H].
Qed.

Lemma sort_by_sorted (l : list (string * V)) : StronglySorted key_le (sort_by by_key l).
Proof.
  induction l as [|x l IH]; [constructor|]. now apply insert_by_sorted.
Qed.

Lemma same_key_same_entry (l : list (string * V)) (p q : string * V) :
  NoDup (map fst l) -> In p l -> In q l -> fst p = fst q -> p = q.
Proof.
  induction l as [|x l IH]; simpl; [contradiction|].
  intros Hnd [-> | Hp] [-> | Hq] Hk; inversion Hnd as [|? ? Hn Hd]; subst; auto.
  - exfalso. apply Hn. rewrite Hk. now apply in_map.
  - exfalso. apply Hn. rewrite <- Hk. now apply in_map.
Qed.

(** Two sorted lists with the same entries, under distinct keys, are the
    same list. *)
Lemma sorted_perm_eq (l1 : list (string * V)) :
  forall l2, StronglySorted key_le l1 -> StronglySorted key_le l2 ->
             Permutation l1 l2 -> NoDup (map fst l1) -> l1 = l2.
Proof.
  induction l1 as [|a l1 IH]; intros l2 H1 H2 Hp Hnd.
  - apply Permutation_nil in Hp. now subst.
  - destruct l2 as [|b l2];
      [apply Permutation_sym, Permutation_nil in Hp; discriminate|].
    assert (Hab : a = b).
    { assert (Ha : In a (b :: l2)) by (apply (Permutation_in _ Hp); now left).
      assert (Hb : In b (a :: l1))
        by (apply (Permutation_in _ (Permutation_sym Hp)); now left).
      destruct Ha as [-> | Ha]; [reflexivity|].
      destruct Hb as [-> | Hb]; [reflexivity|].
      apply StronglySorted_inv in H1. destruct H1 as [_ H1].
      apply StronglySorted_inv in H2. destruct H2 as [_ H2].
      rewrite Forall_forall in H1, H2.
      apply (@same_key_same_entry (a :: l1)); auto;
        [now left | now right |].
      apply String.leb_antisym; [apply H1, Hb | apply H2, Ha]. }
    subst b. f_equal.
    apply IH.
    + now apply StronglySorted_inv in H1.
    + now apply StronglySorted_inv in H2.
    + eapply Permutation_cons_inv; eassumption.
    + now inversion Hnd.
Qed.

(** Sorting by key forgets the order the entries came in. *)
Lemma sort_by_key_order (l1 l2 : list (string * V)) :
  Permutation l1 l2 -> NoDup (map fst l1) ->
  sort_by by_key l1 = sort_by by_key l2.
Proof.
  intros Hp Hnd. apply sorted_perm_eq; try apply sort_by_sorted.
  - rewrite !sort_by_perm. exact Hp.
  - eapply Permutation_NoDup; [|exact Hnd].
    apply Permutation_map, Permutation_sym, sort_by_perm.
Qed.

End SortFacts.

(** ** The request hash *)

Section HashFacts.
Context {RT : Runtime}.
Variable ropts : recorder_options.

Lemma key_reorder_truthy (x y : json) : key_reorder x y -> truthy x = truthy y.
Proof. now destruct 1. Qed.

Lemma keys_map_values {A B : Type} (f : A -> B) (o : list (string * A)) :
  map fst (map_values f o) = map fst o.
Proof. unfold map_values. rewrite map_map. reflexivity. Qed.

Lemma recursiveSanitize_arr (l : list json) :
  Recorder.recursiveSanitize ropts (JArr l) =
  JArr (mapi_from
          (fun i x =>
             if Recorder.sensitive ropts (Str.of_nat i) then REDACTED
             else Recorder.recursiveSanitize ropts x)
          O l).
Proof. reflexivity. Qed.

Lemma recursiveSanitize_obj (o : obj) :
  Recorder.recursiveSanitize ropts (JObj o) =
  JObj (map
          (fun kv =>
             (fst kv,
              if Recorder.sensitive ropts (fst kv) then REDACTED
              else Recorder.recursiveSanitize ropts (snd kv)))
          o).
Proof. reflexivity. Qed.

Lemma Forall_mapi_from {A B : Type} (P : A -> Prop) (Q : B -> Prop)
  (f : nat -> A -> B) (l : list A) :
  Forall (fun x => P x -> forall i, Q (f i x)) l ->
  Forall P l -> forall i, Forall Q (mapi_from f i l).
Proof.
  induction 1 as [|x l Hx Hl IH]; intros HP i; simpl; [constructor|].
  inversion HP; subst. constructor; auto.
Qed.

Lemma Forall2_mapi_from {A B : Type} (R : A -> A -> Prop) (S : B -> B -> Prop)
  (f : nat -> A -> B) (l1 l2 : list A) :
  Forall (fun x => forall y i, R x y -> S (f i x) (f i y)) l1 ->
  Forall2 R l1 l2 -> forall i, Forall2 S (mapi_from f i l1) (mapi_from f i l2).
Proof.
  intros H H2. revert H.
  induction H2 as [|x y l1 l2 Hxy Hl IH]; intros H i; simpl; [constructor|].
  inversion H; subst. constructor; auto.
Qed.

Lemma Forall2_map_both {A B : Type} (R : A -> A -> Prop) (S : B -> B -> Prop)
  (f : A -> B) (l1 l2 : list A) :
  Forall (fun x => forall y, R x y -> S (f x) (f y)) l1 ->
  Forall2 R l1 l2 -> Forall2 S (map f l1) (map f l2).
Proof.
  intros H H2. revert H.
  induction H2 as [|x y l1 l2 Hxy Hl IH]; intros H; simpl; [constructor|].
  inversion H; subst. constructor; auto.
Qed.

Lemma Forall2_eq {A : Type} (l1 l2 : list A) : Forall2 eq l1 l2 -> l1 = l2.
Proof. induction 1; congruence. Qed.

Lemma wf_sanitize (v : json) :
  wf_json v -> wf_json (Recorder.recursiveSanitize ropts v).
Proof.
  induction v as [| b | n | s | l IH | o IH] using json_ind'; intros Hwf;
    try exact Hwf.
  - rewrite recursiveSanitize_arr. apply wf_arr in Hwf. apply wf_arr.
    apply Forall_mapi_from with (P := wf_json); [|assumption].
    rewrite Forall_forall in *. intros x Hin Hx i.
    destruct (Recorder.sensitive ropts (Str.of_nat i)); [reflexivity | auto].
  - rewrite recursiveSanitize_obj.
    apply wf_obj in Hwf. destruct Hwf as [Hd Hall]. apply wf_obj. split.
    + unfold keys. rewrite map_map. simpl. exact Hd.
    + rewrite Forall_forall in *. intros kv Hin.
      apply in_map_iff in Hin. destruct Hin as [kv0 [<- Hin]]. simpl.
      destruct (Recorder.sensitive ropts (fst kv0)); [reflexivity | auto].
Qed.

Lemma key_reorder_sanitize (x : json) :
  forall y, key_reorder x y ->
            key_reorder (Recorder.recursiveSanitize ropts x)
              (Recorder.recursiveSanitize ropts y).
Proof.
  induction x as [| b | n | s | l IH | o IH] using json_ind'; intros y H;
    inversion H; subst; try apply reorder_refl.
  - rewrite !recursiveSanitize_arr. apply reorder_arr.
    apply Forall2_mapi_from with (R := key_reorder); [|assumption].
    rewrite Forall_forall in *. intros x Hin y i Hxy.
    destruct (Recorder.sensitive ropts (Str.of_nat i)); [apply reorder_refl | auto].
  - rewrite !recursiveSanitize_obj.
    eapply reorder_obj; [|apply Permutation_map; eassumption].
    eapply Forall2_map_both; [|eassumption].
    rewrite Forall_forall in *. intros p Hin q [Hk Hv]. simpl.
    split; [exact Hk|]. rewrite <- Hk.
    destruct (Recorder.sensitive ropts (fst p)); [apply reorder_refl | auto].
Qed.

(** [normalizeForHashing] gives one result for all orders of the keys. *)
Lemma normalizeForHashing_obj (o : obj) :
  Recorder.normalizeForHashing (JObj o) =
  JObj (assign_all
          (sort_by (by_key (V := json))
             (map_values Recorder.normalizeForHashing o))).
Proof. reflexivity. Qed.

Lemma normalizeForHashing_arr (l : list json) :
  Recorder.normalizeForHashing (JArr l) =
  JArr (map Recorder.normalizeForHashing l).
Proof. reflexivity. Qed.

Lemma normalizeForHashing_key_order (x : json) :
  forall y, key_reorder x y -> wf_json x ->
            Recorder.normalizeForHashing x = Recorder.normalizeForHashing y.
Proof.
  induction x as [| b | n | s | l IH | o IH] using json_ind'; intros y H Hwf;
    inversion H; subst; try reflexivity.
  - rewrite !normalizeForHashing_arr. f_equal. apply wf_arr in Hwf.
    apply Forall2_eq. eapply Forall2_map_both; [|eassumption].
    rewrite Forall_forall in *. intros a Hin b Hab. apply IH; auto.
  - rewrite !normalizeForHashing_obj. do 2 f_equal.
    apply wf_obj in Hwf. destruct Hwf as [Hd Hall].
    assert (E : map_values Recorder.normalizeForHashing o
                = map_values Recorder.normalizeForHashing o2').
    { apply Forall2_eq. unfold map_values.
      eapply Forall2_map_both; [|eassumption].
      rewrite Forall_forall in *. intros p Hin q [Hk Hv].
      rewrite Hk. f_equal. apply IH; auto. }
    rewrite E.
    apply (sort_by_key_order (V := json)).
    + unfold map_values. apply Permutation_map. assumption.
    + rewrite <- E, keys_map_values. now apply distinct_NoDup.
Qed.

Lemma recordInteraction_stores_hash (r : recorder) (timestamp : string)
  (duration : option Z) (req : request) (res : response)
  (interactions : list recordedInteraction) :
  isRecording r = true -> currentSession r = Some interactions ->
  exists i,
    currentSession (snd (Recorder.recordInteraction ropts r timestamp duration req res))
    = Some (interactions ++ [i])
    /\ ri_requestHash i = Recorder.requestHash ropts req
    /\ ri_timestamp i = timestamp.
Proof.
  intros Hr Hs. unfold Recorder.recordInteraction. rewrite Hr, Hs. simpl.
  eexists. split; [reflexivity|]. split; reflexivity.
Qed.

Lemma hash_input_reorder (r1 r2 : request) :
  same_hashed_parts r1 r2 -> wf_opt (req_query r1) -> wf_opt (req_body r1) ->
  key_reorder (Recorder.hash_input (Recorder.captureRequest ropts r1))
    (Recorder.hash_input (Recorder.captureRequest ropts r2))
  /\ wf_json (Recorder.hash_input (Recorder.captureRequest ropts r1)).
Proof.
  intros [Hm [Hp [Hq Hb]]] Wq Wb.
  unfold Recorder.hash_input, Recorder.captureRequest. simpl.
  rewrite Hm, Hp.
  set (q1 := match req_query r1 with Some q => if truthy q then q else JObj [] | None => JObj [] end).
  set (q2 := match req_query r2 with Some q => if truthy q then q else JObj [] | None => JObj [] end).
  assert (Hq' : key_reorder q1 q2 /\ wf_json q1).
  { subst q1 q2. destruct (req_query r1) as [a|], (req_query r2) as [b|];
      simpl in Hq; try contradiction; [|split; [apply reorder_refl | reflexivity]].
    rewrite <- (key_reorder_truthy Hq).
    destruct (truthy a); split; auto using reorder_refl. reflexivity. }
  destruct Hq' as [Hq1 Hq2].
  destruct (req_body r1) as [a|], (req_body r2) as [b|];
    simpl in Hb; try contradiction.
  - rewrite <- (key_reorder_truthy Hb).
    destruct (includeBody ropts && truthy a); simpl.
    + split.
      * eapply reorder_obj; [|reflexivity].
        repeat constructor; simpl; auto using reorder_refl.
        now apply key_reorder_sanitize.
      * apply wf_obj. split; [reflexivity|].
        repeat constructor; simpl; auto. now apply wf_sanitize.
    + split.
      * eapply reorder_obj; [|reflexivity].
        repeat constructor; simpl; auto using reorder_refl.
      * apply wf_obj. split; [reflexivity|]. repeat constructor; simpl; auto.
  - simpl. split.
    + eapply reorder_obj; [|reflexivity].
      repeat constructor; simpl; auto using reorder_refl.
    + apply wf_obj. split; [reflexivity|]. repeat constructor; simpl; auto.
Qed.

End HashFacts.

(** C5.  The request hash depends on the method, the path, the query and
    the body only: two requests with the same method and path whose queries
    and bodies differ at most in the order of their keys get the same
    [requestHash], whatever their headers, route parameters, responses and
    capture times. *)
Theorem requestHash_depends_on_method_path_query_body `{RT : Runtime}
  (ropts : recorder_options) (r1 r2 : request) :
  req_method r1 = req_method r2 ->
  req_path r1 = req_path r2 ->
  reorder_opt (req_query r1) (req_query r2) ->
  reorder_opt (req_body r1) (req_body r2) ->
  wf_opt (req_query r1) -> wf_opt (req_body r1) ->
  Recorder.requestHash ropts r1 = Recorder.requestHash ropts r2
  /\ forall rec1 rec2 t1 t2 d1 d2 res1 res2 s1 s2,
       isRecording rec1 = true -> currentSession rec1 = Some s1 ->
       isRecording rec2 = true -> currentSession rec2 = Some s2 ->
       exists i1 i2,
         currentSession (snd (Recorder.recordInteraction ropts rec1 t1 d1 r1 res1))
         = Some (s1 ++ [i1])
         /\ currentSession (snd (Recorder.recordInteraction ropts rec2 t2 d2 r2 res2))
            = Some (s2 ++ [i2])
         /\ ri_requestHash i1 = ri_requestHash i2.
Proof.
  intros Hm Hp Hq Hb Wq Wb.
  assert (E : Recorder.requestHash ropts r1 = Recorder.requestHash ropts r2).
  { destruct (@hash_input_reorder ropts r1 r2) as [Hr Hw]; auto.
    { repeat split; assumption. }
    unfold Recorder.requestHash, Recorder.generateContentHash.
    remember (Recorder.hash_input (Recorder.captureRequest ropts r1)) as h1.
    remember (Recorder.hash_input (Recorder.captureRequest ropts r2)) as h2.
    assert (N := normalizeForHashing_key_order Hr Hw).
    unfold Recorder.hash_input in Heqh1, Heqh2. subst h1 h2. now rewrite N. }
  split; [exact E|].
  intros rec1 rec2 t1 t2 d1 d2 res1 res2 s1 s2 R1 S1 R2 S2.
  destruct (recordInteraction_stores_hash ropts rec1 t1 d1 r1 res1 R1 S1)
    as [i1 [E1 [H1 _]]].
  destruct (recordInteraction_stores_hash ropts rec2 t2 d2 r2 res2 R2 S2)
    as [i2 [E2 [H2 _]]].
  exists i1, i2. repeat split; auto. congruence.
Qed.

Lemma requestHash_depends_on_method_path_query_body_witness :
  Recorder.requestHash (RT := TestRuntime.runtime) default_recorder_options
    order_request
  = Recorder.requestHash (RT := TestRuntime.runtime) default_recorder_options
      order_request_reordered.
Proof.
  apply (requestHash_depends_on_method_path_query_body
           (RT := TestRuntime.runtime) default_recorder_options
           order_request order_request_reordered).
  - reflexivity.
  - reflexivity.
  - simpl. eapply reorder_obj with (o2' := [("page", JStr "1"); ("sort", JStr "asc")]).
    + repeat constructor.
    + apply perm_swap.
  - simpl. eapply reorder_obj
      with (o2' := [("productId", JNum 1); ("quantity", JNum 2)]).
    + repeat constructor.
    + apply perm_swap.
  - reflexivity.
  - reflexivity.
Defined.

(** ** The tolerant body comparison *)

Section ObjectFacts.

Lemma NoDup_keys_obj_set (k : string) (v : json) (o : obj) :
  NoDup (keys o) -> NoDup (keys (obj_set k v o)).
Proof.
  induction o as [|[k0 v0] o IH]; simpl; intros H.
  - repeat constructor. intros [].
  - inversion H as [|? ? Hn Hd]; subst.
    destruct (String.eqb_spec k k0) as [->|Hne]; simpl; [now constructor|].
    constructor; [|auto].
    intro Hin. apply keys_obj_set in Hin. destruct Hin as [-> | Hin]; auto.
Qed.

Lemma Forall_values_obj_set (P : json -> Prop) (k : string) (v : json) (o : obj) :
  P v -> Forall (fun kv => P (snd kv)) o ->
  Forall (fun kv => P (snd kv)) (obj_set k v o).
Proof.
  intros Hv. induction 1 as [|[k0 v0] o H0 Ho IH]; simpl.
  - now repeat constructor.
  - destruct (k =? k0)%string; constructor; auto.
Qed.

Lemma assign_fold_invariant (P : json -> Prop) (pairs acc : obj) :
  NoDup (keys acc) -> Forall (fun kv => P (snd kv)) acc ->
  Forall (fun kv => P (snd kv)) pairs ->
  let o := fold_left (fun acc kv => obj_set (fst kv) (snd kv) acc) pairs acc in
  NoDup (keys o) /\ Forall (fun kv => P (snd kv)) o.
Proof.
  revert acc. induction pairs as [|kv pairs IH]; simpl; intros acc Hn Ha Hp; [auto|].
  inversion Hp; subst.
  apply IH; auto using NoDup_keys_obj_set, Forall_values_obj_set.
Qed.

(** An object built by assignments has distinct keys. *)
Lemma wf_assign_all (pairs : obj) :
  Forall (fun kv => wf_json (snd kv)) pairs -> wf_json (JObj (assign_all pairs)).
Proof.
  intros H. apply wf_obj.
  destruct (@assign_fold_invariant wf_json pairs []) as [Hn Hv]; auto; [constructor|].
  split; [now apply distinct_NoDup | exact Hv].
Qed.

End ObjectFacts.

Section TolerantFacts.
Context {RT : Runtime}.
Variable opts : options.
Variable tol : tolerances.

Lemma normalizeForComparison_obj (path : string) (o : obj) :
  Tolerant.normalizeForComparison opts tol path (JObj o) =
  JObj (assign_all (map (normalize_entry opts tol path) o)).
Proof. reflexivity. Qed.

Lemma normalizeForComparison_arr (path : string) (l : list json) :
  Tolerant.normalizeForComparison opts tol path (JArr l) =
  let normalizedArray :=
    map (Tolerant.normalizeForComparison opts tol (path ++ "[]")%string) l in
  if sortArrays tol && Tolerant.shouldSortArray tol path
  then JArr (Tolerant.sortArray normalizedArray)
  else JArr normalizedArray.
Proof. reflexivity. Qed.

Lemma sortArray_perm (l : list json) : Permutation (Tolerant.sortArray l) l.
Proof.
  unfold Tolerant.sortArray.
  destruct (List.length l <=? 1)%nat; [reflexivity|].
  destruct (forallb Tolerant.is_primitive l); apply sort_by_perm.
Qed.

(** Whatever the input, the normalised tree has distinct keys in every
    object: each object is rebuilt by assignments. *)
Lemma wf_normalizeForComparison (data : json) :
  forall path, wf_json (Tolerant.normalizeForComparison opts tol path data).
Proof.
  induction data as [| b | n | s | l IH | o IH] using json_ind'; intros path;
    try reflexivity.
  - rewrite normalizeForComparison_arr. cbv zeta.
    assert (H : Forall wf_json
                  (map (Tolerant.normalizeForComparison opts tol (path ++ "[]")%string) l)).
    { rewrite Forall_forall in *. intros x Hin.
      apply in_map_iff in Hin. destruct Hin as [x0 [<- Hin]]. now apply IH. }
    destruct (sortArrays tol && Tolerant.shouldSortArray tol path); apply wf_arr;
      [|exact H].
    rewrite Forall_forall in *. intros x Hin. apply H.
    eapply Permutation_in; [apply sortArray_perm | exact Hin].
  - rewrite normalizeForComparison_obj. apply wf_assign_all.
    rewrite Forall_forall in *. intros kv Hin.
    apply in_map_iff in Hin. destruct Hin as [kv0 [<- Hin]].
    unfold normalize_entry.
    destruct (ignoreUUIDs tol && Tolerant.isLikelyUUID tol (fst kv0) (snd kv0)
              && negb _); simpl; [reflexivity | now apply IH].
Qed.

(** Two bodies with the same normal form produce no difference and no
    tolerated change. *)
Lemma compareResponseBodies_same_normal_form (o r : json) :
  is_container o = true -> is_container r = true ->
  Tolerant.normalizeForComparison opts tol "" o
  = Tolerant.normalizeForComparison opts tol "" r ->
  Tolerant.compareResponseBodies opts tol (Some o) (Some r) = Base.no_diffs.
Proof.
  intros Ho Hr E. unfold Tolerant.compareResponseBodies.
  destruct o, r; try discriminate; cbn [typeof String.eqb negb Ascii.eqb Bool.eqb];
    unfold Base.primitive_or_null; cbn [typeof strict_eq String.eqb negb orb Ascii.eqb Bool.eqb];
    rewrite E; unfold diff_of; rewrite deepDiff_refl by apply wf_normalizeForComparison;
    reflexivity.
Qed.

Lemma strict_eq_refl (v : json) : is_container v = false -> strict_eq v v = true.
Proof.
  destruct v; simpl; intros; try discriminate; try reflexivity.
  - apply Bool.eqb_reflx.
  - apply Z.eqb_refl.
  - apply String.eqb_refl.
Qed.





(** Any body compared with itself produces no difference. *)
Lemma tolerant_compareResponseBodies_same (b : option json) :
  Tolerant.compareResponseBodies opts tol b b = Base.no_diffs.
Proof.
  destruct b as [v|]; [|reflexivity].
  destruct (is_container v) eqn:Hc.
  - now apply compareResponseBodies_same_normal_form.
  - unfold Tolerant.compareResponseBodies. rewrite String.eqb_refl. cbn [negb].
    assert (Hp : Base.primitive_or_null v v = true)
      by (destruct v; try reflexivity; discriminate Hc).
    rewrite Hp. unfold Tolerant.areValuesEquivalent.
    now rewrite strict_eq_refl.
Qed.


End TolerantFacts.




(** ** Type changes *)

Section TypeChange.

Lemma deepDiff_leaf_edit (path : list seg) (l r : json) :
  leaf_edit l r = true -> deepDiff path l r = [DiffEdit path l r].
Proof.
  unfold leaf_edit. intros H.
  destruct (negb (realTypeOf l =? realTypeOf r)%string) eqn:E.
  - destruct l; simpl in *; rewrite E; reflexivity.
  - simpl in H. apply andb_true_iff in H. destruct H as [Hc Hs].
    apply negb_true_iff in Hs.
    destruct l; try discriminate; destruct r; try discriminate;
      simpl in *; rewrite ?Hs; reflexivity.
Qed.

Lemma lhs_props_app (rec : list seg -> json -> json -> list diff)
  (path : list seg) (r l1 l2 : obj) :
  lhs_props rec path r (l1 ++ l2) = lhs_props rec path r l1 ++ lhs_props rec path r l2.
Proof.
  induction l1 as [|kv l1 IH]; simpl; [reflexivity|]. now rewrite IH, app_assoc.
Qed.

Lemma obj_get_app (k : string) (o1 o2 : obj) :
  obj_get k (o1 ++ o2) =
  match obj_get k o1 with
  | Some v => Some v
  | None => obj_get k o2
  end.
Proof.
  induction o1 as [|[k0 v0] o1 IH]; simpl; [reflexivity|].
  now destruct (k =? k0)%string.
Qed.

Lemma obj_get_absent (k : string) (o : obj) : ~ In k (keys o) -> obj_get k o = None.
Proof.
  induction o as [|[k0 v0] o IH]; simpl; [reflexivity|]. intros H.
  destruct (String.eqb_spec k k0) as [->|Hne]; [exfalso; auto | auto].
Qed.

(** Two objects that differ in the value of one key, where deep-diff sees
    an edit, differ by that edit alone. *)
Lemma deepDiff_field_edit (path : list seg) (pre post : obj) (k : string) (l r : json) :
  wf_json (JObj (pre ++ (k, l) :: post)) ->
  leaf_edit l r = true ->
  deepDiff path (JObj (pre ++ (k, l) :: post)) (JObj (pre ++ (k, r) :: post))
  = [DiffEdit (path ++ [Key k]) l r].
Proof.
  intros Hwf He. apply wf_obj in Hwf. destruct Hwf as [Hd Hall].
  apply distinct_NoDup in Hd. rewrite keys_app in Hd. simpl in Hd.
  assert (Hk1 : ~ In k (keys pre)).
  { intro Hin. apply NoDup_remove_2 in Hd. apply Hd, in_or_app. now left. }
  assert (Hk2 : ~ In k (keys post)).
  { intro Hin. apply NoDup_remove_2 in Hd. apply Hd, in_or_app. now right. }
  assert (Hpp : NoDup (keys pre ++ keys post)) by now apply NoDup_remove_1 in Hd.
  apply Forall_app in Hall. destruct Hall as [Hpre Hpost].
  inversion Hpost as [|? ? Hl Hpost']; subst.
  simpl. rewrite lhs_props_app. simpl.
  rewrite (@lhs_props_nil deepDiff (pre ++ (k, r) :: post) pre).
  - rewrite obj_get_app, (obj_get_absent _ _ Hk1). simpl.
    rewrite String.eqb_refl, deepDiff_leaf_edit by assumption.
    rewrite (@lhs_props_nil deepDiff (pre ++ (k, r) :: post) post).
    + rewrite rhs_only_known; [reflexivity|].
      intros kv Hin. rewrite keys_app. simpl.
      apply in_app_or in Hin. apply in_or_app.
      destruct Hin as [Hin | [<- | Hin]];
        [left; now apply in_map | right; now left | right; right; now apply in_map].
    + rewrite Forall_forall in *. intros kv Hin p. apply deepDiff_refl. auto.
    + intros [k0 x] Hin. simpl.
      assert (Hk0 : In k0 (keys post)) by (apply (in_map fst _ _ Hin)).
      rewrite obj_get_app, obj_get_absent; simpl.
      * destruct (String.eqb_spec k0 k) as [->|Hne]; [contradiction|].
        apply obj_get_In; [|exact Hin].
        apply distinct_NoDup. now apply NoDup_app_remove_l in Hpp.
      * intro Hin'. exact (NoDup_app_disjoint _ _ Hpp k0 Hin' Hk0).
  - rewrite Forall_forall in *. intros kv Hin p. apply deepDiff_refl. auto.
  - intros [k0 x] Hin. simpl. apply obj_get_app_l.
    apply obj_get_In; [|exact Hin].
    apply distinct_NoDup. now apply NoDup_app_remove_r in Hpp.
Qed.

End TypeChange.

Lemma step_edit `{RT : Runtime} (opts : options) (a : Base.acc) (k : string)
  (l r : json) :
  Base.shouldIgnoreField opts k = false ->
  Base.step opts a (DiffEdit [Key k] l r) = Returned (Base.push_modified a k l r).
Proof. intros H. unfold Base.step. simpl. now rewrite H. Qed.

Section TypeChangeLaw.
Context {RT : Runtime}.
Variable opts : options.











Variable tol : tolerances.







End TypeChangeLaw.




(** A string that becomes a number is a type change for the base body
    comparison; the tolerant one, under the default tolerances, takes the
    two values for one instant and lists the difference nowhere. *)
Example tolerated_difference_is_not_listed :
  let b := Base.compareResponseBodies default_options
             (Some created_as_string) (Some created_as_number) in
  let t := Tolerant.compareResponseBodies (RT := TestRuntime.runtime)
             default_options default_tolerances
             (Some created_as_string) (Some created_as_number) in
  typeChanged b
  = [{| i_path := "createdAt"; i_reason := "Type changed from string to number" |}]
  /\ modified t = [] /\ incompatible t = [] /\ tolerated t = 1 /\ total t = 0.
Proof. vm_compute. repeat split. Qed.

(** With the verifier that holds tolerances, the interaction whose
    description changes from a string to an object is recorded as an
    error. *)
Example type_change_under_tolerant_replay :
  interactionResults
    (Replay.replayAgainstContract (fun _ => Returned description_replayed)
       Tolerant.compareResponses
       [{| i_timestamp := "2023-01-01T12:00:00Z"; i_requestHash := "";
           i_request := order_request; i_response := description_original |}])
  = [Errored order_request
       "Cannot read properties of undefined (reading 'statusCode')"].
Proof. reflexivity. Qed.

(** ** Strict mode and timestamps *)



(** The session of one interaction answered 500 for a recorded 200, and the
    one whose instant is spelled with milliseconds in the replay: both are
    recorded as errors. *)
Example strict_mode_on_two_sessions :
  map an_result
    (t_interactionResults
       (Summary.replayAgainstContract answers_500 Tolerant.compareResponses
          status_only_session))
  = [Errored order_request
       "Cannot read properties of undefined (reading 'statusCode')"]
  /\ toleratedChanges
       (t_summary
          (Summary.replayAgainstContract answers_with_millis
             Tolerant.compareResponses same_instant_session)) = 0.
Proof. split; reflexivity. Qed.

(** C7, where the code leaves the claim.  The field [timestamp] holds 0 on
    one side and 1 on the other: both are detected as timestamps, they
    convert to 0 ms and 1000 ms, which is within the drift of 5 s, and they
    are not equivalent, because [!time1] rejects the converted 0. *)
Theorem epoch_zero_failing_input :
  let tol := default_tolerances in
  Tolerant.isLikelyTimestamp (RT := TestRuntime.runtime) tol "timestamp" (JNum 0) = true
  /\ Tolerant.isLikelyTimestamp (RT := TestRuntime.runtime) tol "timestamp" (JNum 1) = true
  /\ Tolerant.toTimestamp (RT := TestRuntime.runtime) (JNum 0) = Some 0
  /\ Tolerant.toTimestamp (RT := TestRuntime.runtime) (JNum 1) = Some 1000
  /\ (inject_Z (Z.abs (0 - 1000)) <= timestampDriftSeconds tol * 1000)%Q
  /\ Tolerant.areValuesEquivalent (RT := TestRuntime.runtime) tol "timestamp"
       (JNum 0) (JNum 1) = false.
Proof. vm_compute. repeat split; discriminate. Qed.

Section TimestampFacts.
Context {RT : Runtime}.
Variable tol : tolerances.

(** Apart from a converted 0, two convertible timestamps are equivalent
    exactly when their distance in milliseconds is within the drift. *)
Lemma areTimestampsEquivalent_within_drift (a b : json) (t1 t2 : Z) :
  Tolerant.toTimestamp a = Some t1 -> Tolerant.toTimestamp b = Some t2 ->
  t1 <> 0 -> t2 <> 0 ->
  Tolerant.areTimestampsEquivalent tol a b = true
  <-> (inject_Z (Z.abs (t1 - t2)) <= timestampDriftSeconds tol * 1000)%Q.
Proof.
  intros E1 E2 N1 N2. unfold Tolerant.areTimestampsEquivalent.
  rewrite E1, E2. simpl.
  apply Z.eqb_neq in N1. apply Z.eqb_neq in N2. rewrite N1, N2. simpl.
  rewrite Qle_bool_iff. split; intros H.
  - assert (E : (inject_Z (Z.abs (t1 - t2))
                 == inject_Z (Z.abs (t1 - t2)) / 1000 * 1000)%Q) by field.
    rewrite E. apply Qmult_le_compat_r; [exact H | discriminate].
  - apply Qle_shift_div_r; [reflexivity | exact H].
Qed.

Lemma toTimestamp_number (n : Z) :
  Tolerant.toTimestamp (JNum n) = Some (if n <? 4102444800 then n * 1000 else n).
Proof. reflexivity. Qed.

End TimestampFacts.

(** An ISO-8601 string and the epoch milliseconds of the same instant are
    equivalent under the default tolerances. *)
Example iso_and_epoch_millis_equivalent :
  Tolerant.areValuesEquivalent (RT := TestRuntime.runtime) default_tolerances
    "createdAt" (JStr "2023-01-01T12:00:00Z") (JNum 1672574400000) = true.
Proof. reflexivity. Qed.

Lemma areTimestampsEquivalent_within_drift_witness :
  Tolerant.areTimestampsEquivalent (RT := TestRuntime.runtime) default_tolerances
    (JStr "2023-01-01T12:00:00Z") (JNum 1672574400000) = true
  <-> (inject_Z (Z.abs (1672574400000 - 1672574400000))
       <= timestampDriftSeconds default_tolerances * 1000)%Q.
Proof.
  apply (@areTimestampsEquivalent_within_drift TestRuntime.runtime default_tolerances
           (JStr "2023-01-01T12:00:00Z") (JNum 1672574400000)
           1672574400000 1672574400000);
    [reflexivity | reflexivity | lia | lia].
Defined.

(** ** Redaction at capture time *)

Section RedactionFacts.
Context {RT : Runtime}.
Variable ropts : recorder_options.

Lemma obj_get_set (k k' : string) (v : json) (o : obj) :
  obj_get k' (obj_set k v o) = if (k' =? k)%string then Some v else obj_get k' o.
Proof.
  induction o as [|[k0 v0] o IH]; simpl.
  - reflexivity.
  - destruct (String.eqb_spec k k0) as [->|Hne]; simpl.
    + now destruct (k' =? k0)%string.
    + rewrite IH. destruct (String.eqb_spec k' k0) as [->|Hne'];
        [|reflexivity].
      destruct (String.eqb_spec k0 k) as [->|]; [contradiction | reflexivity].
Qed.

Lemma keys_set_present (k : string) (v : json) (o : obj) :
  In k (keys o) -> keys (obj_set k v o) = keys o.
Proof.
  induction o as [|[k0 v0] o IH]; simpl; [contradiction|].
  destruct (String.eqb_spec k k0) as [->|Hne]; simpl; [reflexivity|].
  intros [E | Hin]; [congruence | now rewrite IH].
Qed.

Lemma obj_get_present (k : string) (o : obj) (v : json) :
  obj_get k o = Some v -> In k (keys o).
Proof.
  induction o as [|[k0 v0] o IH]; simpl; [discriminate|].
  destruct (String.eqb_spec k k0) as [->|Hne]; [now left | right; auto].
Qed.

Lemma redact_headers_spec (hs : list string) :
  forall acc,
    keys (redact_headers hs acc) = keys acc
    /\ forall k,
         obj_get k (redact_headers hs acc) =
         if existsb (String.eqb k) hs && truthy_opt (obj_get k acc)
         then Some REDACTED else obj_get k acc.
Proof.
  induction hs as [|h hs IH]; intros acc; simpl.
  - split; [reflexivity|]. intros k. reflexivity.
  - destruct (truthy_opt (obj_get h acc)) eqn:Et.
    + destruct (IH (obj_set h REDACTED acc)) as [Hk Hg]. split.
      * rewrite Hk. apply keys_set_present.
        destruct (obj_get h acc) as [v|] eqn:Eg; [|discriminate].
        eapply obj_get_present; eassumption.
      * intros k. rewrite Hg, obj_get_set.
        destruct (String.eqb_spec k h) as [->|Hne]; simpl.
        -- rewrite Et. now destruct (existsb _ hs).
        -- reflexivity.
    + destruct (IH acc) as [Hk Hg]. split; [exact Hk|].
      intros k. rewrite Hg.
      destruct (String.eqb_spec k h) as [->|Hne]; simpl; [|reflexivity].
      rewrite Et. now rewrite andb_false_r.
Qed.

(** [filterSensitiveHeaders] keeps the header names, redacts the sensitive
    headers that hold a truthy value, and leaves every other value. *)
Lemma filterSensitiveHeaders_spec (headers : obj) :
  distinct (keys headers) = true ->
  keys (Recorder.filterSensitiveHeaders ropts headers) = keys headers
  /\ forall k,
       obj_get k (Recorder.filterSensitiveHeaders ropts headers) =
       if existsb (String.eqb k) (sensitiveHeaders ropts)
          && truthy_opt (obj_get k headers)
       then Some REDACTED else obj_get k headers.
Proof.
  intros Hd. unfold Recorder.filterSensitiveHeaders.
  rewrite (assign_all_id _ Hd).
  exact (redact_headers_spec (sensitiveHeaders ropts) headers).
Qed.

Lemma forallb_mapi_from {A : Type} (f : nat -> A -> bool) (l : list A) :
  Forall (fun x => forall i, f i x = true) l ->
  forall i, forallb (fun b => b) (mapi_from f i l) = true.
Proof.
  induction 1 as [|x l Hx Hl IH]; intros i; simpl; [reflexivity|].
  now rewrite Hx, IH.
Qed.

Lemma mapi_from_mapi_from {A B C : Type} (f : nat -> A -> B) (g : nat -> B -> C)
  (l : list A) (i : nat) :
  mapi_from g i (mapi_from f i l) = mapi_from (fun j x => g j (f j x)) i l.
Proof. revert i. induction l as [|x l IH]; intros i; simpl; [reflexivity|]. now rewrite IH. Qed.

(** After [sanitizeData] every sensitive key holds the marker. *)
Lemma sanitizeData_all_redacted (data : json) :
  all_redacted (Recorder.sensitive ropts) (Recorder.sanitizeData ropts data) = true.
Proof.
  unfold Recorder.sanitizeData.
  induction data as [| b | n | s | l IH | o IH] using json_ind'; try reflexivity.
  - rewrite recursiveSanitize_arr. simpl. rewrite mapi_from_mapi_from.
    apply forallb_mapi_from. rewrite Forall_forall in *. intros x Hin i.
    destruct (Recorder.sensitive ropts (Str.of_nat i)); [reflexivity | auto].
  - rewrite recursiveSanitize_obj. simpl. rewrite forallb_forall.
    rewrite Forall_forall in IH. intros kv Hin.
    apply in_map_iff in Hin. destruct Hin as [kv0 [<- Hin]]. simpl.
    destruct (Recorder.sensitive ropts (fst kv0)); [reflexivity | auto].
Qed.

Lemma obj_get_map (f : string -> json -> json) (k : string) (o : obj) :
  obj_get k (map (fun kv => (fst kv, f (fst kv) (snd kv))) o)
  = option_map (f k) (obj_get k o).
Proof.
  induction o as [|[k0 v0] o IH]; simpl; [reflexivity|].
  destruct (String.eqb_spec k k0) as [->|Hne]; [reflexivity | exact IH].
Qed.

Lemma nth_error_mapi_from {A B : Type} (f : nat -> A -> B) (l : list A) (i n : nat) :
  nth_error (mapi_from f i l) n = option_map (f (i + n)%nat) (nth_error l n).
Proof.
  revert i n. induction l as [|x l IH]; intros i [|n]; simpl; try reflexivity.
  - now rewrite Nat.add_0_r.
  - rewrite IH. now rewrite Nat.add_succ_comm.
Qed.

(** A field reached through keys that are not sensitive is the sanitised
    original: the same primitive, or the same container sanitised inside. *)
Lemma sanitizeData_elsewhere (p : list seg) :
  forall data,
    forallb (fun s => negb (seg_sensitive ropts s)) p = true ->
    get_path p (Recorder.sanitizeData ropts data)
    = option_map (Recorder.sanitizeData ropts) (get_path p data).
Proof.
  unfold Recorder.sanitizeData.
  induction p as [|[k | i] p IH]; intros data Hp; [reflexivity | |];
    simpl in Hp; apply andb_true_iff in Hp; destruct Hp as [Hs Hp];
    apply negb_true_iff in Hs; unfold seg_sensitive in Hs; simpl in Hs.
  - destruct data; try reflexivity.
    rewrite recursiveSanitize_obj. cbn [get_path].
    rewrite (obj_get_map
               (fun key x => if Recorder.sensitive ropts key then REDACTED
                             else Recorder.recursiveSanitize ropts x)).
    destruct (obj_get k l) as [x|]; simpl; [|reflexivity].
    rewrite Hs. now apply IH.
  - destruct data; try reflexivity.
    rewrite recursiveSanitize_arr. cbn [get_path].
    rewrite nth_error_mapi_from. simpl.
    destruct (nth_error l i) as [x|]; simpl; [|reflexivity].
    rewrite Hs. now apply IH.
Qed.

Lemma sanitize_primitive (v : json) :
  is_container v = false -> Recorder.sanitizeData ropts v = v.
Proof. now destruct v. Qed.

End RedactionFacts.

(** C10 (amended).  What the recorder stores for a request: method and
    path as received; the header names as received, with the value of each
    sensitive header (authorization, cookie, set-cookie) that holds a
    truthy value replaced by "[REDACTED]" and every other header value
    unchanged (a sensitive header whose value is empty keeps it); a body in
    which every field whose key contains a sensitive word (case-insensitive)
    holds "[REDACTED]", at any depth, and every field reached through keys
    that are not sensitive is the received one, sanitised inside. *)
Theorem captureRequest_redacts (ropts : recorder_options) (req : request) :
  distinct (keys (req_headers req)) = true ->
  let captured := Recorder.captureRequest ropts req in
  cr_method captured = req_method req
  /\ cr_path captured = req_path req
  /\ (forall filtered,
         cr_headers captured = Some filtered ->
         keys filtered = keys (req_headers req)
         /\ forall k,
              obj_get k filtered =
              if existsb (String.eqb k) (sensitiveHeaders ropts)
                 && truthy_opt (obj_get k (req_headers req))
              then Some REDACTED else obj_get k (req_headers req))
  /\ (forall body,
         cr_body captured = Some body ->
         all_redacted (Recorder.sensitive ropts) body = true
         /\ exists received,
              req_body req = Some received
              /\ forall p,
                   forallb (fun s => negb (seg_sensitive ropts s)) p = true ->
                   get_path p body
                   = option_map (Recorder.sanitizeData ropts) (get_path p received)).
Proof.
  intros Hd captured. subst captured. unfold Recorder.captureRequest. simpl.
  repeat split.
  - destruct (includeHeaders ropts); [|discriminate].
    inversion H; subst. now apply filterSensitiveHeaders_spec.
  - destruct (includeHeaders ropts); [|discriminate].
    inversion H; subst. now apply filterSensitiveHeaders_spec.
  - destruct (req_body req) as [b|]; [|discriminate].
    destruct (includeBody ropts && truthy b); [|discriminate].
    inversion H; subst. apply sanitizeData_all_redacted.
  - destruct (req_body req) as [b|]; [|discriminate].
    destruct (includeBody ropts && truthy b); [|discriminate].
    inversion H; subst. exists b. split; [reflexivity|].
    intros p Hp. now apply sanitizeData_elsewhere.
Qed.

Example login_request_captured :
  Recorder.captureRequest default_recorder_options login_request
  = {| cr_method := "POST"; cr_path := "/api/login"; cr_query := JObj [];
       cr_headers := Some [("authorization", REDACTED); ("accept", JStr "*/*")];
       cr_body :=
         Some (JObj [("user", JStr "ann");
                     ("Password", REDACTED);
                     ("profile", JObj [("apiKey", REDACTED); ("city", JStr "Oslo")])]) |}.
Proof. reflexivity. Qed.

Lemma captureRequest_redacts_witness :
  let captured := Recorder.captureRequest default_recorder_options login_request in
  cr_method captured = "POST"
  /\ cr_path captured = "/api/login"
  /\ (forall filtered,
         cr_headers captured = Some filtered ->
         keys filtered = ["authorization"; "accept"]
         /\ forall k,
              obj_get k filtered =
              if existsb (String.eqb k) ["authorization"; "cookie"; "set-cookie"]
                 && truthy_opt (obj_get k (req_headers login_request))
              then Some REDACTED else obj_get k (req_headers login_request))
  /\ (forall body,
         cr_body captured = Some body ->
         all_redacted (Recorder.sensitive default_recorder_options) body = true
         /\ exists received,
              req_body login_request = Some received
              /\ forall p,
                   forallb (fun s => negb (seg_sensitive default_recorder_options s)) p
                   = true ->
                   get_path p body
                   = option_map (Recorder.sanitizeData default_recorder_options)
                       (get_path p received)).
Proof.
  exact (captureRequest_redacts default_recorder_options login_request eq_refl).
Defined.

(** C10, the claim as stated fails: a sensitive header that arrives with an
    empty value is stored as it came, not as "[REDACTED]". *)
Lemma empty_authorization_counterexample :
  cr_headers
    (Recorder.captureRequest default_recorder_options
       {| req_method := "GET"; req_path := "/api/products"; req_query := None;
          req_headers := [("authorization", JStr "")];
          req_body := None; req_params := None |})
  = Some [("authorization", JStr "")]
  /\ JStr "" <> REDACTED.
Proof. split; [reflexivity | discriminate]. Qed.

(** ** Templates *)

(** C9, where the code leaves the claim.  A template without placeholders
    that holds an array: the array is compiled as an object, so rendering
    returns an object keyed by the indices in its place, for every
    context. *)
Theorem array_template_failing_input `{RT : Runtime} (context : json) :
  placeholder_free tags_template = true
  /\ exists c,
       Template.compile tags_template = Returned c
       /\ Template.render (Some c) context
          = Returned (JObj [("status", JStr "ok");
                            ("tags", JObj [("0", JStr "a"); ("1", JStr "b")])])
       /\ Template.render (Some c) context <> Returned tags_template.
Proof.
  split; [reflexivity|]. eexists. split; [reflexivity|].
  split; [reflexivity | discriminate].
Qed.

Section TemplateFacts.
Context {RT : Runtime}.
Variable context : json.

Lemma call_ObjectFn (slots : list (string * Template.compiled)) :
  Template.call context (Template.ObjectFn slots) =
  Template.bind (Template.fill (Template.call context) slots [])
    (fun result => Returned (JObj result)).
Proof. reflexivity. Qed.

Lemma slot_call (c : Template.compiled) :
  match c with
  | Template.Static v => Returned v
  | _ => Template.call context c
  end = Template.call context c.
Proof. now destruct c. Qed.

Lemma fill_cons (kv : string * Template.compiled)
  (slots : list (string * Template.compiled)) (result : obj) :
  Template.fill (Template.call context) (kv :: slots) result =
  Template.bind (Template.call context (snd kv))
    (fun v => Template.fill (Template.call context) slots (obj_set (fst kv) v result)).
Proof. simpl. now rewrite slot_call. Qed.

Lemma compile_value_obj (o : obj) :
  Template.compile_value (JObj o) =
  Template.ObjectFn (assign_all (map_values Template.compile_value o)).
Proof. reflexivity. Qed.

Lemma fill_returns (o : obj) :
  Forall (fun kv => Template.call context (Template.compile_value (snd kv))
                    = Returned (snd kv)) o ->
  forall result,
    Template.fill (Template.call context) (map_values Template.compile_value o) result
    = Returned (fold_left (fun acc kv => obj_set (fst kv) (snd kv) acc) o result).
Proof.
  induction 1 as [|kv o Hkv Ho IH]; intros result; [reflexivity|].
  unfold map_values in *. cbn [map]. rewrite fill_cons. cbn [fst snd].
  rewrite Hkv. cbn [Template.bind]. apply IH.
Qed.

(** A template without arrays and without placeholders renders to itself. *)
Lemma call_compile_value_static (v : json) :
  wf_json v -> array_free v = true -> placeholder_free v = true ->
  Template.call context (Template.compile_value v) = Returned v.
Proof.
  induction v as [| b | n | s | l IH | o IH] using json_ind';
    intros Hwf Ha Hp; try reflexivity.
  - simpl in Hp. simpl. apply negb_true_iff in Hp. now rewrite Hp.
  - discriminate.
  - apply wf_obj in Hwf. destruct Hwf as [Hd Hall].
    rewrite compile_value_obj, assign_all_id
      by (unfold keys in *; now rewrite keys_map_values).
    rewrite call_ObjectFn, fill_returns.
    + cbn [Template.bind]. f_equal. f_equal. now apply assign_all_id.
    + simpl in Ha, Hp. rewrite forallb_forall in Ha, Hp.
      rewrite Forall_forall in *. intros kv Hin. auto.
Qed.

End TemplateFacts.

(** For an object template without arrays and placeholders, [compile] then
    [render] returns the template, for every context. *)
Lemma render_static_object_template `{RT : Runtime} (o : obj) (context : json) :
  wf_json (JObj o) -> array_free (JObj o) = true -> placeholder_free (JObj o) = true ->
  exists c,
    Template.compile (JObj o) = Returned c
    /\ Template.render (Some c) context = Returned (JObj o).
Proof.
  intros Hwf Ha Hp. eexists. split; [reflexivity|].
  unfold Template.render. now apply call_compile_value_static.
Qed.

Lemma render_static_object_template_witness :
  exists c,
    Template.compile (JObj [("status", JStr "ok"); ("data", JObj [("n", JNum 1)])])
    = Returned c
    /\ Template.render (RT := TestRuntime.runtime) (Some c) (JObj [])
       = Returned (JObj [("status", JStr "ok"); ("data", JObj [("n", JNum 1)])]).
Proof.
  apply (@render_static_object_template TestRuntime.runtime
           [("status", JStr "ok"); ("data", JObj [("n", JNum 1)])] (JObj []));
    reflexivity.
Defined.

Section RenderErrors.
Context {RT : Runtime}.




Variable opts : options.
Variable r : Template.resolver.
Variable targetBaseUrl : string.
Variable compareResponses : response -> response -> comparison.






End RenderErrors.

Section PropertyNames.
Context {RT : Runtime}.
Variable context : json.




End PropertyNames.



(** A helper nobody registered, called with an argument: Handlebars raises,
    the interaction is recorded as an error and counted. *)
Example missing_helper_is_an_error :
  let res :=
    Replay.replayAgainstContract
      (Template.replayRequest (RT := TestRuntime.runtime) default_options
         missing_helper_resolver "http://localhost")
      (Base.compare (RT := TestRuntime.runtime) default_options)
      missing_helper_session in
  Template.compile (JObj [("id", JStr "{{missing 1}}")])
  = Returned (Template.template missing_helper_route)
  /\ interactionResults res
     = [Errored get_user
          ("Missing helper: " ++ TestRuntime.Json.quote "missing")%string]
  /\ s_errors (r_summary res) = 1.
Proof. vm_compute. repeat split. Qed.



(** A placeholder in a property name never reaches Handlebars: it is
    emitted as it is, with no error. *)
Example placeholder_in_property_name :
  exists c,
    Template.compile (JObj [("{{uuid}}", JNum 1)]) = Returned c
    /\ Template.render (RT := TestRuntime.runtime) (Some c) (JObj [])
       = Returned (JObj [("{{uuid}}", JNum 1)]).
Proof. eexists. split; reflexivity. Qed.

(** ** The differ on unchanged, ignored and removed parts *)

Section DifferFacts.
Context {RT : Runtime}.
Variable opts : options.

Lemma prefix_app (p s : string) : String.prefix p (p ++ s) = true.
Proof.
  induction p as [|a p IH]; simpl; [now destruct s|].
  destruct (ascii_dec a a) as [_|Hne]; [exact IH | now elim Hne].
Qed.

(** Every difference deep-diff reports below a path carries that path as a
    prefix of its own. *)
Lemma deepDiff_paths (l : json) :
  forall path r d, In d (deepDiff path l r) -> exists rest, diff_path d = path ++ rest.
Proof.
  assert (Htail : forall path mk xs i d,
             In d (tail_items path mk i xs) -> diff_path d = path).
  { intros path mk xs. induction xs as [|x xs IH]; intros i d Hin; [destruct Hin|].
    simpl in Hin. apply in_app_or in Hin. destruct Hin as [Hin | [<- | []]];
      [now apply IH in Hin | reflexivity]. }
  assert (Hprim : forall v path r d,
             is_container v = false -> In d (deepDiff path v r) -> diff_path d = path).
  { intros v path r d Hl Hin.
    assert (H : deepDiff path v r = [] \/ deepDiff path v r = [DiffEdit path v r]).
    { destruct v; try discriminate; cbn [deepDiff];
        (destruct (negb _); [now right|]);
        destruct r; try (now right); destruct (strict_eq _ _); auto. }
    destruct H as [H | H]; rewrite H in Hin; [destruct Hin|].
    destruct Hin as [<- | []]. reflexivity. }
  induction l as [| b | n | s | l IH | o IH] using json_ind'; intros path r d Hin;
    try (apply Hprim in Hin; [|reflexivity]; exists []; now rewrite app_nil_r).
  - (* arrays *)
    cbn [deepDiff] in Hin.
    destruct (negb (realTypeOf (JArr l) =? realTypeOf r)%string).
    { destruct Hin as [<- | []]. exists []. now rewrite app_nil_r. }
    destruct r as [| | | | r | ];
      try (cbn in Hin; destruct Hin as [<- | []]; exists []; now rewrite app_nil_r).
    apply in_app_or in Hin. destruct Hin as [Hin | Hin].
    { apply Htail in Hin. exists []. now rewrite app_nil_r. }
    apply in_app_or in Hin. destruct Hin as [Hin | Hin].
    { apply Htail in Hin. exists []. now rewrite app_nil_r. }
    clear Htail. revert r Hin. generalize O.
    induction IH as [|x l Hx Hl IHl]; intros i r Hin; [destruct Hin|].
    destruct r as [|y r]; [destruct Hin|]. cbn [common_elems] in Hin.
    apply in_app_or in Hin. destruct Hin as [Hin | Hin].
    + now apply IHl in Hin.
    + apply Hx in Hin. destruct Hin as [rest ->]. exists (Idx i :: rest).
      now rewrite <- app_assoc.
  - (* objects *)
    cbn [deepDiff] in Hin.
    destruct (negb (realTypeOf (JObj o) =? realTypeOf r)%string).
    { destruct Hin as [<- | []]. exists []. now rewrite app_nil_r. }
    destruct r as [| | | | | r];
      try (cbn in Hin; destruct Hin as [<- | []]; exists []; now rewrite app_nil_r).
    apply in_app_or in Hin. destruct Hin as [Hin | Hin].
    + clear Htail. induction IH as [|kv o Hkv Ho IHo]; [destruct Hin|].
      cbn [lhs_props] in Hin. apply in_app_or in Hin. destruct Hin as [Hin | Hin];
        [|now apply IHo].
      destruct (obj_get (fst kv) r) as [y|].
      * apply Hkv in Hin. destruct Hin as [rest ->]. exists (Key (fst kv) :: rest).
        now rewrite <- app_assoc.
      * destruct Hin as [<- | []]. now exists [Key (fst kv)].
    + unfold rhs_only in Hin. apply in_flat_map in Hin.
      destruct Hin as [kv [_ Hin]].
      destruct (existsb _ _); [destruct Hin|].
      destruct (fst kv =? "")%string; [destruct Hin|].
      destruct Hin as [<- | []]. now exists [Key (fst kv)].
Qed.

Lemma string_app_assoc (a b c : string) : ((a ++ b) ++ c = a ++ (b ++ c))%string.
Proof. induction a as [|x a IH]; simpl; [reflexivity | now rewrite IH]. Qed.

(** A path that starts with the field [k] is [k] or starts with [k.]. *)
Lemma path_join_under (k : string) (rest : list seg) :
  exists p, path_join (Key k :: rest) = Returned p
            /\ ((p =? k)%string || Str.startsWith p (k ++ ".")%string = true).
Proof.
  eexists. split; [reflexivity|]. unfold Str.join. cbn [map seg_string].
  destruct (map seg_string rest) as [|x xs] eqn:E.
  - cbn [String.concat]. now rewrite String.eqb_refl.
  - apply orb_true_iff. right. unfold Str.startsWith.
    change (String.concat "." (k :: x :: xs))
      with (k ++ ("." ++ String.concat "." (x :: xs)))%string.
    rewrite <- string_app_assoc. apply prefix_app.
Qed.

Lemma shouldIgnoreField_under (k : string) (rest : list seg) :
  In (PatString k) (ignoreFields opts) ->
  exists p, path_join (Key k :: rest) = Returned p
            /\ Base.shouldIgnoreField opts p = true.
Proof.
  intros Hin. destruct (path_join_under k rest) as [p [Hp Hk]].
  exists p. split; [exact Hp|]. unfold Base.shouldIgnoreField.
  apply existsb_exists. exists (PatString k). split; [exact Hin | exact Hk].
Qed.

(** Differences that all lie under an ignored field leave the accumulators
    as they are. *)
Lemma forEach_ignored (k : string) (ds : list diff) :
  In (PatString k) (ignoreFields opts) ->
  (forall d, In d ds -> exists rest, diff_path d = Key k :: rest) ->
  forall a, Base.forEach opts a ds = Returned a.
Proof.
  intros Hin. induction ds as [|d ds IH]; intros Hds a; [reflexivity|].
  cbn [Base.forEach]. unfold Base.step.
  destruct (Hds d (or_introl eq_refl)) as [rest ->].
  destruct (shouldIgnoreField_under k rest Hin) as [p [-> ->]].
  apply IH. intros d' Hd'. apply Hds. now right.
Qed.

(** Two objects that differ in the value of one key differ by what
    deep-diff finds between the two values. *)
Lemma deepDiff_field (path : list seg) (pre post : obj) (k : string) (l r : json) :
  wf_json (JObj (pre ++ (k, l) :: post)) ->
  deepDiff path (JObj (pre ++ (k, l) :: post)) (JObj (pre ++ (k, r) :: post))
  = deepDiff (path ++ [Key k]) l r.
Proof.
  intros Hwf. apply wf_obj in Hwf. destruct Hwf as [Hd Hall].
  apply distinct_NoDup in Hd. rewrite keys_app in Hd. simpl in Hd.
  assert (Hk1 : ~ In k (keys pre)).
  { intro Hin. apply NoDup_remove_2 in Hd. apply Hd, in_or_app. now left. }
  assert (Hpp : NoDup (keys pre ++ keys post)) by now apply NoDup_remove_1 in Hd.
  apply Forall_app in Hall. destruct Hall as [Hpre Hpost].
  inversion Hpost as [|? ? Hl Hpost']; subst.
  cbn [deepDiff realTypeOf typeof]. cbn [String.eqb Ascii.eqb Bool.eqb negb].
  rewrite lhs_props_app. cbn [lhs_props fst snd].
  rewrite (@lhs_props_nil deepDiff (pre ++ (k, r) :: post) pre).
  - rewrite obj_get_app, (obj_get_absent _ _ Hk1). cbn [obj_get].
    rewrite String.eqb_refl.
    rewrite (@lhs_props_nil deepDiff (pre ++ (k, r) :: post) post).
    + rewrite rhs_only_known; [now rewrite !app_nil_r|].
      intros kv Hin. rewrite keys_app. simpl.
      apply in_app_or in Hin. apply in_or_app.
      destruct Hin as [Hin | [<- | Hin]];
        [left; now apply in_map | right; now left | right; right; now apply in_map].
    + rewrite Forall_forall in *. intros kv Hin p. apply deepDiff_refl. auto.
    + intros [k0 x] Hin. simpl.
      assert (Hk0 : In k0 (keys post)) by (apply (in_map fst _ _ Hin)).
      rewrite obj_get_app, obj_get_absent; simpl.
      * destruct (String.eqb_spec k0 k) as [->|Hne].
        { exfalso. apply NoDup_remove_2 in Hd. apply Hd, in_or_app. now right. }
        apply obj_get_In; [|exact Hin].
        apply distinct_NoDup. now apply NoDup_app_remove_l in Hpp.
      * intro Hin'. exact (NoDup_app_disjoint _ _ Hpp k0 Hin' Hk0).
  - rewrite Forall_forall in *. intros kv Hin p. apply deepDiff_refl. auto.
  - intros [k0 x] Hin. simpl. apply obj_get_app_l.
    apply obj_get_In; [|exact Hin].
    apply distinct_NoDup. now apply NoDup_app_remove_r in Hpp.
Qed.

(** An object that loses one key differs by that deletion. *)
Lemma deepDiff_field_removed (path : list seg) (pre post : obj) (k : string) (v : json) :
  wf_json (JObj (pre ++ (k, v) :: post)) ->
  deepDiff path (JObj (pre ++ (k, v) :: post)) (JObj (pre ++ post))
  = [DiffDeleted (path ++ [Key k]) v].
Proof.
  intros Hwf. apply wf_obj in Hwf. destruct Hwf as [Hd Hall].
  apply distinct_NoDup in Hd. rewrite keys_app in Hd. simpl in Hd.
  assert (Hk1 : ~ In k (keys pre)).
  { intro Hin. apply NoDup_remove_2 in Hd. apply Hd, in_or_app. now left. }
  assert (Hk2 : ~ In k (keys post)).
  { intro Hin. apply NoDup_remove_2 in Hd. apply Hd, in_or_app. now right. }
  assert (Hpp : NoDup (keys pre ++ keys post)) by now apply NoDup_remove_1 in Hd.
  apply Forall_app in Hall. destruct Hall as [Hpre Hpost].
  inversion Hpost as [|? ? Hl Hpost']; subst.
  cbn [deepDiff realTypeOf typeof]. cbn [String.eqb Ascii.eqb Bool.eqb negb].
  rewrite lhs_props_app. cbn [lhs_props fst snd].
  rewrite (@lhs_props_nil deepDiff (pre ++ post) pre).
  - rewrite obj_get_app, (obj_get_absent _ _ Hk1), (obj_get_absent _ _ Hk2).
    rewrite (@lhs_props_nil deepDiff (pre ++ post) post).
    + rewrite rhs_only_known; [reflexivity|].
      intros kv Hin. rewrite keys_app. simpl.
      apply in_app_or in Hin. apply in_or_app.
      destruct Hin as [Hin | Hin];
        [left; now apply in_map | right; right; now apply in_map].
    + rewrite Forall_forall in *. intros kv Hin p. apply deepDiff_refl. auto.
    + intros [k0 x] Hin. simpl.
      assert (Hk0 : In k0 (keys post)) by (apply (in_map fst _ _ Hin)).
      rewrite obj_get_app, obj_get_absent.
      * apply obj_get_In; [|exact Hin].
        apply distinct_NoDup. now apply NoDup_app_remove_l in Hpp.
      * intro Hin'. exact (NoDup_app_disjoint _ _ Hpp k0 Hin' Hk0).
  - rewrite Forall_forall in *. intros kv Hin p. apply deepDiff_refl. auto.
  - intros [k0 x] Hin. simpl. apply obj_get_app_l.
    apply obj_get_In; [|exact Hin].
    apply distinct_NoDup. now apply NoDup_app_remove_r in Hpp.
Qed.

End DifferFacts.

Section VerdictFacts.
Context {RT : Runtime}.
Variable opts : options.

Lemma compareResponseBodies_same (b : option json) :
  wf_opt b -> Base.compareResponseBodies opts b b = Base.no_diffs.
Proof.
  destruct b as [v|]; [|reflexivity]. intros Hwf. simpl in Hwf.
  unfold Base.compareResponseBodies. rewrite String.eqb_refl. cbn [negb].
  destruct (Base.primitive_or_null v v) eqn:E.
  - rewrite strict_eq_refl; [reflexivity|].
    destruct v; try reflexivity; discriminate E.
  - unfold diff_of. now rewrite deepDiff_refl.
Qed.

Lemma normalized_header_not_ignored (h : option obj) (k : string) :
  In k (keys (Base.or_empty (option_map (Base.normalizeHeaders opts) h))) ->
  ~ In k (ignoreHeaders opts).
Proof.
  destruct h as [h|]; [|intros []]. cbn [option_map Base.or_empty].
  intros Hin Hign. apply keys_normalizeHeaders in Hin.
  destruct Hin as [k0 [_ [<- Hkept]]]. unfold kept_header in Hkept.
  apply negb_true_iff in Hkept.
  assert (H : existsb (String.eqb (Str.toLowerCase k0)) (ignoreHeaders opts) = true)
    by now apply existsb_eqb_In.
  congruence.
Qed.

(** The names [compareHeaders] reports are names of the headers it is
    given. *)
Lemma compareHeaders_names (oh rh : option obj) (k : string) :
  let h := Base.compareHeaders oh rh in
  (In k (h_added h) -> In k (keys (Base.or_empty rh)))
  /\ (In k (h_removed h) -> In k (keys (Base.or_empty oh)))
  /\ (In k (map (fun m => fst (fst m)) (h_modified h)) ->
      In k (keys (Base.or_empty oh))).
Proof.
  unfold Base.compareHeaders. cbn [h_added h_removed h_modified].
  split; [|split].
  - intros H. now apply filter_In in H.
  - intros H. now apply filter_In in H.
  - intros H. apply in_map_iff in H. destruct H as [[[k0 x] y] [<- H]].
    apply in_flat_map in H. destruct H as [k1 [Hk1 H]].
    destruct (_ && _); [|destruct H].
    destruct (obj_get k1 _) as [x'|]; [|destruct H].
    destruct (obj_get k1 _) as [y'|]; [|destruct H].
    destruct H as [H | []]. injection H as <- _ _. exact Hk1.
Qed.

End VerdictFacts.

(** Replaying against an API that answers exactly what was recorded: with
    the base verifier (for a body without duplicate keys) the status
    matches, no header is added or removed, the body comparison reports
    nothing and the interaction is compatible; and the body comparison of
    the tolerant verifier reports nothing for any body compared with
    itself. *)
Theorem unchanged_response_is_compatible `{RT : Runtime} (opts : options)
  (tol : tolerances) (r : response) :
  (wf_opt (res_body (Base.normalizeForComparison opts r)) ->
   statusMatch (Base.compareResponses opts r r) = true
   /\ h_added (c_headerDiffs (Base.compareResponses opts r r)) = []
   /\ h_removed (c_headerDiffs (Base.compareResponses opts r r)) = []
   /\ c_bodyDiffs (Base.compareResponses opts r r) = Base.no_diffs
   /\ isCompatible (Base.compareResponses opts r r) = true)
  /\ Tolerant.compareResponseBodies opts tol (res_body r) (res_body r)
     = Base.no_diffs.
Proof.
  destruct (compareHeaders_same (res_headers (Base.normalizeForComparison opts r)))
    as [Ha Hr].
  split.
  - intros Hwf. unfold Base.compareResponses.
    cbn [statusMatch c_headerDiffs c_bodyDiffs isCompatible].
    rewrite Z.eqb_refl, Ha, Hr, (compareResponseBodies_same opts _ Hwf).
    repeat split.
  - apply tolerant_compareResponseBodies_same.
Qed.

Lemma unchanged_response_is_compatible_witness :
  isCompatible
    (Base.compareResponses (RT := TestRuntime.runtime) default_options
       (mkResponse 200 (Some [("Content-Type", JStr "application/json")])
          (Some (JObj [("id", JNum 1); ("tags", JArr [JStr "a"; JStr "b"])])))
       (mkResponse 200 (Some [("Content-Type", JStr "application/json")])
          (Some (JObj [("id", JNum 1); ("tags", JArr [JStr "a"; JStr "b"])]))))
  = true.
Proof.
  apply (proj1 (unchanged_response_is_compatible (RT := TestRuntime.runtime)
                  default_options default_tolerances
                  (mkResponse 200 (Some [("Content-Type", JStr "application/json")])
                     (Some (JObj [("id", JNum 1);
                                  ("tags", JArr [JStr "a"; JStr "b"])]))))).
  reflexivity.
Defined.

(** A header whose name is listed in [ignoreHeaders] is never reported as
    added, removed or modified, whatever the two responses are. *)
Theorem ignored_headers_never_reported `{RT : Runtime} (opts : options)
  (original replayed : response) (k : string) :
  In k (ignoreHeaders opts) ->
  let h := c_headerDiffs (Base.compareResponses opts original replayed) in
  ~ In k (h_added h)
  /\ ~ In k (h_removed h)
  /\ ~ In k (map (fun m => fst (fst m)) (h_modified h)).
Proof.
  intros Hign h. subst h. unfold Base.compareResponses.
  cbn [c_headerDiffs].
  set (oh := res_headers (Base.normalizeForComparison opts original)).
  set (rh := res_headers (Base.normalizeForComparison opts replayed)).
  destruct (compareHeaders_names oh rh k) as [H1 [H2 H3]].
  repeat split.
  - intros H. apply H1 in H.
    exact (normalized_header_not_ignored opts (res_headers replayed) k H Hign).
  - intros H. apply H2 in H.
    exact (normalized_header_not_ignored opts (res_headers original) k H Hign).
  - intros H. apply H3 in H.
    exact (normalized_header_not_ignored opts (res_headers original) k H Hign).
Qed.

Lemma ignored_headers_never_reported_witness :
  let h := c_headerDiffs
             (Base.compareResponses (RT := TestRuntime.runtime) default_options
                (mkResponse 200 (Some [("ETag", JStr "1")]) None)
                (mkResponse 200 (Some [("Date", JStr "now")]) None)) in
  ~ In "etag" (h_added h)
  /\ ~ In "etag" (h_removed h)
  /\ ~ In "etag" (map (fun m => fst (fst m)) (h_modified h)).
Proof.
  apply (ignored_headers_never_reported (RT := TestRuntime.runtime) default_options
           (mkResponse 200 (Some [("ETag", JStr "1")]) None)
           (mkResponse 200 (Some [("Date", JStr "now")]) None) "etag").
  simpl. tauto.
Defined.

(** Two object bodies go to deep-diff as they are. *)
Lemma compareResponseBodies_of_objects (opts : options) (o r : obj) :
  Base.compareResponseBodies opts (Some (JObj o)) (Some (JObj r)) =
  match Base.forEach opts Base.acc0 (diff_of (JObj o) (JObj r)) with
  | Returned a =>
      {| added := Base.acc_added a; removed := Base.acc_removed a;
         modified := Base.acc_modified a;
         incompatible := Base.acc_incompatible a; tolerated := 0;
         total := len (Base.acc_added a) + len (Base.acc_removed a)
                  + len (Base.acc_modified a) |}
  | Thrown m => Base.root_incompatible ("Comparison error: " ++ m)%string
  end.
Proof. reflexivity. Qed.

(** Whatever changes under a field listed in [ignoreFields] (another
    value, another type, fields removed inside it) or the removal of the
    field itself, the body comparison reports nothing. *)
Theorem ignored_field_hides_every_difference (opts : options)
  (pre post : obj) (k : string) (v1 v2 : json) :
  In (PatString k) (ignoreFields opts) ->
  wf_json (JObj (pre ++ (k, v1) :: post)) ->
  Base.compareResponseBodies opts (Some (JObj (pre ++ (k, v1) :: post)))
    (Some (JObj (pre ++ (k, v2) :: post))) = Base.no_diffs
  /\ Base.compareResponseBodies opts (Some (JObj (pre ++ (k, v1) :: post)))
       (Some (JObj (pre ++ post))) = Base.no_diffs.
Proof.
  intros Hin Hwf. split; rewrite compareResponseBodies_of_objects; unfold diff_of.
  - rewrite (@deepDiff_field [] pre post k v1 v2 Hwf).
    rewrite (@forEach_ignored opts k _ Hin); [reflexivity|].
    intros d Hd. apply deepDiff_paths in Hd. exact Hd.
  - rewrite (@deepDiff_field_removed [] pre post k v1 Hwf).
    rewrite (@forEach_ignored opts k _ Hin); [reflexivity|].
    intros d [<- | []]. now exists [].
Qed.

Lemma ignored_field_hides_every_difference_witness :
  let opts := {| ignoreHeaders := []; ignoreFields := [PatString "meta"];
                 useDynamicResponses := false |} in
  Base.compareResponseBodies opts
    (Some (JObj ([("id", JNum 1)] ++ ("meta", JObj [("v", JNum 1)]) :: [])))
    (Some (JObj ([("id", JNum 1)] ++ ("meta", JStr "none") :: []))) = Base.no_diffs
  /\ Base.compareResponseBodies opts
       (Some (JObj ([("id", JNum 1)] ++ ("meta", JObj [("v", JNum 1)]) :: [])))
       (Some (JObj ([("id", JNum 1)] ++ []))) = Base.no_diffs.
Proof.
  apply (ignored_field_hides_every_difference
           {| ignoreHeaders := []; ignoreFields := [PatString "meta"];
              useDynamicResponses := false |}
           [("id", JNum 1)] [] "meta" (JObj [("v", JNum 1)]) (JStr "none"));
    [simpl; tauto | reflexivity].
Defined.

Lemma step_deleted (opts : options) (a : Base.acc) (k : string) (v : json) :
  Base.shouldIgnoreField opts k = false ->
  Base.step opts a (DiffDeleted [Key k] v)
  = Returned (Base.push_removed a k "Field was removed" v).
Proof. intros H. unfold Base.step. simpl. now rewrite H. Qed.

(** A field of the recorded body that the replayed body no longer has,
    and that is not ignored, is listed as removed with the incompatibility
    "Field was removed", and the interaction is incompatible, whatever the
    status and the headers. *)
Theorem removed_field_is_incompatible `{RT : Runtime} (opts : options)
  (s1 s2 : Z) (h1 h2 : option obj) (pre post : obj) (k : string) (v : json) :
  wf_json (JObj (pre ++ (k, v) :: post)) ->
  Base.shouldIgnoreField opts k = false ->
  let c := Base.compareResponses opts
             (mkResponse s1 h1 (Some (JObj (pre ++ (k, v) :: post))))
             (mkResponse s2 h2 (Some (JObj (pre ++ post)))) in
  removed (c_bodyDiffs c) = [{| r_path := k; r_value := v |}]
  /\ incompatible (c_bodyDiffs c)
     = [{| i_path := k; i_reason := "Field was removed" |}]
  /\ added (c_bodyDiffs c) = []
  /\ total (c_bodyDiffs c) = 1
  /\ isCompatible c = false.
Proof.
  intros Hwf Hign c. subst c. unfold Base.compareResponses.
  cbn [c_bodyDiffs isCompatible res_body Base.normalizeForComparison mkResponse].
  rewrite compareResponseBodies_of_objects. unfold diff_of.
  rewrite (@deepDiff_field_removed [] pre post k v Hwf).
  cbn [Base.forEach app]. rewrite (@step_deleted opts _ k v Hign).
  cbn. repeat split. now rewrite !andb_false_r.
Qed.

Lemma removed_field_is_incompatible_witness :
  let c := Base.compareResponses (RT := TestRuntime.runtime) default_options
             (mkResponse 200 None
                (Some (JObj ([("id", JNum 1)] ++ ("price", JNum 10) :: []))))
             (mkResponse 200 None (Some (JObj ([("id", JNum 1)] ++ [])))) in
  removed (c_bodyDiffs c) = [{| r_path := "price"; r_value := JNum 10 |}]
  /\ incompatible (c_bodyDiffs c)
     = [{| i_path := "price"; i_reason := "Field was removed" |}]
  /\ added (c_bodyDiffs c) = []
  /\ total (c_bodyDiffs c) = 1
  /\ isCompatible c = false.
Proof.
  apply (removed_field_is_incompatible (RT := TestRuntime.runtime) default_options
           200 200 None None [("id", JNum 1)] [] "price" (JNum 10));
    reflexivity.
Defined.

(** ** Scores, thresholds and batches *)

Section ScoreFacts.

Lemma filter_le {A : Type} (p : A -> bool) (l : list A) :
  0 <= len (filter p l) <= len l.
Proof.
  unfold len. split; [lia|]. apply inj_le. apply filter_length_le.
Qed.

Lemma filter_all {A : Type} (p : A -> bool) (l : list A) :
  len (filter p l) = len l <-> forallb p l = true.
Proof.
  unfold len. induction l as [|x l IH]; simpl; [tauto|].
  destruct (p x); simpl.
  - rewrite <- IH. lia.
  - pose proof (filter_length_le p l). split; [lia | discriminate].
Qed.

Lemma score_range (c t : Z) : 0 <= c <= t -> (0 <= Replay.score c t <= 100)%Q.
Proof.
  intros H. unfold Replay.score. destruct (0 <? t) eqn:E.
  - apply Z.ltb_lt in E. destruct t as [|p|p]; try lia.
    unfold Qle, Qdiv, Qmult, Qinv, inject_Z. simpl.
    rewrite ?Pos.mul_1_l, ?Pos.mul_1_r, ?Z.mul_1_r. split; nia.
  - split; [apply Qle_refl | discriminate].
Qed.

Lemma score_full (c t : Z) :
  0 <= c <= t -> ((100 <= Replay.score c t)%Q <-> 0 < t /\ c = t).
Proof.
  intros H. unfold Replay.score. destruct (0 <? t) eqn:E.
  - apply Z.ltb_lt in E. destruct t as [|p|p]; try lia.
    unfold Qle, Qdiv, Qmult, Qinv, inject_Z. simpl.
    rewrite ?Pos.mul_1_l, ?Pos.mul_1_r, ?Z.mul_1_r. split; [intros; split; nia | nia].
  - apply Z.ltb_ge in E. split; [intros H0; exfalso; now apply H0 | lia].
Qed.

Variable replayRequest : request -> outcome response.
Variable compareResponses : response -> response -> outcome comparison.

(** The counters of a replayed session, as numbers of results. *)
Lemma replay_counts (session : list interaction) :
  let r := Replay.replayAgainstContract replayRequest compareResponses session in
  s_total (r_summary r) = len (interactionResults r)
  /\ len (interactionResults r) = len session
  /\ s_compatible (r_summary r) = len (filter is_compatible_result (interactionResults r))
  /\ s_incompatible (r_summary r)
     = len (filter is_incompatible_result (interactionResults r))
  /\ s_errors (r_summary r) = len (filter is_error_result (interactionResults r))
  /\ compatibilityScore (r_summary r)
     = Replay.score (s_compatible (r_summary r)) (s_total (r_summary r)).
Proof.
  intros r. subst r. unfold Replay.replayAgainstContract.
  destruct (@replay_loop_counted replayRequest compareResponses session
              ([], Replay.counters0)) as [[Ht [Hc [Hi He]]] Hlen].
  { repeat split. }
  destruct (fold_left _ session _) as [rs n]. simpl in *.
  repeat split; try assumption; rewrite Hlen; unfold len; simpl; lia.
Qed.

Variable generateDiffReport : string -> results -> outcome string.
Variable originalSessions : list (string * list interaction).

Lemma verifyCompatibility_score (sessionId : string) (o : verifyOptions)
  (v : verification) :
  Verify.verifyCompatibility replayRequest compareResponses generateDiffReport
    originalSessions sessionId o = Returned v ->
  exists session,
    map_get sessionId originalSessions = Some session
    /\ v_compatibilityScore v
       = compatibilityScore
           (r_summary (Replay.replayAgainstContract replayRequest compareResponses
                         session))
    /\ v_meetsThreshold v = Qle_bool (threshold o) (v_compatibilityScore v).
Proof.
  unfold Verify.verifyCompatibility, Verify.replayAgainstContract.
  destruct (map_get sessionId originalSessions) as [session|]; [|discriminate].
  intros H. exists session. split; [reflexivity|].
  destruct (generateReport o).
  - destruct (generateDiffReport _ _); [|discriminate].
    injection H as <-. split; reflexivity.
  - injection H as <-. split; reflexivity.
Qed.

Lemma batch_loop (o : verifyOptions) (ids : list string) :
  forall rs n,
    fold_left (Verify.verify_one replayRequest compareResponses generateDiffReport
                 originalSessions o) ids (rs, n)
    = (rs ++ map (entry_of replayRequest compareResponses generateDiffReport
                    originalSessions o) ids,
       {| Verify.t_passed :=
            Verify.t_passed n
            + len (filter is_passed
                     (map (entry_of replayRequest compareResponses generateDiffReport
                             originalSessions o) ids));
          Verify.t_failed :=
            Verify.t_failed n
            + (len ids
               - len (filter is_passed
                        (map (entry_of replayRequest compareResponses
                                generateDiffReport originalSessions o) ids))) |}).
Proof.
  induction ids as [|id ids IH]; intros rs n.
  - simpl. rewrite app_nil_r. destruct n. unfold len. simpl. f_equal. f_equal; lia.
  - cbn [fold_left map]. unfold Verify.verify_one at 2. unfold entry_of at 1 3 5.
    destruct (Verify.verifyCompatibility _ _ _ _ id _) as [v | m].
    + rewrite IH, <- app_assoc. cbn [app filter is_passed].
      destruct (v_meetsThreshold v); cbn [Verify.t_passed Verify.t_failed];
        f_equal; f_equal; unfold len; simpl List.length; lia.
    + rewrite IH, <- app_assoc. cbn [app filter is_passed].
      cbn [Verify.t_passed Verify.t_failed].
      f_equal; f_equal; unfold len; simpl List.length; lia.
Qed.

Lemma Qsum_from (l : list Q) : forall a, (fold_left Qplus l a == a + Verify.Qsum l)%Q.
Proof.
  unfold Verify.Qsum. induction l as [|x l IH]; intros a; simpl.
  - now rewrite Qplus_0_r.
  - rewrite (IH (a + x)%Q), (IH (0 + x)%Q). ring.
Qed.

Lemma Qsum_range (l : list Q) :
  Forall (fun x => (0 <= x <= 100)%Q) l ->
  (0 <= Verify.Qsum l <= 100 * inject_Z (len l))%Q.
Proof.
  induction 1 as [|x l [Hx0 Hx1] Hl [IH0 IH1]].
  - unfold Verify.Qsum, len. simpl. split; [apply Qle_refl | discriminate].
  - unfold Verify.Qsum. simpl. rewrite Qsum_from.
    assert (E : (inject_Z (len (x :: l)) == 1 + inject_Z (len l))%Q).
    { unfold len. simpl List.length. rewrite Nat2Z.inj_succ, <- Z.add_1_l.
      now rewrite inject_Z_plus. }
    rewrite E. split.
    + rewrite Qplus_0_l. rewrite <- (Qplus_0_r 0). now apply Qplus_le_compat.
    + rewrite Qplus_0_l.
      setoid_replace (100 * (1 + inject_Z (len l)))%Q
        with (100 + 100 * inject_Z (len l))%Q by ring.
      now apply Qplus_le_compat.
Qed.

Lemma scores_range (o : verifyOptions) (ids : list string) :
  Forall (fun x => (0 <= x <= 100)%Q)
    (Verify.scores (map (entry_of replayRequest compareResponses generateDiffReport
                           originalSessions o) ids)).
Proof.
  induction ids as [|id ids IH]; [constructor|].
  cbn [map Verify.scores flat_map]. fold (Verify.scores).
  unfold entry_of at 1.
  destruct (Verify.verifyCompatibility _ _ _ _ id _) as [v | m] eqn:E; [|exact IH].
  cbn [app]. constructor; [|exact IH].
  apply verifyCompatibility_score in E. destruct E as [session [_ [-> _]]].
  destruct (replay_counts session) as [Ht [_ [Hc [_ [_ ->]]]]].
  apply score_range. rewrite Hc, Ht. apply filter_le.
Qed.

End ScoreFacts.

(** What [verifyCompatibility] returns for a loaded session: a score
    between 0 and 100; [meetsThreshold] says whether the score reaches the
    threshold; with the default threshold of 100 it holds exactly when the
    session is not empty and every interaction was judged compatible (an
    empty session scores 0 and fails). *)
Theorem verifyCompatibility_threshold
  (replayRequest : request -> outcome response)
  (compareResponses : response -> response -> outcome comparison)
  (generateDiffReport : string -> results -> outcome string)
  (originalSessions : list (string * list interaction))
  (sessionId : string) (o : verifyOptions) (v : verification) :
  Verify.verifyCompatibility replayRequest compareResponses generateDiffReport
    originalSessions sessionId o = Returned v ->
  exists session,
    map_get sessionId originalSessions = Some session
    /\ (0 <= v_compatibilityScore v <= 100)%Q
    /\ (v_meetsThreshold v = true <-> (threshold o <= v_compatibilityScore v)%Q)
    /\ ((threshold o == 100)%Q ->
        (v_meetsThreshold v = true
         <-> session <> []
             /\ forallb is_compatible_result
                  (interactionResults
                     (Replay.replayAgainstContract replayRequest compareResponses
                        session)) = true)).
Proof.
  intros H. apply verifyCompatibility_score in H.
  destruct H as [session [Hs [Hscore Hmeets]]]. exists session.
  destruct (replay_counts replayRequest compareResponses session)
    as [Ht [Hlen [Hc [_ [_ Hsc]]]]].
  pose proof (filter_le is_compatible_result
                (interactionResults
                   (Replay.replayAgainstContract replayRequest compareResponses
                      session))) as Hle.
  rewrite <- Hc, <- Ht in Hle.
  split; [exact Hs|]. split; [rewrite Hscore, Hsc; now apply score_range|].
  split; [rewrite Hmeets; apply Qle_bool_iff|].
  intros H100. rewrite Hmeets, Qle_bool_iff, H100, Hscore, Hsc.
  rewrite (score_full Hle), Hc, Ht, filter_all, Hlen.
  split; intros [H1 H2]; (split; [|exact H2]).
  - intros ->. unfold len in H1. simpl in H1. lia.
  - destruct session; [contradiction | unfold len; simpl; lia].
Qed.

Lemma verifyCompatibility_threshold_witness :
  exists session,
    map_get "s1" [("s1", status_only_session)] = Some session
    /\ (0 <= 0 <= 100)%Q
    /\ (false = true <-> (100 <= 0)%Q)
    /\ ((100 == 100)%Q ->
        (false = true
         <-> session <> []
             /\ forallb is_compatible_result
                  (interactionResults
                     (Replay.replayAgainstContract answers_500
                        (Base.compare (RT := TestRuntime.runtime)
                           default_options)
                        session)) = true)).
Proof.
  apply (@verifyCompatibility_threshold answers_500
           (Base.compare (RT := TestRuntime.runtime) default_options)
           (fun _ _ => Returned "diff-reports/report.json")
           [("s1", status_only_session)] "s1" default_verifyOptions
           {| v_sessionId := "s1"; v_compatibilityScore := 0;
              v_meetsThreshold := false; v_threshold := 100;
              v_reportPath := Some "diff-reports/report.json" |}).
  reflexivity.
Defined.

(** [batchVerify] keeps one entry per session id, in order; [total] is the
    number of ids and every id is counted once, as passed or as failed; a
    session that was not loaded is an error entry counted as failed; the
    overall score is between 0 and 100. *)
Theorem batchVerify_summary
  (replayRequest : request -> outcome response)
  (compareResponses : response -> response -> outcome comparison)
  (generateDiffReport : string -> results -> outcome string)
  (originalSessions : list (string * list interaction))
  (sessionIds : list string) (o : verifyOptions) :
  b_results (Verify.batchVerify replayRequest compareResponses generateDiffReport
               originalSessions sessionIds o)
  = map (entry_of replayRequest compareResponses generateDiffReport
           originalSessions o) sessionIds
  /\ b_total (b_summary (Verify.batchVerify replayRequest compareResponses
                           generateDiffReport originalSessions sessionIds o))
     = len sessionIds
  /\ b_passed (b_summary (Verify.batchVerify replayRequest compareResponses
                            generateDiffReport originalSessions sessionIds o))
     = len (filter is_passed
              (b_results (Verify.batchVerify replayRequest compareResponses
                            generateDiffReport originalSessions sessionIds o)))
  /\ b_passed (b_summary (Verify.batchVerify replayRequest compareResponses
                            generateDiffReport originalSessions sessionIds o))
     + b_failed (b_summary (Verify.batchVerify replayRequest compareResponses
                              generateDiffReport originalSessions sessionIds o))
     = len sessionIds
  /\ (0 <= b_overallScore
             (b_summary (Verify.batchVerify replayRequest compareResponses
                           generateDiffReport originalSessions sessionIds o))
      <= 100)%Q
  /\ (forall sessionId,
        In sessionId sessionIds ->
        map_get sessionId originalSessions = None ->
        In (Failed sessionId
              ("Session " ++ sessionId ++ " not found. Make sure to load it first."))
           (b_results (Verify.batchVerify replayRequest compareResponses
                         generateDiffReport originalSessions sessionIds o))).
Proof.
  unfold Verify.batchVerify. rewrite batch_loop.
  cbn [b_results b_summary b_total b_passed b_failed b_overallScore app
       Verify.t_passed Verify.t_failed].
  split; [reflexivity|]. split; [reflexivity|].
  split; [cbn; lia|]. split; [cbn; lia|].
  set (es := map _ sessionIds). change ([] ++ es) with es.
  split.
  - pose proof (scores_range replayRequest compareResponses generateDiffReport
                  originalSessions o sessionIds) as Hr.
    fold es in Hr. apply Qsum_range in Hr. destruct Hr as [H0 H1].
    destruct (0 <? len (Verify.scores es)) eqn:E;
      [|split; [apply Qle_refl | discriminate]].
    apply Z.ltb_lt in E.
    assert (Hpos : (0 < inject_Z (len (Verify.scores es)))%Q)
      by (rewrite <- (Zlt_Qlt 0); exact E).
    split.
    + apply Qle_shift_div_l; [exact Hpos | now rewrite Qmult_0_l].
    + apply Qle_shift_div_r; [exact Hpos | exact H1].
  - intros sessionId Hin Hnone. subst es. apply in_map_iff. exists sessionId.
    split; [|exact Hin]. unfold entry_of, Verify.verifyCompatibility,
      Verify.replayAgainstContract. now rewrite Hnone.
Qed.

Lemma batchVerify_summary_witness :
  In (Failed "s2" "Session s2 not found. Make sure to load it first.")
    (b_results
       (Verify.batchVerify answers_500
          (Base.compare (RT := TestRuntime.runtime) default_options)
          (fun _ _ => Returned "diff-reports/report.json")
          [("s1", status_only_session)] ["s1"; "s2"] default_verifyOptions)).
Proof.
  apply (proj2 (proj2 (proj2 (proj2 (proj2
           (batchVerify_summary answers_500
              (Base.compare (RT := TestRuntime.runtime) default_options)
              (fun _ _ => Returned "diff-reports/report.json")
              [("s1", status_only_session)] ["s1"; "s2"] default_verifyOptions))))));
    [simpl; tauto | reflexivity].
Defined.

Section EffectiveScore.
Variable replayRequest : request -> outcome response.
Variable compareResponses : response -> response -> outcome comparison.

Lemma tolerated_interactions_le (rs : list interactionResult) :
  (List.length (filter Summary.toleratedInteraction (map Summary.annotate rs))
   <= List.length (filter is_incompatible_result rs))%nat.
Proof.
  induction rs as [|r rs IH]; [simpl; lia|].
  cbn [map filter]. destruct r as [rq o p c | rq e].
  - unfold Summary.toleratedInteraction at 1. cbn [Summary.annotate an_result
      an_effectiveChanges is_incompatible_result].
    destruct (isCompatible c); cbn [negb andb]; [exact IH|].
    destruct (_ =? 0); simpl; lia.
  - unfold Summary.toleratedInteraction at 1. cbn. exact IH.
Qed.

Lemma score_mono (c c' t : Z) :
  0 <= c <= c' -> (Replay.score c t <= Replay.score c' t)%Q.
Proof.
  intros H. unfold Replay.score. destruct (0 <? t) eqn:E; [|apply Qle_refl].
  apply Z.ltb_lt in E. destruct t as [|p|p]; try lia.
  unfold Qle, Qdiv, Qmult, Qinv, inject_Z. simpl.
  rewrite ?Pos.mul_1_l, ?Pos.mul_1_r, ?Z.mul_1_r. nia.
Qed.

End EffectiveScore.

(** After [updateVerificationSummary]: the interactions counted as
    effectively compatible are the compatible ones and some of the
    incompatible ones, never an errored one; so the effective score is at
    least the compatibility score and at most 100. *)
Theorem effective_score_bounds
  (replayRequest : request -> outcome response)
  (compareResponses : response -> response -> outcome comparison)
  (session : list interaction) :
  let t := t_summary (Summary.replayAgainstContract replayRequest compareResponses
                        session) in
  let s := base_summary t in
  s = r_summary (Replay.replayAgainstContract replayRequest compareResponses session)
  /\ effectiveCompatible t <= s_compatible s + s_incompatible s
  /\ effectiveCompatible t <= s_total s - s_errors s
  /\ (session <> [] -> s_compatible s <= effectiveCompatible t)
  /\ (compatibilityScore s <= effectiveCompatibilityScore t)%Q
  /\ (effectiveCompatibilityScore t <= 100)%Q.
Proof.
  intros t s. subst s t. unfold Summary.replayAgainstContract,
    Summary.updateVerificationSummary.
  cbn [t_summary base_summary effectiveCompatible effectiveCompatibilityScore].
  set (r := Replay.replayAgainstContract replayRequest compareResponses session).
  destruct (replay_counts replayRequest compareResponses session)
    as [Ht [Hlen [Hc [Hi [He Hsc]]]]]. fold r in Ht, Hlen, Hc, Hi, He, Hsc.
  pose proof (tolerated_interactions_le (interactionResults r)) as Htol.
  pose proof (len_partition (interactionResults r)) as Hp.
  pose proof (filter_le is_compatible_result (interactionResults r)) as Hcl.
  pose proof (filter_le is_incompatible_result (interactionResults r)) as Hil.
  pose proof (filter_le is_error_result (interactionResults r)) as Hel.
  set (n := len (filter Summary.toleratedInteraction
                   (map Summary.annotate (interactionResults r)))) in *.
  assert (Hn : 0 <= n <= s_incompatible (r_summary r)).
  { subst n. rewrite Hi. unfold len. lia. }
  split; [reflexivity|].
  assert (E : s_total (r_summary r)
              = s_compatible (r_summary r) + s_incompatible (r_summary r)
                + s_errors (r_summary r)) by lia.
  destruct (0 <? s_total (r_summary r)) eqn:Epos.
  - apply Z.ltb_lt in Epos.
    split; [lia|]. split; [lia|]. split; [lia|].
    assert (Es : forall c, (inject_Z c / inject_Z (s_total (r_summary r)) * 100)%Q
                           = Replay.score c (s_total (r_summary r))).
    { intros c. unfold Replay.score. apply Z.ltb_lt in Epos. now rewrite Epos. }
    rewrite Es, Hsc. split.
    + apply score_mono. lia.
    + apply score_range. lia.
  - apply Z.ltb_ge in Epos.
    split; [lia|]. split; [lia|].
    split; [intros Hne; destruct session; [contradiction|];
            unfold len in Hlen; simpl in Hlen; lia|].
    rewrite Hsc. unfold Replay.score.
    assert (Epos' : (0 <? s_total (r_summary r)) = false) by now apply Z.ltb_ge.
    rewrite Epos'. split; [apply Qle_refl | discriminate].
Qed.

(** ** The tolerance rules on values *)

Section ValueRules.
Context {RT : Runtime}.
Variable tol : tolerances.

Lemma includes_empty_hay (needle : string) :
  Str.includes "" needle = true -> needle = "".
Proof. destruct needle; [reflexivity | discriminate]. Qed.

Lemma toLowerCase_empty (s : string) : Str.toLowerCase s = "" -> s = "".
Proof. destruct s; [reflexivity | discriminate]. Qed.

(** Called with the empty key, as [areValuesEquivalent] does, the UUID test
    fails unless the empty string is listed among the UUID field names. *)
Lemma isLikelyUUID_empty_key (v : json) :
  ~ In "" (uuidFields tol) -> Tolerant.isLikelyUUID tol "" v = false.
Proof.
  intros Hnot. unfold Tolerant.isLikelyUUID.
  destruct v; try reflexivity.
  destruct (existsb _ _) eqn:E; [|reflexivity].
  apply existsb_exists in E. destruct E as [field [Hin Hinc]].
  apply includes_empty_hay, toLowerCase_empty in Hinc. subst field. contradiction.
Qed.

Lemma strict_eq_sym (a b : json) : strict_eq a b = strict_eq b a.
Proof.
  destruct a, b; try reflexivity; simpl.
  - now destruct b, b0.
  - apply Z.eqb_sym.
  - apply String.eqb_sym.
Qed.

Lemma areTimestampsEquivalent_sym (a b : json) :
  Tolerant.areTimestampsEquivalent tol a b = Tolerant.areTimestampsEquivalent tol b a.
Proof.
  unfold Tolerant.areTimestampsEquivalent. rewrite orb_comm.
  destruct (Tolerant.falsy_time (Tolerant.toTimestamp b)
            || Tolerant.falsy_time (Tolerant.toTimestamp a)); [reflexivity|].
  destruct (Tolerant.toTimestamp a) as [t1|], (Tolerant.toTimestamp b) as [t2|];
    try reflexivity.
  now replace (Z.abs (t2 - t1)) with (Z.abs (t1 - t2)) by lia.
Qed.

(** Two numbers read as seconds: their distance in seconds is what is
    compared with the drift. *)
Lemma seconds_within_drift (n1 n2 : Z) :
  n1 <> 0 -> n2 <> 0 -> n1 < 4102444800 -> n2 < 4102444800 ->
  Tolerant.areTimestampsEquivalent tol (JNum n1) (JNum n2)
  = Qle_bool (inject_Z (Z.abs (n1 - n2))) (timestampDriftSeconds tol).
Proof.
  intros N1 N2 L1 L2. unfold Tolerant.areTimestampsEquivalent.
  cbn [Tolerant.toTimestamp]. unfold Tolerant.toTimestamp_number.
  apply Z.ltb_lt in L1. apply Z.ltb_lt in L2. rewrite L1, L2.
  cbn [Tolerant.falsy_time].
  assert (E1 : (n1 * 1000 =? 0) = false) by (apply Z.eqb_neq; lia).
  assert (E2 : (n2 * 1000 =? 0) = false) by (apply Z.eqb_neq; lia).
  rewrite E1, E2. cbn [orb].
  assert (E : (inject_Z (Z.abs (n1 * 1000 - n2 * 1000)) / 1000
               == inject_Z (Z.abs (n1 - n2)))%Q).
  { replace (Z.abs (n1 * 1000 - n2 * 1000)) with (Z.abs (n1 - n2) * 1000) by lia.
    rewrite inject_Z_mult. field. }
  apply Bool.eq_iff_eq_true. rewrite !Qle_bool_iff. now rewrite E.
Qed.

End ValueRules.

(** [areValuesEquivalent] accepts two values exactly when they are strictly
    equal, or both look like timestamps and are within the drift.  Its
    third rule, for two UUID strings, tests them under the empty key and
    so never applies, unless the empty string is listed in [uuidFields]:
    two different UUIDs are not equivalent values. *)
Theorem areValuesEquivalent_rules `{RT : Runtime} (tol : tolerances) (path : string)
  (a b : json) :
  ~ In "" (uuidFields tol) ->
  Tolerant.areValuesEquivalent tol path a b
  = strict_eq a b
    || (Tolerant.isLikelyTimestamp tol path a && Tolerant.isLikelyTimestamp tol path b
        && Tolerant.areTimestampsEquivalent tol a b).
Proof.
  intros Hnot. unfold Tolerant.areValuesEquivalent.
  rewrite (isLikelyUUID_empty_key tol a Hnot).
  destruct (strict_eq a b); [reflexivity|].
  destruct (Tolerant.isLikelyTimestamp tol path a && Tolerant.isLikelyTimestamp tol path b);
    [reflexivity|].
  now rewrite !andb_false_r.
Qed.

Lemma areValuesEquivalent_rules_witness :
  Tolerant.areValuesEquivalent (RT := TestRuntime.runtime) default_tolerances
    "refs[0]" (JStr recorded_uuid) (JStr replayed_uuid)
  = strict_eq (JStr recorded_uuid) (JStr replayed_uuid)
    || (Tolerant.isLikelyTimestamp (RT := TestRuntime.runtime) default_tolerances
          "refs[0]" (JStr recorded_uuid)
        && Tolerant.isLikelyTimestamp (RT := TestRuntime.runtime) default_tolerances
             "refs[0]" (JStr replayed_uuid)
        && Tolerant.areTimestampsEquivalent (RT := TestRuntime.runtime)
             default_tolerances (JStr recorded_uuid) (JStr replayed_uuid)).
Proof.
  apply (@areValuesEquivalent_rules TestRuntime.runtime default_tolerances
           "refs[0]" (JStr recorded_uuid) (JStr replayed_uuid)).
  simpl. intuition discriminate.
Defined.

(** The verdict on two values does not depend on which one is the
    recorded one. *)
Theorem areValuesEquivalent_symmetric `{RT : Runtime} (tol : tolerances)
  (path : string) (a b : json) :
  Tolerant.areValuesEquivalent tol path a b
  = Tolerant.areValuesEquivalent tol path b a.
Proof.
  unfold Tolerant.areValuesEquivalent.
  rewrite (strict_eq_sym a b), (areTimestampsEquivalent_sym tol a b).
  rewrite (andb_comm (Tolerant.isLikelyTimestamp tol path a)).
  unfold Tolerant.both_strings. rewrite (andb_comm (typeof a =? "string")%string).
  destruct (strict_eq b a); [reflexivity|].
  destruct (_ && _); [reflexivity|].
  destruct (ignoreUUIDs tol); [|reflexivity]. cbn [andb].
  destruct ((typeof b =? "string")%string && (typeof a =? "string")%string);
    [|reflexivity].
  cbn [andb]. now rewrite andb_comm.
Qed.

(** Two numbers in a field whose name contains one of [timestampFields]
    (with the defaults: "at", "date", "time", ...) are read as seconds
    since the epoch: when both are different from 0 and below 4102444800
    they are equivalent exactly when they are equal or differ by at most
    [timestampDriftSeconds]. *)
Theorem numbers_in_timestamp_named_field `{RT : Runtime} (tol : tolerances)
  (path : string) (n1 n2 : Z) :
  existsb
    (fun field =>
       Str.includes (Str.toLowerCase (Str.last_segment path)) (Str.toLowerCase field))
    (timestampFields tol) = true ->
  n1 <> 0 -> n2 <> 0 -> n1 < 4102444800 -> n2 < 4102444800 ->
  (Tolerant.areValuesEquivalent tol path (JNum n1) (JNum n2) = true
   <-> n1 = n2 \/ (inject_Z (Z.abs (n1 - n2)) <= timestampDriftSeconds tol)%Q).
Proof.
  intros Hf N1 N2 L1 L2. unfold Tolerant.areValuesEquivalent.
  cbn [strict_eq]. unfold Tolerant.isLikelyTimestamp. rewrite Hf. cbn [orb andb].
  rewrite (seconds_within_drift tol N1 N2 L1 L2).
  destruct (n1 =? n2) eqn:E.
  - apply Z.eqb_eq in E. split; [now left | reflexivity].
  - apply Z.eqb_neq in E. rewrite Qle_bool_iff. split; [now right|].
    intros [H | H]; [contradiction | exact H].
Qed.

Lemma numbers_in_timestamp_named_field_witness :
  Tolerant.areValuesEquivalent (RT := TestRuntime.runtime) default_tolerances
    "product.rating" (JNum 4) (JNum 5) = true
  <-> 4 = 5 \/ (inject_Z (Z.abs (4 - 5)) <= timestampDriftSeconds default_tolerances)%Q.
Proof.
  apply (@numbers_in_timestamp_named_field TestRuntime.runtime
           default_tolerances "product.rating" 4 5); [reflexivity | lia | lia | lia | lia].
Defined.

(** So a rating that goes from 4 to 5 is a tolerated difference for the
    body comparison under the default tolerances. *)
Example rating_change_is_tolerated :
  let b := Tolerant.compareResponseBodies (RT := TestRuntime.runtime)
             default_options default_tolerances
             (Some (JObj [("rating", JNum 4)])) (Some (JObj [("rating", JNum 5)])) in
  modified b = [] /\ incompatible b = [] /\ tolerated b = 1 /\ total b = 0.
Proof. vm_compute. repeat split. Qed.

(** ** Sorting keys and arrays *)

Section KeySorting.

Lemma sorted_sort_by (V : Type) (l : list (string * V)) :
  StronglySorted key_le l -> NoDup (map fst l) -> sort_by by_key l = l.
Proof.
  intros Hs Hnd. apply sorted_perm_eq.
  - apply sort_by_sorted.
  - exact Hs.
  - apply sort_by_perm.
  - eapply Permutation_NoDup; [|exact Hnd].
    apply Permutation_map, Permutation_sym, sort_by_perm.
Qed.

Lemma map_values_fixed (f : json -> json) (l : obj) :
  Forall (fun kv => f (snd kv) = snd kv) l -> map_values f l = l.
Proof.
  unfold map_values. induction 1 as [|[k v] l H Hl IH]; simpl; [reflexivity|].
  simpl in H. now rewrite H, IH.
Qed.

(** The object [normalizeForHashing] builds: the entries sorted by key. *)
Lemma normalizeForHashing_sorted_entries (o : obj) :
  distinct (keys o) = true ->
  Recorder.normalizeForHashing (JObj o)
  = JObj (sort_by (by_key (V := json)) (map_values Recorder.normalizeForHashing o))
  /\ NoDup (map fst (sort_by (by_key (V := json))
                       (map_values Recorder.normalizeForHashing o))).
Proof.
  intros Hd.
  assert (Hnd : NoDup (map fst (sort_by (by_key (V := json))
                                  (map_values Recorder.normalizeForHashing o)))).
  { eapply Permutation_NoDup.
    - apply Permutation_map, Permutation_sym, sort_by_perm.
    - rewrite keys_map_values. now apply distinct_NoDup. }
  split; [|exact Hnd].
  rewrite normalizeForHashing_obj, assign_all_id; [reflexivity|].
  now apply distinct_NoDup.
Qed.

Lemma normalizeForHashing_idem (v : json) :
  wf_json v ->
  Recorder.normalizeForHashing (Recorder.normalizeForHashing v)
  = Recorder.normalizeForHashing v.
Proof.
  induction v as [| b | n | s | l IH | o IH] using json_ind'; intros Hwf;
    try reflexivity.
  - rewrite !normalizeForHashing_arr. f_equal. rewrite map_map.
    apply wf_arr in Hwf. apply map_ext_Forall.
    rewrite Forall_forall in *. auto.
  - apply wf_obj in Hwf. destruct Hwf as [Hd Hall].
    destruct (normalizeForHashing_sorted_entries o Hd) as [-> Hnd].
    set (S := sort_by (by_key (V := json))
                (map_values Recorder.normalizeForHashing o)) in *.
    assert (Hfix : Forall (fun kv => Recorder.normalizeForHashing (snd kv) = snd kv) S).
    { eapply Permutation_Forall; [apply Permutation_sym, sort_by_perm|].
      unfold map_values. rewrite Forall_forall in *. intros kv Hin.
      apply in_map_iff in Hin. destruct Hin as [kv0 [<- Hin]]. simpl. auto. }
    rewrite normalizeForHashing_obj, (map_values_fixed _ Hfix).
    rewrite (@sorted_sort_by json S (@sort_by_sorted json _) Hnd).
    rewrite assign_all_id; [reflexivity | now apply distinct_NoDup].
Qed.

(** The two sources sort keys with the same loop. *)
Lemma sortObjectKeys_is_normalizeForHashing (v : json) :
  Tolerant.sortObjectKeys v = Recorder.normalizeForHashing v.
Proof. reflexivity. Qed.

End KeySorting.

(** Key sorting is the same function in the recorder and in the verifier,
    and sorting again changes nothing: the sorted form of a value without
    duplicate keys is a fixed point, and two values that differ in key
    order only have the same sorted form. *)
Theorem key_sorting_is_canonical (v w : json) :
  wf_json v ->
  Tolerant.sortObjectKeys v = Recorder.normalizeForHashing v
  /\ Recorder.normalizeForHashing (Recorder.normalizeForHashing v)
     = Recorder.normalizeForHashing v
  /\ (key_reorder v w ->
      Recorder.normalizeForHashing v = Recorder.normalizeForHashing w).
Proof.
  intros Hwf. split; [apply sortObjectKeys_is_normalizeForHashing|].
  split; [now apply normalizeForHashing_idem|].
  intros H. now apply normalizeForHashing_key_order.
Qed.

Lemma key_sorting_is_canonical_witness :
  Tolerant.sortObjectKeys (JObj [("b", JNum 2); ("a", JObj [("d", JNull); ("c", JNull)])])
  = Recorder.normalizeForHashing
      (JObj [("b", JNum 2); ("a", JObj [("d", JNull); ("c", JNull)])])
  /\ Recorder.normalizeForHashing
       (Recorder.normalizeForHashing
          (JObj [("b", JNum 2); ("a", JObj [("d", JNull); ("c", JNull)])]))
     = Recorder.normalizeForHashing
         (JObj [("b", JNum 2); ("a", JObj [("d", JNull); ("c", JNull)])])
  /\ (key_reorder (JObj [("b", JNum 2); ("a", JObj [("d", JNull); ("c", JNull)])])
        (JObj [("a", JObj [("c", JNull); ("d", JNull)]); ("b", JNum 2)]) ->
      Recorder.normalizeForHashing
        (JObj [("b", JNum 2); ("a", JObj [("d", JNull); ("c", JNull)])])
      = Recorder.normalizeForHashing
          (JObj [("a", JObj [("c", JNull); ("d", JNull)]); ("b", JNum 2)])).
Proof.
  apply (@key_sorting_is_canonical
           (JObj [("b", JNum 2); ("a", JObj [("d", JNull); ("c", JNull)])])
           (JObj [("a", JObj [("c", JNull); ("d", JNull)]); ("b", JNum 2)])).
  reflexivity.
Defined.

Example sorted_keys_example :
  Recorder.normalizeForHashing
    (JObj [("b", JNum 2); ("a", JObj [("d", JNull); ("c", JNull)])])
  = JObj [("a", JObj [("c", JNull); ("d", JNull)]); ("b", JNum 2)].
Proof. reflexivity. Qed.

Section ArraySorting.
Variable A : Type.
Variable cmp : A -> A -> Z.
Variable P : A -> Prop.
Hypothesis cmp_total : forall x y, P x -> P y -> cmp_le cmp x y \/ cmp_le cmp y x.
Hypothesis cmp_trans :
  forall x y z, P x -> P y -> P z -> cmp_le cmp x y -> cmp_le cmp y z -> cmp_le cmp x z.
Hypothesis cmp_antisym : forall x y, P x -> P y -> cmp_le cmp x y -> cmp_le cmp y x -> x = y.

Lemma insert_by_sorted_gen (x : A) (l : list A) :
  P x -> Forall P l -> StronglySorted (cmp_le cmp) l ->
  StronglySorted (cmp_le cmp) (insert_by cmp x l).
Proof.
  intros Hx Hl Hs. induction Hs as [|y l Hs IH Hy]; simpl.
  - repeat constructor.
  - inversion Hl as [|? ? Py Pl]; subst.
    destruct (cmp x y <=? 0) eqn:E.
    + apply Z.leb_le in E. constructor; [now constructor|]. constructor; [exact E|].
      rewrite Forall_forall in *. intros z Hz.
      apply (cmp_trans Hx Py (Pl z Hz) E). now apply Hy.
    + apply Z.leb_gt in E. constructor; [now apply IH|].
      rewrite Forall_forall in *. intros z Hz.
      apply (Permutation_in _ (insert_by_perm cmp x l)) in Hz.
      destruct Hz as [<- | Hz]; [|now apply Hy].
      destruct (cmp_total Hx Py) as [H | H]; [unfold cmp_le in H; lia | exact H].
Qed.

Lemma sort_by_sorted_gen (l : list A) :
  Forall P l -> StronglySorted (cmp_le cmp) (sort_by cmp l).
Proof.
  induction 1 as [|x l Hx Hl IH]; [constructor|].
  apply insert_by_sorted_gen; [exact Hx | | exact IH].
  eapply Permutation_Forall; [apply Permutation_sym, sort_by_perm | exact Hl].
Qed.

Lemma sorted_perm_eq_gen (l1 : list A) :
  forall l2, StronglySorted (cmp_le cmp) l1 -> StronglySorted (cmp_le cmp) l2 ->
             Permutation l1 l2 -> Forall P l1 -> l1 = l2.
Proof.
  induction l1 as [|a l1 IH]; intros l2 H1 H2 Hp HP.
  - apply Permutation_nil in Hp. now subst.
  - destruct l2 as [|b l2];
      [apply Permutation_sym, Permutation_nil in Hp; discriminate|].
    assert (HP2 : Forall P (b :: l2)) by (eapply Permutation_Forall; eassumption).
    assert (Hab : a = b).
    { assert (Ha : In a (b :: l2)) by (apply (Permutation_in _ Hp); now left).
      assert (Hb : In b (a :: l1))
        by (apply (Permutation_in _ (Permutation_sym Hp)); now left).
      destruct Ha as [-> | Ha]; [reflexivity|].
      destruct Hb as [-> | Hb]; [reflexivity|].
      apply StronglySorted_inv in H1. destruct H1 as [_ H1].
      apply StronglySorted_inv in H2. destruct H2 as [_ H2].
      rewrite Forall_forall in H1, H2.
      apply cmp_antisym; [now inversion HP | now inversion HP2 | apply H1, Hb
                          | apply H2, Ha]. }
    subst b. f_equal.
    apply IH.
    + now apply StronglySorted_inv in H1.
    + now apply StronglySorted_inv in H2.
    + eapply Permutation_cons_inv; eassumption.
    + now inversion HP.
Qed.

Lemma sort_by_perm_eq (l1 l2 : list A) :
  Permutation l1 l2 -> Forall P l1 -> sort_by cmp l1 = sort_by cmp l2.
Proof.
  intros Hp HP.
  assert (HP2 : Forall P l2) by (eapply Permutation_Forall; eassumption).
  apply sorted_perm_eq_gen.
  - now apply sort_by_sorted_gen.
  - now apply sort_by_sorted_gen.
  - rewrite !sort_by_perm. exact Hp.
  - eapply Permutation_Forall; [apply Permutation_sym, sort_by_perm | exact HP].
Qed.

End ArraySorting.

Section ArrayOrder.
Context {RT : Runtime}.
Variable opts : options.
Variable tol : tolerances.
Hypothesis locale_total : forall a b, localeCompare a b <= 0 \/ localeCompare b a <= 0.
Hypothesis locale_trans :
  forall a b c, localeCompare a b <= 0 -> localeCompare b c <= 0 -> localeCompare a c <= 0.
Hypothesis locale_antisym :
  forall a b, localeCompare a b <= 0 -> localeCompare b a <= 0 -> a = b.

Lemma normalize_strings (path : string) (l : list json) :
  forallb is_string l = true ->
  map (Tolerant.normalizeForComparison opts tol path) l = l.
Proof.
  induction l as [|x l IH]; simpl; [reflexivity|]. intros H.
  apply andb_true_iff in H. destruct H as [Hx Hl].
  rewrite (IH Hl). destruct x; try discriminate. reflexivity.
Qed.

Lemma strings_primitive (l : list json) :
  forallb is_string l = true -> forallb Tolerant.is_primitive l = true.
Proof.
  induction l as [|x l IH]; simpl; [reflexivity|]. intros H.
  apply andb_true_iff in H. destruct H as [Hx Hl].
  rewrite (IH Hl). destruct x; try discriminate. reflexivity.
Qed.

(** Sorting two arrays of strings with the same elements gives the same
    array. *)
Lemma sortArray_strings (l1 l2 : list json) :
  forallb is_string l1 = true -> Permutation l1 l2 ->
  Tolerant.sortArray l1 = Tolerant.sortArray l2.
Proof.
  intros Hs Hp.
  assert (Hs2 : forallb is_string l2 = true).
  { apply forallb_forall. intros x Hx. rewrite forallb_forall in Hs.
    apply Hs. eapply Permutation_in; [apply Permutation_sym|]; eassumption. }
  unfold Tolerant.sortArray. rewrite <- (Permutation_length Hp).
  destruct (List.length l1 <=? 1)%nat eqn:E.
  - apply Nat.leb_le in E. destruct l1 as [|x [|y l1]]; simpl in E; try lia.
    + now apply Permutation_nil in Hp.
    + now apply Permutation_length_1_inv in Hp.
  - rewrite (strings_primitive _ Hs), (strings_primitive _ Hs2).
    apply sort_by_perm_eq with (P := fun v => is_string v = true).
    + intros [] [] Hx Hy; try discriminate. unfold cmp_le. cbn [strict_eq].
      apply locale_total.
    + intros [] [] [] Hx Hy Hz; try discriminate. unfold cmp_le. cbn [strict_eq].
      apply locale_trans.
    + intros [] [] Hx Hy; try discriminate. unfold cmp_le. cbn [strict_eq].
      intros H1 H2. f_equal. now apply locale_antisym.
    + exact Hp.
    + apply Forall_forall. now apply forallb_forall.
Qed.

Lemma normalize_string_array (path : string) (l1 l2 : list json) :
  sortArrays tol = true -> Tolerant.shouldSortArray tol path = true ->
  forallb is_string l1 = true -> Permutation l1 l2 ->
  Tolerant.normalizeForComparison opts tol path (JArr l1)
  = Tolerant.normalizeForComparison opts tol path (JArr l2).
Proof.
  intros Hsort Hshould Hs Hp.
  assert (Hs2 : forallb is_string l2 = true).
  { apply forallb_forall. intros x Hx. rewrite forallb_forall in Hs.
    apply Hs. eapply Permutation_in; [apply Permutation_sym|]; eassumption. }
  rewrite !normalizeForComparison_arr. cbv zeta.
  rewrite Hsort, Hshould. cbn [andb].
  rewrite !normalize_strings by assumption.
  f_equal. now apply sortArray_strings.
Qed.

End ArrayOrder.

(** Array order is tolerated: with [sortArrays] on, under a [localeCompare]
    that is a total order on strings, two bodies that differ only in the
    order of the elements of an array of strings (the body itself, or a
    field of the body) compare without any difference. *)
Theorem string_arrays_compare_in_any_order `{RT : Runtime} (opts : options)
  (tol : tolerances) (pre post : obj) (k : string) (l1 l2 : list json) :
  (forall a b, localeCompare a b <= 0 \/ localeCompare b a <= 0) ->
  (forall a b c,
      localeCompare a b <= 0 -> localeCompare b c <= 0 -> localeCompare a c <= 0) ->
  (forall a b, localeCompare a b <= 0 -> localeCompare b a <= 0 -> a = b) ->
  sortArrays tol = true ->
  forallb is_string l1 = true ->
  Permutation l1 l2 ->
  (Tolerant.shouldSortArray tol k = true ->
   Tolerant.compareResponseBodies opts tol
     (Some (JObj (pre ++ (k, JArr l1) :: post)))
     (Some (JObj (pre ++ (k, JArr l2) :: post))) = Base.no_diffs)
  /\ (Tolerant.shouldSortArray tol "" = true ->
      Tolerant.compareResponseBodies opts tol (Some (JArr l1)) (Some (JArr l2))
      = Base.no_diffs).
Proof.
  intros Htot Htrans Hanti Hsort Hs Hp. split; intros Hshould.
  - apply compareResponseBodies_same_normal_form; try reflexivity.
    rewrite !normalizeForComparison_obj. do 2 f_equal.
    rewrite !map_app. f_equal. cbn [map]. f_equal.
    unfold normalize_entry. cbn [fst snd Tolerant.isLikelyUUID String.eqb].
    rewrite !andb_false_r. cbn [andb]. f_equal.
    now apply normalize_string_array.
  - apply compareResponseBodies_same_normal_form; try reflexivity.
    now apply normalize_string_array.
Qed.

Section CodeUnitOrder.

Lemma code_unit_total (a b : string) : code_unit_cmp a b <= 0 \/ code_unit_cmp b a <= 0.
Proof.
  destruct (String.leb_total a b) as [H | H]; [left | right];
    apply Z.leb_le; now rewrite code_unit_cmp_le.
Qed.

Lemma code_unit_trans (a b c : string) :
  code_unit_cmp a b <= 0 -> code_unit_cmp b c <= 0 -> code_unit_cmp a c <= 0.
Proof.
  intros H1 H2. apply Z.leb_le in H1, H2. rewrite code_unit_cmp_le in H1, H2.
  apply Z.leb_le. rewrite code_unit_cmp_le. eapply leb_trans; eassumption.
Qed.

Lemma code_unit_antisym (a b : string) :
  code_unit_cmp a b <= 0 -> code_unit_cmp b a <= 0 -> a = b.
Proof.
  intros H1 H2. apply Z.leb_le in H1, H2. rewrite code_unit_cmp_le in H1, H2.
  now apply String.leb_antisym.
Qed.

Lemma code_unit_cmp_opp (a b : string) : code_unit_cmp a b = - code_unit_cmp b a.
Proof.
  unfold code_unit_cmp. rewrite (String.compare_antisym b a).
  destruct (String.compare a b); reflexivity.
Qed.

Lemma code_unit_cmp_eq (a b : string) : code_unit_cmp a b = 0 <-> a = b.
Proof.
  unfold code_unit_cmp. split.
  - intros H. apply String.compare_eq_iff.
    destruct (String.compare a b); [reflexivity | discriminate H | discriminate H].
  - intros ->. pose proof (String.compare_antisym b b) as H.
    destruct (String.compare b b); [reflexivity | discriminate H | discriminate H].
Qed.

Lemma code_unit_cmp_values (a b : string) :
  code_unit_cmp a b = -1 \/ code_unit_cmp a b = 0 \/ code_unit_cmp a b = 1.
Proof. unfold code_unit_cmp. destruct (String.compare a b); auto. Qed.

Lemma swap_case_involutive (c : ascii) :
  TestRuntime.Collation.swap_case (TestRuntime.Collation.swap_case c) = c.
Proof. destruct c as [[] [] [] [] [] [] [] []]; reflexivity. Qed.

Lemma map_swap_case_injective (a : string) :
  forall b,
    TestRuntime.Collation.map_string TestRuntime.Collation.swap_case a
    = TestRuntime.Collation.map_string TestRuntime.Collation.swap_case b ->
    a = b.
Proof.
  induction a as [|c a IH]; intros [|d b] H; try discriminate H; [reflexivity|].
  cbn [TestRuntime.Collation.map_string] in H. injection H as Hc H.
  rewrite (IH b H). f_equal.
  rewrite <- (swap_case_involutive c), Hc. apply swap_case_involutive.
Qed.

(** The comparison of the runtime of the examples is a total order. *)
Lemma collation_total (a b : string) :
  TestRuntime.Collation.compare a b <= 0 \/ TestRuntime.Collation.compare b a <= 0.
Proof.
  unfold TestRuntime.Collation.compare. cbv zeta.
  set (fa := TestRuntime.Collation.map_string TestRuntime.Collation.primary a).
  set (fb := TestRuntime.Collation.map_string TestRuntime.Collation.primary b).
  rewrite (code_unit_cmp_opp fb fa).
  destruct (code_unit_cmp_values fa fb) as [E | [E | E]]; rewrite E; cbn.
  - left. lia.
  - apply code_unit_total.
  - right. lia.
Qed.

Lemma collation_trans (a b c : string) :
  TestRuntime.Collation.compare a b <= 0 ->
  TestRuntime.Collation.compare b c <= 0 ->
  TestRuntime.Collation.compare a c <= 0.
Proof.
  unfold TestRuntime.Collation.compare. cbv zeta.
  set (fa := TestRuntime.Collation.map_string TestRuntime.Collation.primary a).
  set (fb := TestRuntime.Collation.map_string TestRuntime.Collation.primary b).
  set (fc := TestRuntime.Collation.map_string TestRuntime.Collation.primary c).
  destruct (code_unit_cmp_values fa fb) as [E1 | [E1 | E1]]; rewrite E1; cbn;
    intros H1; try lia;
    destruct (code_unit_cmp_values fb fc) as [E2 | [E2 | E2]]; rewrite E2; cbn;
      intros H2; try lia.
  - assert (E : code_unit_cmp fa fc <= 0)
      by (apply (code_unit_trans fa fb fc); lia).
    destruct (code_unit_cmp_values fa fc) as [E3 | [E3 | E3]]; rewrite E3; cbn;
      try lia.
    apply code_unit_cmp_eq in E3.
    assert (E4 : code_unit_cmp fb fa <= 0) by (rewrite E3; lia).
    assert (fa = fb) by (apply code_unit_antisym; lia).
    apply code_unit_cmp_eq in H. lia.
  - apply code_unit_cmp_eq in E2. rewrite <- E2, E1. cbn. lia.
  - apply code_unit_cmp_eq in E1. rewrite E1, E2. cbn. lia.
  - apply code_unit_cmp_eq in E1. rewrite E1, E2. cbn.
    eapply code_unit_trans; eassumption.
Qed.

Lemma collation_antisym (a b : string) :
  TestRuntime.Collation.compare a b <= 0 ->
  TestRuntime.Collation.compare b a <= 0 -> a = b.
Proof.
  unfold TestRuntime.Collation.compare. cbv zeta.
  set (fa := TestRuntime.Collation.map_string TestRuntime.Collation.primary a).
  set (fb := TestRuntime.Collation.map_string TestRuntime.Collation.primary b).
  rewrite (code_unit_cmp_opp fb fa).
  destruct (code_unit_cmp_values fa fb) as [E | [E | E]]; rewrite E; cbn;
    intros H1 H2; try lia.
  apply map_swap_case_injective. now apply code_unit_antisym.
Qed.

End CodeUnitOrder.

Lemma string_arrays_compare_in_any_order_witness :
  Tolerant.compareResponseBodies (RT := TestRuntime.runtime) default_options
    default_tolerances
    (Some (JObj ([("id", JNum 1)] ++ ("tags", JArr [JStr "b"; JStr "a"; JStr "c"]) :: [])))
    (Some (JObj ([("id", JNum 1)] ++ ("tags", JArr [JStr "a"; JStr "c"; JStr "b"]) :: [])))
  = Base.no_diffs
  /\ Tolerant.compareResponseBodies (RT := TestRuntime.runtime) default_options
       default_tolerances
       (Some (JArr [JStr "b"; JStr "a"; JStr "c"]))
       (Some (JArr [JStr "a"; JStr "c"; JStr "b"]))
     = Base.no_diffs.
Proof.
  assert (Hp : Permutation [JStr "b"; JStr "a"; JStr "c"] [JStr "a"; JStr "c"; JStr "b"]).
  { apply Permutation_sym.
    apply (perm_trans (l' := [JStr "a"; JStr "b"; JStr "c"])).
    - apply perm_skip, perm_swap.
    - apply perm_swap. }
  split.
  - apply (proj1 (@string_arrays_compare_in_any_order TestRuntime.runtime
                    default_options default_tolerances [("id", JNum 1)] [] "tags"
                    [JStr "b"; JStr "a"; JStr "c"] [JStr "a"; JStr "c"; JStr "b"]
                    collation_total collation_trans collation_antisym
                    eq_refl eq_refl Hp)).
    reflexivity.
  - apply (proj2 (@string_arrays_compare_in_any_order TestRuntime.runtime
                    default_options default_tolerances [("id", JNum 1)] [] "tags"
                    [JStr "b"; JStr "a"; JStr "c"] [JStr "a"; JStr "c"; JStr "b"]
                    collation_total collation_trans collation_antisym
                    eq_refl eq_refl Hp)).
    reflexivity.
Defined.

(** ** What the tolerant differ counts *)

Section TolerantCounts.
Context {RT : Runtime}.
Variable opts : options.
Variable tol : tolerances.

Lemma categorize_counts (a : Base.acc) (p : string) (d : diff) :
  counted_entries (Base.categorize a p d) = counted_entries a + 1.
Proof.
  unfold counted_entries.
  destruct d as [pa rhs | pa lhs | pa lhs rhs | pa i [rhs | lhs | lhs rhs]];
    cbn [Base.categorize Base.push_added Base.push_removed Base.push_modified
         Base.acc_added Base.acc_removed Base.acc_modified];
    rewrite len_app, len_one; lia.
Qed.

Lemma tolerant_forEach_counts (ds : list diff) :
  forall a t a' t',
    Tolerant.forEach opts tol (a, t) ds = Returned (a', t') ->
    t <= t'
    /\ counted_entries a' + t' + len (filter (ignored_diff opts) ds)
       = counted_entries a + t + len ds.
Proof.
  induction ds as [|d ds IH]; intros a t a' t' H.
  - injection H as <- <-. unfold len. simpl. lia.
  - cbn [Tolerant.forEach] in H. unfold Tolerant.step in H.
    cbn [filter]. unfold ignored_diff at 1.
    destruct (path_join (diff_path d)) as [p | m]; [|discriminate].
    cbn [fst snd] in H.
    assert (Hlen : len (d :: ds) = len ds + 1)
      by (unfold len; simpl List.length; lia).
    destruct (Base.shouldIgnoreField opts p).
    + apply IH in H. destruct H as [H1 H2].
      assert (len (d :: filter (ignored_diff opts) ds)
              = len (filter (ignored_diff opts) ds) + 1)
        by (unfold len; simpl List.length; lia).
      lia.
    + destruct (Tolerant.shouldTolerateDifference tol d p).
      * apply IH in H. lia.
      * apply IH in H. rewrite categorize_counts in H. lia.
Qed.

End TolerantCounts.

(** The tolerant body comparison of two arrays or objects, when it does
    not end in a comparison error: every difference deep-diff finds between
    the normalised bodies is skipped as ignored, counted as tolerated, or
    listed as added, removed or modified, exactly one of the three;
    [total] adds up the three lists and leaves the tolerated differences
    out. *)
Theorem tolerant_differences_partition `{RT : Runtime} (opts : options)
  (tol : tolerances) (o r : json) :
  is_container o = true -> is_container r = true ->
  let b := Tolerant.compareResponseBodies opts tol (Some o) (Some r) in
  let ds := diff_of (Tolerant.normalizeForComparison opts tol "" o)
              (Tolerant.normalizeForComparison opts tol "" r) in
  (exists m, b = Base.root_incompatible ("Comparison error: " ++ m))
  \/ (0 <= tolerated b
      /\ total b = len (added b) + len (removed b) + len (modified b)
      /\ total b + tolerated b + len (filter (ignored_diff opts) ds) = len ds).
Proof.
  intros Ho Hr b ds. subst b ds. unfold Tolerant.compareResponseBodies.
  assert (Ht : (typeof o =? typeof r)%string = true)
    by (destruct o, r; try discriminate; reflexivity).
  assert (Hp : Base.primitive_or_null o r = false)
    by (destruct o, r; try discriminate; reflexivity).
  rewrite Ht, Hp. cbn [negb].
  destruct (Tolerant.forEach opts tol (Base.acc0, 0) _) as [[a t] | m] eqn:E.
  - right. apply tolerant_forEach_counts in E. destruct E as [H1 H2].
    cbn [tolerated total added removed modified].
    unfold counted_entries in H2. cbn in H2. repeat split; lia.
  - left. now exists m.
Qed.

Lemma tolerant_differences_partition_witness :
  let o := JObj [("createdAt", JStr "2023-01-01T12:00:00Z"); ("n", JNum 1)] in
  let r := JObj [("createdAt", JStr "2023-01-01T12:00:03Z"); ("n", JNum 2)] in
  let b := Tolerant.compareResponseBodies (RT := TestRuntime.runtime) default_options
             default_tolerances (Some o) (Some r) in
  let ds := diff_of
              (Tolerant.normalizeForComparison (RT := TestRuntime.runtime)
                 default_options default_tolerances "" o)
              (Tolerant.normalizeForComparison (RT := TestRuntime.runtime)
                 default_options default_tolerances "" r) in
  (exists m, b = Base.root_incompatible ("Comparison error: " ++ m))
  \/ (0 <= tolerated b
      /\ total b = len (added b) + len (removed b) + len (modified b)
      /\ total b + tolerated b + len (filter (ignored_diff default_options) ds)
         = len ds).
Proof.
  apply (@tolerant_differences_partition TestRuntime.runtime default_options
           default_tolerances
           (JObj [("createdAt", JStr "2023-01-01T12:00:00Z"); ("n", JNum 1)])
           (JObj [("createdAt", JStr "2023-01-01T12:00:03Z"); ("n", JNum 2)]));
    reflexivity.
Defined.

(** One difference within the drift and one that is not: the first is
    tolerated and left out of [total]. *)
Example tolerated_is_not_in_total :
  let b := Tolerant.compareResponseBodies (RT := TestRuntime.runtime) default_options
             default_tolerances
             (Some (JObj [("createdAt", JStr "2023-01-01T12:00:00Z"); ("n", JNum 1)]))
             (Some (JObj [("createdAt", JStr "2023-01-01T12:00:03Z"); ("n", JNum 2)])) in
  total b = 1 /\ tolerated b = 1.
Proof. vm_compute. split; reflexivity. Qed.

Section StrictMode.
Context {RT : Runtime}.
Variable opts : options.
Variable tol : tolerances.
Hypothesis no_uuids : ignoreUUIDs tol = false.
Hypothesis no_sorting : sortArrays tol = false.
Hypothesis no_fields : timestampFields tol = [].

(** Without UUID replacement and sorting, normalising a body leaves it as
    it is. *)
Lemma normalizeForComparison_strict (v : json) :
  wf_json v -> forall path, Tolerant.normalizeForComparison opts tol path v = v.
Proof.
  induction v as [| b | n | s | l IH | o IH] using json_ind'; intros Hwf path;
    try reflexivity.
  - rewrite normalizeForComparison_arr. cbv zeta. rewrite no_sorting. cbn [andb].
    f_equal. apply wf_arr in Hwf. rewrite <- (map_id l) at 2.
    apply map_ext_Forall. rewrite Forall_forall in *. auto.
  - rewrite normalizeForComparison_obj.
    apply wf_obj in Hwf. destruct Hwf as [Hd Hall].
    assert (E : map (normalize_entry opts tol path) o = o).
    { rewrite <- (map_id o) at 2. apply map_ext_Forall.
      rewrite Forall_forall in *. intros [k v] Hin.
      unfold normalize_entry. rewrite no_uuids. cbn [andb fst snd].
      f_equal. apply IH with (x := (k, v)); [exact Hin | now apply (Hall (k, v))]. }
    rewrite E, assign_all_id; [reflexivity | exact Hd].
Qed.

Lemma timestamp_free_like (v : json) :
  timestamp_free v = true -> timestamp_like v = false.
Proof.
  destruct v; try reflexivity; simpl; intros H; now apply negb_true_iff in H.
Qed.

Lemma isLikelyTimestamp_strict (path : string) (v : json) :
  Tolerant.isLikelyTimestamp tol path v = timestamp_like v.
Proof.
  unfold Tolerant.isLikelyTimestamp. rewrite no_fields. now destruct v.
Qed.

Lemma strict_eq_types (x y : json) :
  realTypeOf x <> realTypeOf y -> strict_eq x y = false.
Proof. destruct x, y; try reflexivity; intros H; now elim H. Qed.

Lemma obj_get_member (k : string) (o : obj) (y : json) :
  obj_get k o = Some y -> In (k, y) o.
Proof.
  induction o as [|[k0 v0] o IH]; simpl; [discriminate|].
  destruct (String.eqb_spec k k0) as [->|Hne].
  - intros H. injection H as ->. now left.
  - intros H. right. auto.
Qed.

(** The differences deep-diff reports between two values without
    timestamp-like leaves are plain. *)
Lemma deepDiff_plain (l : json) :
  forall path r d,
    timestamp_free l = true -> timestamp_free r = true ->
    In d (deepDiff path l r) -> plain_difference d.
Proof.
  assert (Htail : forall path xs i d,
             (In d (tail_items path ItemN i xs) \/ In d (tail_items path ItemD i xs)) ->
             plain_difference d).
  { intros path xs. induction xs as [|x xs IH]; intros i d [Hin | Hin];
      try destruct Hin; simpl in Hin; apply in_app_or in Hin;
      destruct Hin as [Hin | [<- | []]]; try exact I;
      apply (IH (S i)); auto. }
  assert (Hmismatch : forall path x y,
             timestamp_free x = true -> timestamp_free y = true ->
             negb (realTypeOf x =? realTypeOf y)%string = true ->
             plain_difference (DiffEdit path x y)).
  { intros path x y Hx Hy H. apply negb_true_iff, String.eqb_neq in H.
    repeat split; [now apply strict_eq_types | now apply timestamp_free_like
                   | now apply timestamp_free_like]. }
  assert (Hprim : forall v path r d,
             is_container v = false ->
             timestamp_free v = true -> timestamp_free r = true ->
             In d (deepDiff path v r) -> plain_difference d).
  { intros v path r d Hc Hv Hr Hin.
    assert (H : deepDiff path v r = []
                \/ (deepDiff path v r = [DiffEdit path v r]
                    /\ strict_eq v r = false)).
    { destruct (negb (realTypeOf v =? realTypeOf r)%string) eqn:E.
      - right. split.
        + destruct v; try discriminate; cbn [deepDiff]; now rewrite E.
        + apply negb_true_iff, String.eqb_neq in E. now apply strict_eq_types.
      - destruct (strict_eq v r) eqn:Es.
        + left. destruct v; try discriminate; cbn [deepDiff]; rewrite E;
            destruct r; try discriminate Es; now rewrite Es.
        + right. split; [|reflexivity].
          destruct v; try discriminate; cbn [deepDiff]; rewrite E;
            destruct r; try reflexivity; now rewrite Es. }
    destruct H as [H | [H Hs]]; rewrite H in Hin; [destruct Hin|].
    destruct Hin as [<- | []].
    repeat split; [exact Hs | now apply timestamp_free_like
                   | now apply timestamp_free_like]. }
  induction l as [| b | n | s | l IH | o IH] using json_ind';
    intros path r d Hl Hr Hin;
    try (refine (Hprim _ path r d _ Hl Hr Hin); reflexivity).
  - cbn [deepDiff] in Hin.
    destruct (negb (realTypeOf (JArr l) =? realTypeOf r)%string) eqn:E.
    { destruct Hin as [<- | []]. now apply Hmismatch. }
    destruct r as [| | | | r | ]; try discriminate E.
    apply in_app_or in Hin. destruct Hin as [Hin | Hin];
      [apply (Htail _ _ _ _ (or_introl Hin))|].
    apply in_app_or in Hin. destruct Hin as [Hin | Hin];
      [apply (Htail _ _ _ _ (or_intror Hin))|].
    cbn [timestamp_free] in Hl, Hr. clear Htail Hmismatch Hprim E.
    revert r Hr Hin. generalize O.
    induction IH as [|x l Hx Hl' IHl]; intros i r Hr Hin; [destruct Hin|].
    destruct r as [|y r]; [destruct Hin|]. cbn [common_elems] in Hin.
    cbn [forallb] in Hl, Hr.
    apply andb_true_iff in Hl. destruct Hl as [Hx1 Hl1].
    apply andb_true_iff in Hr. destruct Hr as [Hy1 Hr1].
    apply in_app_or in Hin. destruct Hin as [Hin | Hin].
    + now apply (IHl Hl1 (S i) r Hr1).
    + now apply (Hx _ _ _ Hx1 Hy1 Hin).
  - cbn [deepDiff] in Hin.
    destruct (negb (realTypeOf (JObj o) =? realTypeOf r)%string) eqn:E.
    { destruct Hin as [<- | []]. now apply Hmismatch. }
    destruct r as [| | | | | r]; try discriminate E.
    apply in_app_or in Hin. destruct Hin as [Hin | Hin].
    + cbn [timestamp_free] in Hl, Hr. clear Htail Hmismatch Hprim E.
      induction IH as [|kv o Hkv Ho IHo]; [destruct Hin|].
      cbn [lhs_props] in Hin. cbn [forallb] in Hl.
      apply andb_true_iff in Hl. destruct Hl as [Hkv1 Hl1].
      apply in_app_or in Hin. destruct Hin as [Hin | Hin]; [|now apply IHo].
      destruct (obj_get (fst kv) r) as [y|] eqn:Eg.
      * apply obj_get_member in Eg. rewrite forallb_forall in Hr.
        apply (Hkv _ _ _ Hkv1 (Hr _ Eg) Hin).
      * destruct Hin as [<- | []]. exact I.
    + unfold rhs_only in Hin. apply in_flat_map in Hin.
      destruct Hin as [kv [_ Hin]].
      destruct (existsb _ _); [destruct Hin|].
      destruct (fst kv =? "")%string; [destruct Hin|].
      destruct Hin as [<- | []]. exact I.
Qed.

Lemma plain_not_tolerated (d : diff) (p : string) :
  plain_difference d -> Tolerant.shouldTolerateDifference tol d p = false.
Proof.
  destruct d as [pa rhs | pa lhs | pa x y | pa i [rhs | lhs | x y]];
    try reflexivity; [|intros []].
  intros [Hs [Hx Hy]]. cbn [Tolerant.shouldTolerateDifference].
  unfold Tolerant.areValuesEquivalent.
  now rewrite Hs, !isLikelyTimestamp_strict, Hx, no_uuids.
Qed.

Lemma forEach_plain (ds : list diff) :
  Forall plain_difference ds ->
  forall a t,
    Tolerant.forEach opts tol (a, t) ds
    = match Base.forEach opts a ds with
      | Returned a' => Returned (a', t)
      | Thrown m => Thrown m
      end.
Proof.
  induction 1 as [|d ds Hd Hds IH]; intros a t; [reflexivity|].
  cbn [Tolerant.forEach Base.forEach]. unfold Tolerant.step, Base.step.
  destruct (path_join (diff_path d)) as [p | m]; [|reflexivity].
  cbn [fst snd]. destruct (Base.shouldIgnoreField opts p); [apply IH|].
  rewrite (plain_not_tolerated d p Hd). apply IH.
Qed.

End StrictMode.

(** Where strict comparison is the base comparison.  With UUIDs not
    ignored, arrays not sorted and no timestamp field names (the tolerances
    [setStrict(true)] installs), the tolerant differ gives the result of the
    base differ on every pair of bodies without duplicate keys that hold no
    timestamp-like value (no string of the ISO date form, no number of
    milliseconds between 2000 and now). *)
Theorem strict_differ_is_base_differ `{RT : Runtime} (opts : options)
  (tol : tolerances) (o r : json) :
  ignoreUUIDs tol = false -> sortArrays tol = false -> timestampFields tol = [] ->
  wf_json o -> wf_json r ->
  timestamp_free o = true -> timestamp_free r = true ->
  Tolerant.compareResponseBodies opts tol (Some o) (Some r)
  = Base.compareResponseBodies opts (Some o) (Some r).
Proof.
  intros Hu Hs Hf Hwo Hwr Hto Htr.
  unfold Tolerant.compareResponseBodies, Base.compareResponseBodies.
  destruct (negb (typeof o =? typeof r)%string); [reflexivity|].
  destruct (Base.primitive_or_null o r).
  - unfold Tolerant.areValuesEquivalent.
    rewrite !(isLikelyTimestamp_strict tol Hf), (timestamp_free_like _ Hto), Hu.
    cbn [andb]. now destruct (strict_eq o r).
  - rewrite !(normalizeForComparison_strict opts tol Hu Hs) by assumption.
    rewrite (forEach_plain opts tol Hu Hf).
    + now destruct (Base.forEach opts Base.acc0 (diff_of o r)).
    + apply Forall_forall. intros d Hd. unfold diff_of in Hd.
      now apply (deepDiff_plain o [] r d Hto Htr).
Qed.

Lemma strict_differ_is_base_differ_witness :
  Tolerant.compareResponseBodies (RT := TestRuntime.runtime) default_options
    strict_tolerances
    (Some (JObj [("id", JStr recorded_uuid); ("tags", JArr [JStr "a"; JStr "b"])]))
    (Some (JObj [("id", JStr replayed_uuid); ("tags", JArr [JStr "b"; JStr "a"])]))
  = Base.compareResponseBodies default_options
      (Some (JObj [("id", JStr recorded_uuid); ("tags", JArr [JStr "a"; JStr "b"])]))
      (Some (JObj [("id", JStr replayed_uuid); ("tags", JArr [JStr "b"; JStr "a"])])).
Proof.
  apply (@strict_differ_is_base_differ TestRuntime.runtime default_options
           strict_tolerances
           (JObj [("id", JStr recorded_uuid); ("tags", JArr [JStr "a"; JStr "b"])])
           (JObj [("id", JStr replayed_uuid); ("tags", JArr [JStr "b"; JStr "a"])]));
    reflexivity.
Defined.

(** ** Strictness switched on and off *)

(** [setStrict(true)] any number of times followed by [setStrict(false)]
    leaves a verifier that held no saved copy with the tolerances it had:
    the copy is taken by the first call only. *)
Theorem setStrict_round_trip (v : strictness) (n : nat) :
  _originalTolerances v = None ->
  setStrict false (Nat.iter n (setStrict true) v) = v.
Proof.
  intros Hv. destruct v as [cur orig]. simpl in Hv. subst orig.
  destruct n as [|n]; [reflexivity|].
  assert (H : forall m, Nat.iter (S m) (setStrict true)
                          {| current_tolerances := cur; _originalTolerances := None |}
                        = {| current_tolerances := strict_tolerances;
                             _originalTolerances := Some cur |}).
  { induction m as [|m IH]; [reflexivity|].
    change (Nat.iter (S (S m)) (setStrict true) ?x)
      with (setStrict true (Nat.iter (S m) (setStrict true) x)).
    now rewrite IH. }
  now rewrite H.
Qed.

Lemma setStrict_round_trip_witness :
  setStrict false
    (Nat.iter 3 (setStrict true)
       {| current_tolerances := default_tolerances; _originalTolerances := None |})
  = {| current_tolerances := default_tolerances; _originalTolerances := None |}.
Proof.
  apply (@setStrict_round_trip
           {| current_tolerances := default_tolerances; _originalTolerances := None |} 3).
  reflexivity.
Defined.

(** ** Sessions of the recorder *)

Section SessionFacts.
Context {RT : Runtime}.
Variable ropts : recorder_options.

Lemma record_all_recording (calls : list recorderCall) :
  forall sessions s,
    record_all ropts
      {| sr_sessions := sessions; sr_currentSession := Some s; sr_isRecording := true |}
      calls
    = {| sr_sessions := sessions;
         sr_currentSession :=
           Some {| sess_id := sess_id s; sess_startTime := sess_startTime s;
                   sess_timestamp := sess_timestamp s;
                   sess_interactions :=
                     sess_interactions s ++ map (interaction_of_call ropts) calls;
                   sess_metadata := sess_metadata s;
                   sess_endTime := sess_endTime s;
                   sess_duration := sess_duration s |};
         sr_isRecording := true |}.
Proof.
  induction calls as [|c calls IH]; intros sessions s.
  - unfold record_all. simpl. rewrite app_nil_r. now destruct s.
  - unfold record_all in *. cbn [fold_left].
    unfold SessionRecorder.recordInteraction at 2. cbn [sr_isRecording sr_currentSession snd].
    rewrite IH. unfold SessionRecorder.push_interaction. cbn.
    now rewrite <- app_assoc.
Qed.

Lemma mapi_from_ext {A B : Type} (f g : nat -> A -> B) (l : list A) :
  Forall (fun x => forall i, f i x = g i x) l ->
  forall i, mapi_from f i l = mapi_from g i l.
Proof.
  induction 1 as [|x l Hx Hl IH]; intros i; simpl; [reflexivity|].
  now rewrite Hx, IH.
Qed.

Lemma recursiveSanitize_idem (v : json) :
  Recorder.recursiveSanitize ropts (Recorder.recursiveSanitize ropts v)
  = Recorder.recursiveSanitize ropts v.
Proof.
  induction v as [| b | n | s | l IH | o IH] using json_ind'; try reflexivity.
  - rewrite recursiveSanitize_arr, recursiveSanitize_arr, mapi_from_mapi_from.
    f_equal. apply mapi_from_ext. rewrite Forall_forall in *. intros x Hin i.
    destruct (Recorder.sensitive ropts (Str.of_nat i)); [reflexivity | auto].
  - rewrite recursiveSanitize_obj, recursiveSanitize_obj, map_map.
    f_equal. apply map_ext_Forall. rewrite Forall_forall in *. intros kv Hin.
    cbn [fst snd].
    destruct (Recorder.sensitive ropts (fst kv)); [reflexivity|].
    f_equal. auto.
Qed.

Lemma find_snoc {A : Type} (f : A -> bool) (l : list A) (x : A) :
  find f (l ++ [x])
  = match find f l with
    | Some y => Some y
    | None => if f x then Some x else None
    end.
Proof.
  induction l as [|y l IH]; simpl; [reflexivity|]. now destruct (f y).
Qed.

Lemma lookup_hash_input_captured (req : request) (q : json) :
  req_query req = Some q -> truthy q = true ->
  body_as_recorded ropts (req_body req) ->
  SessionRecorder.lookup_hash_input req
  = Recorder.hash_input (Recorder.captureRequest ropts req).
Proof.
  intros Hq Ht Hb.
  unfold SessionRecorder.lookup_hash_input, Recorder.hash_input,
    Recorder.captureRequest.
  cbn [cr_method cr_path cr_query cr_body]. rewrite Hq, Ht.
  destruct (req_body req) as [b|]; [|reflexivity].
  destruct Hb as [Hi [Hb Hs]]. now rewrite Hi, Hb, Hs.
Qed.

End SessionFacts.

(** A recording from start to stop.  On a recorder that is not recording,
    [startRecording] with a name, any calls of [recordInteraction] and
    [stopRecording] return a session with that name, the captured
    interactions in the order of the calls and the time between the two
    clock readings as its duration; the session is added after the stored
    ones and the recorder is idle again. *)
Theorem recording_life_cycle `{RT : Runtime} (ropts : recorder_options)
  (NODE_ENV : option string) (r : sessionRecorder) (name nowISO : string)
  (started stopped : Z) (calls : list recorderCall) :
  sr_isRecording r = false ->
  let r1 := snd (SessionRecorder.startRecording NODE_ENV r (Some name) started nowISO) in
  let r2 := record_all ropts r1 calls in
  exists s,
    SessionRecorder.stopRecording r2 stopped
    = Returned (Some s, {| sr_sessions := sr_sessions r ++ [s];
                           sr_currentSession := None;
                           sr_isRecording := false |})
    /\ sess_id s = name
    /\ sess_interactions s = map (interaction_of_call ropts) calls
    /\ sess_endTime s = Some stopped
    /\ sess_duration s = Some (stopped - started).
Proof.
  intros Hidle r1 r2. subst r1 r2.
  unfold SessionRecorder.startRecording. rewrite Hidle. cbn [snd].
  rewrite record_all_recording. cbn [sess_interactions app].
  unfold SessionRecorder.stopRecording. cbn [sr_isRecording negb sr_currentSession].
  eexists. split; [reflexivity|]. cbn. repeat split.
Qed.

Lemma recording_life_cycle_witness :
  exists s,
    SessionRecorder.stopRecording
      (record_all (RT := TestRuntime.runtime) default_recorder_options
         (snd (SessionRecorder.startRecording (RT := TestRuntime.runtime) None
                 new_recorder (Some "checkout") 1000 "t0"))
         [{| call_at := "t1"; call_duration := Some 5;
             call_req := order_request;
             call_res := mkResponse 201 None (Some (JObj [("id", JNum 7)])) |}])
      1250
    = Returned (Some s, {| sr_sessions := [] ++ [s];
                           sr_currentSession := None;
                           sr_isRecording := false |})
    /\ sess_id s = "checkout"
    /\ sess_interactions s
       = map (interaction_of_call (RT := TestRuntime.runtime) default_recorder_options)
           [{| call_at := "t1"; call_duration := Some 5;
               call_req := order_request;
               call_res := mkResponse 201 None (Some (JObj [("id", JNum 7)])) |}]
    /\ sess_endTime s = Some 1250
    /\ sess_duration s = Some (1250 - 1000).
Proof.
  apply (@recording_life_cycle TestRuntime.runtime default_recorder_options None
           new_recorder "checkout" "t0" 1000 1250
           [{| call_at := "t1"; call_duration := Some 5;
               call_req := order_request;
               call_res := mkResponse 201 None (Some (JObj [("id", JNum 7)])) |}]).
  reflexivity.
Defined.

(** Sanitising is idempotent: a body the recorder has captured is stored
    unchanged when it is captured again. *)
Theorem sanitizeData_idempotent `{RT : Runtime} (ropts : recorder_options)
  (data : json) :
  Recorder.sanitizeData ropts (Recorder.sanitizeData ropts data)
  = Recorder.sanitizeData ropts data.
Proof. unfold Recorder.sanitizeData. apply recursiveSanitize_idem. Qed.

(** Looking up what was recorded.  For a request with a truthy query and a
    body the recorder stores as it arrives, the lookup in a session to
    which the interaction of that request was appended answers with the
    response of the first interaction that has the request's hash: an
    earlier one if there is one, the appended one otherwise. *)
Theorem recorded_response_is_found `{RT : Runtime} (ropts : recorder_options)
  (interactions : list recordedInteraction) (timestamp : string)
  (duration : option Z) (req : request) (res : response) (q : json) :
  req_query req = Some q -> truthy q = true ->
  body_as_recorded ropts (req_body req) ->
  SessionRecorder.findMatchingResponse
    (interactions ++ [SessionRecorder.interaction_of ropts timestamp duration req res])
    req
  = match SessionRecorder.findMatchingResponse interactions req with
    | Some earlier => Some earlier
    | None => Some (Recorder.captureResponse ropts res)
    end.
Proof.
  intros Hq Ht Hb. unfold SessionRecorder.findMatchingResponse.
  rewrite find_snoc.
  destruct (find _ interactions); [reflexivity|].
  unfold SessionRecorder.interaction_of. cbn [ri_requestHash ri_response].
  rewrite (lookup_hash_input_captured ropts req Hq Ht Hb).
  now rewrite String.eqb_refl.
Qed.

Lemma recorded_response_is_found_witness :
  SessionRecorder.findMatchingResponse (RT := TestRuntime.runtime)
    ([] ++ [SessionRecorder.interaction_of (RT := TestRuntime.runtime)
              default_recorder_options "t1" None order_request
              (mkResponse 201 None (Some (JObj [("id", JNum 7)])))])
    order_request
  = match SessionRecorder.findMatchingResponse (RT := TestRuntime.runtime) [] order_request with
    | Some earlier => Some earlier
    | None =>
        Some (Recorder.captureResponse default_recorder_options
                (mkResponse 201 None (Some (JObj [("id", JNum 7)]))))
    end.
Proof.
  apply (@recorded_response_is_found TestRuntime.runtime default_recorder_options
           [] "t1" None order_request
           (mkResponse 201 None (Some (JObj [("id", JNum 7)])))
           (JObj [("page", JStr "1"); ("sort", JStr "asc")]));
    [reflexivity | reflexivity | repeat split].
Defined.

(** ** Tags of a session *)

Section TagFacts.

Lemma add_tags_snoc (existing newTags : list string) (t : string) :
  SessionRecorder.add_tags existing (newTags ++ [t])
  = let tags := SessionRecorder.add_tags existing newTags in
    if existsb (String.eqb t) tags then tags else tags ++ [t].
Proof. unfold SessionRecorder.add_tags. now rewrite fold_left_app. Qed.

(** The tags after the loop: the existing ones first, then new ones only,
    every new tag present, and no tag twice unless it was there twice. *)
Lemma add_tags_spec (newTags existing : list string) :
  exists extra,
    SessionRecorder.add_tags existing newTags = existing ++ extra
    /\ incl extra newTags
    /\ (forall t, In t newTags -> In t (existing ++ extra))
    /\ (NoDup existing -> NoDup (existing ++ extra)).
Proof.
  induction newTags as [|t newTags IH] using rev_ind.
  - exists []. rewrite app_nil_r. repeat split; auto.
    + intros x [].
    + intros x [].
  - destruct IH as [extra [He [Hincl [Hall Hnd]]]].
    rewrite add_tags_snoc. cbv zeta. rewrite He.
    destruct (existsb (String.eqb t) (existing ++ extra)) eqn:E.
    + exists extra. repeat split; auto.
      * intros x Hx. apply in_or_app. left. now apply Hincl.
      * intros x Hx. apply in_app_or in Hx. destruct Hx as [Hx | [<- | []]];
          [now apply Hall | now apply existsb_eqb_In].
    + exists (extra ++ [t]). rewrite app_assoc. repeat split; auto.
      * intros x Hx. apply in_app_or in Hx. apply in_or_app.
        destruct Hx as [Hx | Hx]; [left; now apply Hincl | now right].
      * intros x Hx. apply in_app_or in Hx. apply in_or_app.
        destruct Hx as [Hx | Hx]; [left; now apply Hall | now right].
      * intros Hn. apply NoDup_app; [now apply Hnd | repeat constructor; intros [] |].
        intros x Hx Ht. destruct Ht as [<- | []].
        apply existsb_eqb_In in Hx. congruence.
Qed.

Lemma add_tags_present (newTags existing : list string) :
  (forall t, In t newTags -> In t existing) ->
  SessionRecorder.add_tags existing newTags = existing.
Proof.
  induction newTags as [|t newTags IH] using rev_ind; intros H; [reflexivity|].
  rewrite add_tags_snoc. cbv zeta. rewrite IH.
  - assert (Hin : In t existing) by (apply H, in_or_app; right; now left).
    apply existsb_eqb_In in Hin. now rewrite Hin.
  - intros x Hx. apply H, in_or_app. now left.
Qed.

Lemma add_tags_idem (newTags existing : list string) :
  SessionRecorder.add_tags (SessionRecorder.add_tags existing newTags) newTags
  = SessionRecorder.add_tags existing newTags.
Proof.
  apply add_tags_present. intros t Ht.
  destruct (add_tags_spec newTags existing) as [extra [He [_ [Hall _]]]].
  rewrite He. now apply Hall.
Qed.

Lemma tag_idem (newTags : list string) (s : session) :
  SessionRecorder.tag newTags (SessionRecorder.tag newTags s)
  = SessionRecorder.tag newTags s.
Proof.
  unfold SessionRecorder.tag. cbn. now rewrite add_tags_idem.
Qed.

Lemma update_first_found (sessionId : string) (f : session -> session)
  (l : list session) :
  existsb (fun s => (sess_id s =? sessionId)%string) l = true ->
  exists pre s post,
    l = pre ++ s :: post
    /\ existsb (fun s => (sess_id s =? sessionId)%string) pre = false
    /\ sess_id s = sessionId
    /\ SessionRecorder.update_first sessionId f l = Some (f s, pre ++ f s :: post).
Proof.
  induction l as [|x l IH]; simpl; [discriminate|].
  destruct (String.eqb_spec (sess_id x) sessionId) as [He | Hne].
  - intros _. exists [], x, l. repeat split; auto.
  - simpl. intros H. destruct (IH H) as [pre [s [post [-> [Hp [Hs Hu]]]]]].
    exists (x :: pre), s, post. repeat split; auto.
    + simpl. destruct (String.eqb_spec (sess_id x) sessionId); [contradiction | exact Hp].
    + now rewrite Hu.
Qed.

Lemma update_first_at (sessionId : string) (f : session -> session)
  (pre post : list session) (s : session) :
  existsb (fun s => (sess_id s =? sessionId)%string) pre = false ->
  sess_id s = sessionId ->
  SessionRecorder.update_first sessionId f (pre ++ s :: post)
  = Some (f s, pre ++ f s :: post).
Proof.
  induction pre as [|x pre IH]; simpl; intros Hp Hs.
  - apply String.eqb_eq in Hs. now rewrite Hs.
  - apply orb_false_iff in Hp. destruct Hp as [Hx Hp]. rewrite Hx.
    now rewrite (IH Hp Hs).
Qed.

Lemma update_first_unknown (sessionId : string) (f : session -> session)
  (l : list session) :
  existsb (fun s => (sess_id s =? sessionId)%string) l = false ->
  SessionRecorder.update_first sessionId f l = None.
Proof.
  induction l as [|x l IH]; simpl; [reflexivity|]. intros H.
  apply orb_false_iff in H. destruct H as [Hx Hl]. now rewrite Hx, (IH Hl).
Qed.

Lemma tag_tags (newTags : list string) (s : session) :
  tags_of (SessionRecorder.tag newTags s)
  = SessionRecorder.add_tags (tags_of s) newTags.
Proof.
  unfold tags_of, SessionRecorder.tag. cbn.
  destruct (sess_metadata s) as [m|]; [|reflexivity]. now destruct (md_tags m).
Qed.

End TagFacts.

(** Tagging a session the recorder knows.  The call returns the session
    with that id (a stopped one before the current one) with its
    interactions untouched; the tags it had come first, followed by new
    tags only; every tag given is present; no tag is added twice; and the
    same call again changes nothing. *)
Theorem tagSession_adds_tags (r : sessionRecorder) (sessionId : string)
  (tags : list string) :
  known_session r sessionId = true ->
  exists s s' r',
    SessionRecorder.tagSession r sessionId tags = Returned (s', r')
    /\ (In s (sr_sessions r) \/ sr_currentSession r = Some s)
    /\ sess_id s = sessionId /\ sess_id s' = sessionId
    /\ sess_interactions s' = sess_interactions s
    /\ (exists extra, tags_of s' = tags_of s ++ extra /\ incl extra tags)
    /\ (forall t, In t tags -> In t (tags_of s'))
    /\ (NoDup (tags_of s) -> NoDup (tags_of s'))
    /\ SessionRecorder.tagSession r' sessionId tags = Returned (s', r').
Proof.
  intros Hk. unfold known_session in Hk.
  assert (Htag : forall s,
             sess_id s = sessionId ->
             sess_id (SessionRecorder.tag tags s) = sessionId
             /\ sess_interactions (SessionRecorder.tag tags s) = sess_interactions s
             /\ (exists extra, tags_of (SessionRecorder.tag tags s) = tags_of s ++ extra
                               /\ incl extra tags)
             /\ (forall t, In t tags -> In t (tags_of (SessionRecorder.tag tags s)))
             /\ (NoDup (tags_of s) -> NoDup (tags_of (SessionRecorder.tag tags s)))).
  { intros s Hs. rewrite tag_tags.
    destruct (add_tags_spec tags (tags_of s)) as [extra [He [Hincl [Hall Hnd]]]].
    rewrite He. repeat split; auto. now exists extra. }
  destruct (existsb (fun s => (sess_id s =? sessionId)%string) (sr_sessions r)) eqn:E.
  - destruct (@update_first_found sessionId (SessionRecorder.tag tags) _ E)
      as [pre [s [post [Hl [Hp [Hs Hu]]]]]].
    exists s, (SessionRecorder.tag tags s). eexists.
    unfold SessionRecorder.tagSession at 1. rewrite Hu.
    split; [reflexivity|].
    split; [left; rewrite Hl; apply in_or_app; right; now left|].
    split; [exact Hs|].
    destruct (Htag s Hs) as [H1 [H2 [H3 [H4 H5]]]].
    repeat (split; [assumption|]).
    unfold SessionRecorder.tagSession. cbn [sr_sessions sr_currentSession sr_isRecording].
    rewrite (@update_first_at sessionId (SessionRecorder.tag tags) pre post _ Hp H1).
    now rewrite tag_idem.
  - simpl in Hk. destruct (sr_currentSession r) as [s|] eqn:Ec; [|discriminate].
    apply String.eqb_eq in Hk.
    exists s, (SessionRecorder.tag tags s). eexists.
    unfold SessionRecorder.tagSession at 1.
    rewrite (@update_first_unknown sessionId (SessionRecorder.tag tags) _ E), Ec.
    assert (Hk' := Hk). apply String.eqb_eq in Hk'. rewrite Hk'.
    split; [reflexivity|].
    split; [now right|].
    split; [exact Hk|].
    destruct (Htag s Hk) as [H1 [H2 [H3 [H4 H5]]]].
    repeat (split; [assumption|]).
    unfold SessionRecorder.tagSession. cbn [sr_sessions sr_currentSession sr_isRecording].
    rewrite (@update_first_unknown sessionId (SessionRecorder.tag tags) _ E).
    apply String.eqb_eq in H1. rewrite H1. now rewrite tag_idem.
Qed.

Lemma tagSession_adds_tags_witness :
  exists s s' r',
    SessionRecorder.tagSession
      (snd (SessionRecorder.startRecording (RT := TestRuntime.runtime) None
              new_recorder (Some "checkout") 1000 "t0"))
      "checkout" ["smoke"; "v2"; "smoke"]
    = Returned (s', r')
    /\ (In s (sr_sessions
               (snd (SessionRecorder.startRecording (RT := TestRuntime.runtime) None
                       new_recorder (Some "checkout") 1000 "t0")))
        \/ sr_currentSession
             (snd (SessionRecorder.startRecording (RT := TestRuntime.runtime) None
                     new_recorder (Some "checkout") 1000 "t0"))
           = Some s)
    /\ sess_id s = "checkout" /\ sess_id s' = "checkout"
    /\ sess_interactions s' = sess_interactions s
    /\ (exists extra, tags_of s' = tags_of s ++ extra
                      /\ incl extra ["smoke"; "v2"; "smoke"])
    /\ (forall t, In t ["smoke"; "v2"; "smoke"] -> In t (tags_of s'))
    /\ (NoDup (tags_of s) -> NoDup (tags_of s'))
    /\ SessionRecorder.tagSession r' "checkout" ["smoke"; "v2"; "smoke"]
       = Returned (s', r').
Proof.
  apply (@tagSession_adds_tags
           (snd (SessionRecorder.startRecording (RT := TestRuntime.runtime) None
                   new_recorder (Some "checkout") 1000 "t0"))
           "checkout" ["smoke"; "v2"; "smoke"]).
  reflexivity.
Defined.

(** ** Routes and their precedence *)

Section RouteFacts.
Context {RT : Runtime}.

Lemma findMatchingTemplate_app (routes1 routes2 : list Template.route) (rq : request) :
  Template.findMatchingTemplate (routes1 ++ routes2) rq
  = match Template.findMatchingTemplate routes1 rq with
    | Some m => Some m
    | None => Template.findMatchingTemplate routes2 rq
    end.
Proof.
  induction routes1 as [|rt routes1 IH]; [reflexivity|].
  rewrite <- app_comm_cons. simpl.
  destruct (negb (Template.method_matches rt rq)); [exact IH|].
  destruct (path_match (Template.pattern rt) (req_path rq)); [reflexivity | exact IH].
Qed.

Lemma map_get_snoc {V : Type} (k k' : string) (v : V) (m : list (string * V)) :
  map_get k (m ++ [(k', v)])
  = match map_get k m with
    | Some x => Some x
    | None => if (k =? k')%string then Some v else None
    end.
Proof.
  induction m as [|[k0 v0] m IH]; simpl; [reflexivity|].
  now destruct (k =? k0)%string.
Qed.

Variable pathToRegexp : string -> option string.

(** What a lookup finds in the cache stays there through lookups and
    registrations. *)
Lemma cached_entry_kept (calls : list resolverCall) :
  forall (r : cachedResolver) (key : string) (a : option (lazyRoute * json)),
    map_get key (templateCache r) = Some a ->
    map_get key (templateCache (after_calls pathToRegexp r calls)) = Some a.
Proof.
  induction calls as [|c calls IH]; intros r key a H; [exact H|].
  unfold after_calls in *. cbn [fold_left]. apply IH.
  destruct c as [rq | p t o]; cbn [after_call].
  - unfold CachedResolver.findMatchingTemplate.
    destruct (map_get (CachedResolver.fastCacheKey rq) (templateCache r)) eqn:E;
      cbn [snd CachedResolver.with_cache templateCache]; [exact H|].
    now rewrite map_get_snoc, H.
  - unfold CachedResolver.registerTemplate.
    destruct (pathToRegexp p); [exact H | exact H].
Qed.

Lemma lookup_fills_cache (r : cachedResolver) (rq : request) :
  map_get (CachedResolver.fastCacheKey rq)
    (templateCache (snd (CachedResolver.findMatchingTemplate r rq)))
  = Some (fst (CachedResolver.findMatchingTemplate r rq)).
Proof.
  unfold CachedResolver.findMatchingTemplate.
  destruct (map_get (CachedResolver.fastCacheKey rq) (templateCache r)) eqn:E;
    cbn [fst snd CachedResolver.with_cache templateCache]; [exact E|].
  now rewrite map_get_snoc, E, String.eqb_refl.
Qed.


End RouteFacts.

(** Registration order is precedence.  A template that registers adds one
    route after those already there, with the given pattern and the
    defaults for method, status and headers; a request an earlier route
    matches is still answered by that route, and the new route answers
    only the requests none of the earlier ones matches. *)
Theorem earlier_routes_take_precedence `{RT : Runtime}
  (pathToRegexp : string -> option string) (r r' : Template.resolver)
  (routePattern : string) (template : json) (options : templateOptions) :
  Resolver.registerTemplate pathToRegexp r routePattern template options = Returned r' ->
  exists rt,
    Template.routeTemplates r' = Template.routeTemplates r ++ [rt]
    /\ Template.pattern rt = routePattern
    /\ Template.ResponseTemplate template = Returned (Template.template rt)
    /\ Template.method rt = Resolver.method_of options
    /\ Template.rt_statusCode rt = Resolver.statusCode_of options
    /\ Template.rt_headers rt = Resolver.headers_of options
    /\ forall rq,
         Template.findMatchingTemplate (Template.routeTemplates r') rq
         = match Template.findMatchingTemplate (Template.routeTemplates r) rq with
           | Some m => Some m
           | None => Template.findMatchingTemplate [rt] rq
           end.
Proof.
  unfold Resolver.registerTemplate. intros H.
  destruct (pathToRegexp routePattern); [discriminate|].
  destruct (Template.ResponseTemplate template) as [c | m] eqn:E; [|discriminate].
  injection H as <-. eexists. cbn [Template.routeTemplates].
  do 6 (split; [reflexivity|]).
  intros rq. apply findMatchingTemplate_app.
Qed.

(** The cache is never refreshed.  Once a lookup has answered for a method
    and a path, every later lookup for the same method (in any case) and
    path gives that answer, whatever is looked up or registered in between:
    a route registered after a miss stays invisible.  Only [clearCaches]
    makes the next lookup search the routes again. *)
Theorem cached_answer_is_kept `{RT : Runtime}
  (pathToRegexp : string -> option string) (r : cachedResolver)
  (rq rq' : request) (calls : list resolverCall) :
  CachedResolver.fastCacheKey rq' = CachedResolver.fastCacheKey rq ->
  let later := after_calls pathToRegexp (snd (CachedResolver.findMatchingTemplate r rq)) calls in
  fst (CachedResolver.findMatchingTemplate later rq')
  = fst (CachedResolver.findMatchingTemplate r rq)
  /\ fst (CachedResolver.findMatchingTemplate (CachedResolver.clearCaches later) rq')
     = CachedResolver.find_route (c_routeTemplates later) rq'.
Proof.
  intros Hk later. split.
  - assert (H := cached_entry_kept pathToRegexp calls _ _ (lookup_fills_cache r rq)).
    fold later in H. rewrite <- Hk in H.
    unfold CachedResolver.findMatchingTemplate at 1. now rewrite H.
  - reflexivity.
Qed.


Lemma earlier_routes_take_precedence_witness :
  exists rt,
    Template.routeTemplates
      {| Template.defaultContext := [];
         Template.routeTemplates :=
           [{| Template.pattern := "/api/users/:id";
               Template.template := Template.ObjectFn [("ok", Template.Static (JBool true))];
               Template.method := "GET";
               Template.rt_statusCode := 200;
               Template.rt_headers := [("Content-Type", JStr "application/json")] |}];
         Template.contextBuilders := [Template.default_builder (RT := TestRuntime.runtime)] |}
    = Template.routeTemplates
        (Resolver.new_resolver (RT := TestRuntime.runtime) []) ++ [rt]
    /\ Template.pattern rt = "/api/users/:id"
    /\ Template.ResponseTemplate (JObj [("ok", JBool true)])
       = Returned (Template.template rt)
    /\ Template.method rt
       = Resolver.method_of
           {| to_method := Some "GET"; to_statusCode := None; to_headers := None |}
    /\ Template.rt_statusCode rt
       = Resolver.statusCode_of
           {| to_method := Some "GET"; to_statusCode := None; to_headers := None |}
    /\ Template.rt_headers rt
       = Resolver.headers_of
           {| to_method := Some "GET"; to_statusCode := None; to_headers := None |}
    /\ forall rq,
         Template.findMatchingTemplate (RT := TestRuntime.runtime)
           (Template.routeTemplates
              {| Template.defaultContext := [];
                 Template.routeTemplates :=
                   [{| Template.pattern := "/api/users/:id";
                       Template.template :=
                         Template.ObjectFn [("ok", Template.Static (JBool true))];
                       Template.method := "GET";
                       Template.rt_statusCode := 200;
                       Template.rt_headers := [("Content-Type", JStr "application/json")] |}];
                 Template.contextBuilders :=
                   [Template.default_builder (RT := TestRuntime.runtime)] |})
           rq
         = match Template.findMatchingTemplate (RT := TestRuntime.runtime)
                   (Template.routeTemplates
                      (Resolver.new_resolver (RT := TestRuntime.runtime) [])) rq with
           | Some m => Some m
           | None => Template.findMatchingTemplate (RT := TestRuntime.runtime) [rt] rq
           end.
Proof.
  apply (@earlier_routes_take_precedence TestRuntime.runtime (fun _ => None)
           (Resolver.new_resolver (RT := TestRuntime.runtime) []) _
           "/api/users/:id" (JObj [("ok", JBool true)])
           {| to_method := Some "GET"; to_statusCode := None; to_headers := None |}).
  reflexivity.
Defined.

Lemma cached_answer_is_kept_witness :
  fst (CachedResolver.findMatchingTemplate (RT := TestRuntime.runtime)
         resolver_after_miss get_user_lower)
  = fst (CachedResolver.findMatchingTemplate (RT := TestRuntime.runtime)
           (CachedResolver.new_resolver (RT := TestRuntime.runtime) []) get_user)
  /\ fst (CachedResolver.findMatchingTemplate (RT := TestRuntime.runtime)
            (CachedResolver.clearCaches resolver_after_miss) get_user_lower)
     = CachedResolver.find_route (RT := TestRuntime.runtime)
         (c_routeTemplates resolver_after_miss) get_user_lower.
Proof.
  apply (@cached_answer_is_kept TestRuntime.runtime (fun _ => None)
           (CachedResolver.new_resolver (RT := TestRuntime.runtime) []) get_user
           get_user_lower
           [RegisterCall (req_path get_user) (JObj [("ok", JBool true)]) no_templateOptions]).
  reflexivity.
Defined.

(** A route registered after a miss: invisible until the cache is cleared. *)
Example route_registered_after_a_miss :
  fst (CachedResolver.findMatchingTemplate (RT := TestRuntime.runtime)
         resolver_after_miss get_user) = None
  /\ fst (CachedResolver.findMatchingTemplate (RT := TestRuntime.runtime)
            (CachedResolver.clearCaches resolver_after_miss) get_user)
     <> None.
Proof. vm_compute. split; [reflexivity | discriminate]. Qed.

(** ** What an empty list of differences means *)

Section Completeness.

Lemma strict_eq_true (a b : json) : strict_eq a b = true -> a = b.
Proof.
  destruct a, b; try discriminate; simpl; intros H.
  - reflexivity.
  - apply Bool.eqb_prop in H. now subst.
  - apply Z.eqb_eq in H. now subst.
  - apply String.eqb_eq in H. now subst.
Qed.

Lemma tail_items_nil (path : list seg) (mk : json -> item) (xs : list json) (i : nat) :
  tail_items path mk i xs = [] -> xs = [].
Proof.
  destruct xs as [|x xs]; [reflexivity|]. simpl. intros H.
  apply app_eq_nil in H. destruct H as [_ H]. discriminate.
Qed.

Lemma skipn_nil_length {A : Type} (n : nat) (l : list A) :
  skipn n l = [] -> (List.length l <= n)%nat.
Proof.
  revert l. induction n as [|n IH]; intros [|x l]; simpl; intros H;
    try lia; [discriminate|]. apply IH in H. lia.
Qed.

Lemma lhs_props_empty (rec : list seg -> json -> json -> list diff)
  (path : list seg) (r l : obj) :
  lhs_props rec path r l = [] ->
  forall kv, In kv l ->
    exists y, obj_get (fst kv) r = Some y /\ rec (path ++ [Key (fst kv)]) (snd kv) y = [].
Proof.
  induction l as [|kv0 l IH]; simpl; intros H kv Hin; [destruct Hin|].
  apply app_eq_nil in H. destruct H as [H1 H2].
  destruct Hin as [<- | Hin]; [|now apply IH].
  destruct (obj_get (fst kv0) r) as [y|]; [|discriminate]. now exists y.
Qed.

Lemma rhs_only_empty (path : list seg) (l r : obj) :
  rhs_only path l r = [] ->
  forall kv, In kv r -> In (fst kv) (keys l) \/ fst kv = "".
Proof.
  unfold rhs_only. induction r as [|kv0 r IH]; simpl; intros H kv Hin; [destruct Hin|].
  apply app_eq_nil in H. destruct H as [H1 H2].
  destruct Hin as [<- | Hin]; [|now apply IH].
  destruct (existsb (String.eqb (fst kv0)) (keys l)) eqn:E.
  - left. now apply existsb_eqb_In.
  - destruct (String.eqb_spec (fst kv0) ""); [now right | discriminate].
Qed.

Lemma NoDup_keys_entries {V : Type} (o : list (string * V)) :
  NoDup (keys o) -> NoDup o.
Proof.
  induction o as [|kv o IH]; simpl; intros H; [constructor|].
  inversion H as [|? ? Hn Hd]; subst. constructor; [|auto].
  intros Hin. apply Hn. now apply (in_map fst) in Hin.
Qed.

Lemma Forall2_map_self {A B : Type} (R : A -> B -> Prop) (f : A -> B) (l : list A) :
  (forall x, In x l -> R x (f x)) -> Forall2 R l (map f l).
Proof.
  induction l as [|x l IH]; intros H; simpl; constructor.
  - apply H. now left.
  - apply IH. intros y Hy. apply H. now right.
Qed.

(** Two trees between which deep-diff finds nothing hold the same content,
    up to the order of the keys. *)
Lemma deepDiff_nil_reorder (l : json) :
  forall path r,
    wf_json l -> wf_json r -> no_empty_key r = true ->
    deepDiff path l r = [] -> key_reorder l r.
Proof.
  assert (Hprim : forall v path r,
             is_container v = false -> deepDiff path v r = [] -> key_reorder v r).
  { intros v path r Hc H.
    assert (E : strict_eq v r = true).
    { destruct v; try discriminate Hc; cbn [deepDiff] in H;
        destruct (negb (_ =? realTypeOf r)%string); try discriminate H;
        destruct r; try discriminate H; try reflexivity;
        match type of H with
        | (if ?c then _ else _) = _ => destruct c; [reflexivity | discriminate H]
        end. }
    apply strict_eq_true in E. subst. constructor. }
  induction l as [| b | n | s | l IH | o IH] using json_ind';
    intros path r Hwl Hwr Hne H;
    try (refine (Hprim _ path r _ H); reflexivity).
  - cbn [deepDiff] in H.
    destruct (negb (realTypeOf (JArr l) =? realTypeOf r)%string) eqn:E;
      [discriminate|].
    destruct r as [| | | | r | ]; try discriminate E.
    apply app_eq_nil in H. destruct H as [H1 H].
    apply app_eq_nil in H. destruct H as [H2 H3].
    apply tail_items_nil, skipn_nil_length in H1.
    apply tail_items_nil, skipn_nil_length in H2.
    apply wf_arr in Hwl. apply wf_arr in Hwr. cbn [no_empty_key] in Hne.
    apply reorder_arr.
    assert (Hlen : List.length l = List.length r) by lia.
    clear H1 H2 E Hprim. revert r Hwr Hne Hlen H3. generalize O.
    induction IH as [|x l Hx _ IHl]; intros i [|y r] Hwr Hne Hlen H3;
      try discriminate; [constructor|].
    cbn [common_elems] in H3. apply app_eq_nil in H3. destruct H3 as [H3 H4].
    inversion Hwl as [|? ? Hwx Hwl']; subst.
    inversion Hwr as [|? ? Hwy Hwr']; subst.
    cbn [forallb] in Hne. apply andb_true_iff in Hne. destruct Hne as [Hny Hnr].
    constructor; [now apply (Hx _ y Hwx Hwy Hny H4)|].
    apply (IHl Hwl' (S i) r); auto.
  - cbn [deepDiff] in H.
    destruct (negb (realTypeOf (JObj o) =? realTypeOf r)%string) eqn:E;
      [discriminate|].
    destruct r as [| | | | | r]; try discriminate E.
    apply app_eq_nil in H. destruct H as [H1 H2].
    apply wf_obj in Hwl. destruct Hwl as [Hdl Hwl].
    apply wf_obj in Hwr. destruct Hwr as [Hdr Hwr].
    cbn [no_empty_key] in Hne. rewrite forallb_forall in Hne.
    rewrite Forall_forall in IH, Hwl, Hwr.
    assert (Hl := lhs_props_empty _ _ _ _ H1).
    assert (Hr := rhs_only_empty _ _ _ H2).
    set (pick := fun kv : string * json =>
                   (fst kv, match obj_get (fst kv) r with
                            | Some y => y
                            | None => JNull
                            end)).
    apply reorder_obj with (o2' := map pick o).
    + apply Forall2_map_self. intros kv Hin.
      split; [reflexivity|]. unfold pick. cbn [fst snd].
      destruct (Hl kv Hin) as [y [Hy Hd]]. rewrite Hy.
      assert (Hin' := obj_get_member _ _ Hy).
      specialize (Hne _ Hin'). cbn [fst snd] in Hne.
      apply andb_true_iff in Hne. destruct Hne as [_ Hny].
      apply (IH kv Hin (path ++ [Key (fst kv)]) y);
        [now apply Hwl | apply (Hwr _ Hin') | exact Hny | exact Hd].
    + apply NoDup_Permutation.
      * apply NoDup_keys_entries. unfold keys. rewrite map_map.
        cbn [pick fst]. now apply distinct_NoDup.
      * apply NoDup_keys_entries. now apply distinct_NoDup.
      * intros [k y]. split.
        -- intros Hin. apply in_map_iff in Hin. destruct Hin as [kv [Hp Hin]].
           destruct (Hl kv Hin) as [y' [Hy' _]].
           unfold pick in Hp. rewrite Hy' in Hp. injection Hp as <- <-.
           now apply obj_get_member.
        -- intros Hin.
           assert (Hk : In k (keys o)).
           { destruct (Hr _ Hin) as [Hk | Hk]; [exact Hk|].
             specialize (Hne _ Hin). cbn [fst snd] in *. subst k.
             discriminate Hne. }
           apply in_map_iff in Hk. destruct Hk as [kv [Hk Hin']].
           apply in_map_iff. exists kv. split; [|exact Hin'].
           unfold pick. rewrite Hk.
           now rewrite (obj_get_In _ _ _ Hdr Hin).
Qed.

Lemma lhs_props_all (rec : list seg -> json -> json -> list diff)
  (path : list seg) (r l : obj) :
  (forall kv, In kv l ->
     exists y, obj_get (fst kv) r = Some y
               /\ rec (path ++ [Key (fst kv)]) (snd kv) y = []) ->
  lhs_props rec path r l = [].
Proof.
  induction l as [|kv l IH]; intros H; simpl; [reflexivity|].
  destruct (H kv (or_introl eq_refl)) as [y [Hy Hd]]. rewrite Hy, Hd.
  apply IH. intros x Hx. apply H. now right.
Qed.

Lemma Forall2_partner {A B : Type} (R : A -> B -> Prop) (l1 : list A) (l2 : list B) :
  Forall2 R l1 l2 ->
  (forall x, In x l1 -> exists y, In y l2 /\ R x y)
  /\ (forall y, In y l2 -> exists x, In x l1 /\ R x y).
Proof.
  induction 1 as [|x y l1 l2 Hxy H [IH1 IH2]]; split; intros z [];
    try (subst; eexists; split; [now left | eassumption]).
  - destruct (IH1 z H0) as [w [Hw Hr]]. exists w. split; [now right | exact Hr].
  - destruct (IH2 z H0) as [w [Hw Hr]]. exists w. split; [now right | exact Hr].
Qed.

Lemma Forall2_same_keys (R : json -> json -> Prop) (o1 o2 : obj) :
  Forall2 (fun p q => fst p = fst q /\ R (snd p) (snd q)) o1 o2 -> keys o1 = keys o2.
Proof. induction 1 as [|p q o1 o2 [Hk _] _ IH]; simpl; congruence. Qed.

Lemma tail_items_all (path : list seg) (mk : json -> item) (l r : list json) :
  List.length r = List.length l ->
  tail_items path mk (List.length l) (skipn (List.length l) r) = [].
Proof. intros H. rewrite <- H, skipn_all. reflexivity. Qed.

(** Deep-diff finds nothing between two trees that differ in the order of
    their keys only. *)
Lemma key_reorder_deepDiff (x : json) :
  forall y path, key_reorder x y -> wf_json x -> deepDiff path x y = [].
Proof.
  induction x as [| b | n | s | l IH | o IH] using json_ind'; intros y path H Hwf;
    inversion H; subst; try (now apply deepDiff_refl).
  - cbn [deepDiff realTypeOf]. cbn [String.eqb negb].
    change (negb ("array" =? "array")%string) with false. cbv iota.
    assert (Hlen : List.length l = List.length l2) by (eapply Forall2_length; eassumption).
    rewrite (tail_items_all _ _ l l2) by lia.
    rewrite (tail_items_all _ _ l2 l) by lia.
    cbn [app]. apply wf_arr in Hwf. clear H Hlen.
    generalize O. revert IH Hwf.
    match goal with H : Forall2 _ l l2 |- _ => induction H as [|a b l l2 Hab Hl IHl] end;
      intros IH Hwf i; [reflexivity|].
    cbn [common_elems].
    inversion IH as [|? ? Ha IH']; subst. inversion Hwf as [|? ? Hwa Hwf']; subst.
    rewrite (Ha b _ Hab Hwa), app_nil_r. now apply IHl.
  - cbn [deepDiff realTypeOf].
    change (negb ("object" =? "object")%string) with false. cbv iota.
    apply wf_obj in Hwf. destruct Hwf as [Hd Hall].
    match goal with H : Forall2 _ o _ |- _ => rename H into HF end.
    match goal with H : Permutation _ _ |- _ => rename H into HP end.
    assert (Hk := @Forall2_same_keys key_reorder o o2' HF).
    assert (Hd2 : distinct (keys o2) = true).
    { apply distinct_NoDup. apply distinct_NoDup in Hd. rewrite Hk in Hd.
      unfold keys. eapply Permutation_NoDup; [apply Permutation_map; exact HP | exact Hd]. }
    destruct (@Forall2_partner _ _ _ o o2' HF) as [Hp1 Hp2].
    rewrite Forall_forall in IH, Hall.
    rewrite lhs_props_all, rhs_only_known; [reflexivity | |].
    + intros kv Hin. apply (Permutation_in _ (Permutation_sym HP)) in Hin.
      destruct (Hp2 kv Hin) as [p [Hp [Hfst _]]]. rewrite <- Hfst.
      now apply (in_map fst).
    + intros kv Hin. destruct (Hp1 kv Hin) as [q [Hq [Hfst Hr]]].
      exists (snd q). split.
      * rewrite Hfst. apply obj_get_In; [exact Hd2|].
        apply (Permutation_in _ HP). now destruct q.
      * apply (IH kv Hin); [exact Hr | now apply Hall].
Qed.

Variable opts : options.
Hypothesis nothing_ignored : ignoreFields opts = [].

Lemma forEach_counts_all (ds : list diff) :
  forall a a',
    Base.forEach opts a ds = Returned a' ->
    counted_entries a' = counted_entries a + len ds.
Proof.
  induction ds as [|d ds IH]; intros a a' H.
  - injection H as <-. unfold len. simpl. lia.
  - cbn [Base.forEach] in H. unfold Base.step in H.
    destruct (path_join (diff_path d)) as [p | m]; [|discriminate].
    unfold Base.shouldIgnoreField in H. rewrite nothing_ignored in H.
    cbn [existsb] in H. apply IH in H. rewrite categorize_counts in H.
    unfold len in *. cbn [List.length]. lia.
Qed.

End Completeness.

(** When the base differ is silent.  With no ignored field, the base
    differ reports no difference at all between two bodies (without
    duplicate keys and without an empty property name in the replayed one)
    exactly when the two hold the same content, up to the order of the keys
    of their objects. *)
Theorem silent_comparison_means_same_content (opts : options) (o r : json) :
  ignoreFields opts = [] ->
  wf_json o -> wf_json r -> no_empty_key r = true ->
  total (Base.compareResponseBodies opts (Some o) (Some r)) = 0
  <-> key_reorder o r.
Proof.
  intros Hi Hwo Hwr Hne. unfold Base.compareResponseBodies. split.
  - intros H.
    destruct (negb (typeof o =? typeof r)%string); [discriminate|].
    destruct (Base.primitive_or_null o r).
    + cbn [total] in H. destruct (strict_eq o r) eqn:E; [|discriminate].
      apply strict_eq_true in E. subst. constructor.
    + destruct (Base.forEach opts Base.acc0 (diff_of o r)) as [a | m] eqn:E;
        [|discriminate].
      cbn [total] in H. apply (@forEach_counts_all opts Hi) in E.
      unfold counted_entries in E. cbn in E.
      assert (Hd : diff_of o r = []).
      { destruct (diff_of o r); [reflexivity|]. unfold len in *. simpl in E. lia. }
      now apply (@deepDiff_nil_reorder o [] r).
  - intros H.
    assert (Ht : typeof o = typeof r) by (destruct H; reflexivity).
    rewrite Ht, String.eqb_refl. cbn [negb].
    destruct (Base.primitive_or_null o r) eqn:Ep.
    + assert (E : strict_eq o r = true).
      { destruct H as [v | l1 l2 | o1 o2 o2']; try discriminate Ep.
        destruct v; try discriminate Ep; try reflexivity; simpl.
        - apply Bool.eqb_reflx.
        - apply Z.eqb_refl.
        - apply String.eqb_refl. }
      now rewrite E.
    + unfold diff_of. now rewrite (@key_reorder_deepDiff o r [] H Hwo).
Qed.

Lemma silent_comparison_means_same_content_witness :
  total (Base.compareResponseBodies default_options
           (Some (JObj [("id", JNum 1); ("name", JStr "a")]))
           (Some (JObj [("name", JStr "a"); ("id", JNum 1)]))) = 0
  <-> key_reorder (JObj [("id", JNum 1); ("name", JStr "a")])
        (JObj [("name", JStr "a"); ("id", JNum 1)]).
Proof.
  apply (@silent_comparison_means_same_content default_options
           (JObj [("id", JNum 1); ("name", JStr "a")])
           (JObj [("name", JStr "a"); ("id", JNum 1)]));
    reflexivity.
Defined.

(** ** The filter of the interactions to replay *)

Section FilterFacts.
Variable regexp_test : string -> string -> outcome bool.

Lemma some_outcome_plain (path : string) (routes : list string) :
  forallb (fun p => negb (Str.startsWith p "/" && Str.includes p "*")) routes = true ->
  Filter.some_outcome (Filter.routeMatches regexp_test path) routes
  = Returned (existsb (fun p => Str.includes path p) routes).
Proof.
  induction routes as [|p routes IH]; simpl; intros H; [reflexivity|].
  apply andb_true_iff in H. destruct H as [Hp Hr]. apply negb_true_iff in Hp.
  unfold Filter.routeMatches at 1. rewrite Hp.
  destruct (Str.includes path p); [reflexivity | now apply IH].
Qed.

Lemma passes_active (criterion : option (list string)) (accepts : string -> bool) :
  passes criterion accepts
  = negb (Filter.active criterion && negb (existsb accepts (Filter.items criterion))).
Proof.
  destruct criterion as [[|x l]|]; try reflexivity.
  cbn [passes Filter.active Filter.items andb]. now rewrite negb_involutive.
Qed.

Lemma matchesFilter_selected (f : filterCriteria) (i : filterable) :
  plain_routes f = true ->
  Filter.matchesFilter regexp_test (Some f) i = Returned (selected f i).
Proof.
  intros Hp. unfold Filter.matchesFilter, selected.
  rewrite (passes_active (f_methods f)).
  destruct (Filter.active (f_methods f) && _); [reflexivity|]. cbn [negb andb].
  rewrite (passes_active (f_routes f)).
  destruct (Filter.active (f_routes f)) eqn:Ea; cbn [andb negb].
  - rewrite (some_outcome_plain _ _ Hp).
    destruct (existsb _ (Filter.items (f_routes f))); cbn [negb andb]; [|reflexivity].
    destruct (f_tags f) as [[|t ts]|]; try reflexivity.
    cbn [Filter.active passes Filter.items]. unfold has_tag.
    destruct (fi_tags i) as [[|x tags]|]; cbn [Filter.items]; try reflexivity.
    + now induction (t :: ts).
    + now induction (t :: ts).
  - destruct (f_tags f) as [[|t ts]|]; try reflexivity.
    cbn [Filter.active passes Filter.items]. unfold has_tag.
    destruct (fi_tags i) as [[|x tags]|]; cbn [Filter.items]; try reflexivity.
    + now induction (t :: ts).
    + now induction (t :: ts).
Qed.

Lemma filter_outcome_pure {A : Type} (f : A -> outcome bool) (g : A -> bool)
  (xs : list A) :
  (forall x, f x = Returned (g x)) ->
  Filter.filter_outcome f xs = Returned (filter g xs).
Proof.
  intros H. induction xs as [|x xs IH]; simpl; [reflexivity|].
  now rewrite H, IH.
Qed.

End FilterFacts.

(** What a filter keeps.  With routes that are no wildcard patterns,
    [filterSession] never throws.  If the filter names session tags and the
    session has none of them, no interaction is kept; otherwise exactly the
    interactions are kept, in their order, that pass every criterion the
    filter has: a criterion that is absent or empty restricts nothing, a
    method passes in any case, a route passes when the path contains it,
    and an interaction without tags passes no tag criterion.  The two
    counts are those of the session and of the kept interactions. *)
Theorem filterSession_selects (regexp_test : string -> string -> outcome bool)
  (f : filterCriteria) (session : filterableSession) :
  plain_routes f = true ->
  Filter.filterSession regexp_test (Some f) session
  = Returned
      (if passes (f_sessionTags f) (has_tag (fs_tags session))
       then {| fs_tags := fs_tags session;
               fs_interactions := filter (selected f) (fs_interactions session);
               fs_filtered :=
                 Some (len (fs_interactions session),
                       len (filter (selected f) (fs_interactions session))) |}
       else {| fs_tags := fs_tags session;
               fs_interactions := [];
               fs_filtered := fs_filtered session |}).
Proof.
  intros Hp. unfold Filter.filterSession.
  rewrite (passes_active (f_sessionTags f)). unfold has_tag.
  destruct (Filter.active (f_sessionTags f) && _); cbn [negb]; [reflexivity|].
  now rewrite (@filter_outcome_pure _ _ (selected f) _
               (fun i => @matchesFilter_selected regexp_test f i Hp)).
Qed.

Lemma filterSession_selects_witness :
  Filter.filterSession (fun _ _ => Thrown "Invalid regular expression")
    (Some users_filter) two_call_session
  = Returned
      (if passes (f_sessionTags users_filter) (has_tag (fs_tags two_call_session))
       then {| fs_tags := fs_tags two_call_session;
               fs_interactions :=
                 filter (selected users_filter) (fs_interactions two_call_session);
               fs_filtered :=
                 Some (len (fs_interactions two_call_session),
                       len (filter (selected users_filter)
                              (fs_interactions two_call_session))) |}
       else {| fs_tags := fs_tags two_call_session;
               fs_interactions := [];
               fs_filtered := fs_filtered two_call_session |}).
Proof.
  apply (@filterSession_selects (fun _ _ => Thrown "Invalid regular expression")
           users_filter two_call_session).
  reflexivity.
Defined.

(** The filter keeps the GET on the user and drops the order. *)
Example users_filter_keeps_get_user :
  Filter.filterSession (fun _ _ => Thrown "Invalid regular expression")
    (Some users_filter) two_call_session
  = Returned {| fs_tags := None;
                fs_interactions := [{| fi_request := get_user; fi_tags := None |}];
                fs_filtered := Some (2, 1) |}.
Proof. reflexivity. Qed.

(** ** The context of a template *)

(** The context a new resolver builds.  The entries [request], [timestamp]
    and [random] come from the request and the runtime, also when the
    default context defines them; every other entry of the default context
    is kept as it is. *)
Theorem context_of_new_resolver `{RT : Runtime} (defaultContext : obj) (rq : request) :
  distinct (keys defaultContext) = true ->
  exists context built,
    Template.buildContext (Resolver.new_resolver defaultContext) rq = JObj context
    /\ Template.default_builder rq = Returned built
    /\ keys built = ["request"; "timestamp"; "random"]
    /\ forall k,
         obj_get k context
         = match obj_get k built with
           | Some v => Some v
           | None => obj_get k defaultContext
           end.
Proof.
  intros Hd. unfold Template.buildContext, Resolver.new_resolver.
  cbn [Template.contextBuilders Template.defaultContext fold_left].
  unfold Template.default_builder at 1.
  unfold Template.spread. cbn [fold_left fst snd].
  rewrite (assign_all_id _ Hd), (assign_all_id _ Hd).
  eexists. eexists. split; [reflexivity|]. split; [reflexivity|].
  split; [reflexivity|]. intros k.
  rewrite !obj_get_set. cbn [obj_get].
  destruct (String.eqb_spec k "random") as [->|H1]; [reflexivity|].
  destruct (String.eqb_spec k "timestamp") as [->|H2]; [reflexivity|].
  destruct (String.eqb_spec k "request") as [->|H3]; reflexivity.
Qed.

Lemma context_of_new_resolver_witness :
  exists context built,
    Template.buildContext
      (Resolver.new_resolver (RT := TestRuntime.runtime)
         [("timestamp", JNum 0); ("version", JStr "v2")])
      get_user
    = JObj context
    /\ Template.default_builder (RT := TestRuntime.runtime) get_user = Returned built
    /\ keys built = ["request"; "timestamp"; "random"]
    /\ forall k,
         obj_get k context
         = match obj_get k built with
           | Some v => Some v
           | None => obj_get k [("timestamp", JNum 0); ("version", JStr "v2")]
           end.
Proof.
  apply (@context_of_new_resolver TestRuntime.runtime
           [("timestamp", JNum 0); ("version", JStr "v2")] get_user).
  reflexivity.
Defined.

(** ** The hash of a template *)

Section HashArithmetic.

Lemma toInt32_range (n : Z) : - 2 ^ 31 <= TemplateHash.toInt32 n < 2 ^ 31.
Proof.
  unfold TemplateHash.toInt32. cbv zeta.
  assert (H := Z.mod_pos_bound n (2 ^ 32) ltac:(lia)).
  destruct (2 ^ 31 <=? n mod 2 ^ 32) eqn:E;
    [apply Z.leb_le in E | apply Z.leb_gt in E]; lia.
Qed.

Lemma toInt32_mod (n : Z) : TemplateHash.toInt32 n mod 2 ^ 32 = n mod 2 ^ 32.
Proof.
  unfold TemplateHash.toInt32. cbv zeta.
  destruct (2 ^ 31 <=? n mod 2 ^ 32).
  - rewrite Zminus_mod, Z.mod_same, Z.sub_0_r, !Z.mod_mod by lia. reflexivity.
  - now rewrite Z.mod_mod by lia.
Qed.

Lemma toInt32_congr (a b : Z) :
  a mod 2 ^ 32 = b mod 2 ^ 32 -> TemplateHash.toInt32 a = TemplateHash.toInt32 b.
Proof. unfold TemplateHash.toInt32. now intros ->. Qed.

Lemma step_poly (hash char p : Z) :
  hash = TemplateHash.toInt32 p ->
  TemplateHash.step hash char = TemplateHash.toInt32 (31 * p + char).
Proof.
  intros ->. unfold TemplateHash.step. cbv zeta. rewrite Z.land_diag.
  apply toInt32_congr.
  rewrite Z.shiftl_mul_pow2 by lia.
  set (t := TemplateHash.toInt32 p).
  rewrite Zplus_mod, Zminus_mod, toInt32_mod.
  rewrite (Zmult_mod (TemplateHash.toInt32 t)), toInt32_mod.
  rewrite <- Zmult_mod, <- Zminus_mod, <- Zplus_mod.
  replace (t * 2 ^ 5 - t + char) with (31 * t + char) by lia.
  rewrite Zplus_mod, Zmult_mod. unfold t. rewrite toInt32_mod.
  rewrite <- Zmult_mod, <- Zplus_mod. reflexivity.
Qed.

Lemma toInt32_small (n : Z) : - 2 ^ 31 <= n < 2 ^ 31 -> TemplateHash.toInt32 n = n.
Proof.
  intros H. unfold TemplateHash.toInt32. cbv zeta.
  destruct (Z_lt_le_dec n 0) as [Hn | Hn].
  - assert (E : n mod 2 ^ 32 = n + 2 ^ 32).
    { symmetry. apply (Z.mod_unique n (2 ^ 32) (-1)); lia. }
    rewrite E. destruct (2 ^ 31 <=? n + 2 ^ 32) eqn:L;
      [lia | apply Z.leb_gt in L; lia].
  - rewrite Z.mod_small by lia.
    destruct (2 ^ 31 <=? n) eqn:L; [apply Z.leb_le in L; lia | reflexivity].
Qed.

End HashArithmetic.

(** The hash in closed form.  The number the loop of
    [generateTemplateHash] computes with shifts and masks is the polynomial
    of the code units in base 31, wrapped to a signed 32-bit integer. *)
Theorem hashCode_closed_form (str : string) :
  TemplateHash.hashCode str
  = TemplateHash.toInt32 (poly31 (TemplateHash.charCodes str))
  /\ - 2 ^ 31 <= TemplateHash.hashCode str < 2 ^ 31.
Proof.
  assert (H : forall codes h p,
             h = TemplateHash.toInt32 p ->
             fold_left TemplateHash.step codes h
             = TemplateHash.toInt32 (fold_left (fun h c => 31 * h + c) codes p)).
  { induction codes as [|c codes IH]; intros h p Hh; [exact Hh|].
    cbn [fold_left]. apply IH. now apply step_poly. }
  assert (E : TemplateHash.hashCode str
              = TemplateHash.toInt32 (poly31 (TemplateHash.charCodes str))).
  { unfold TemplateHash.hashCode, poly31. apply H.
    symmetry. apply toInt32_small. lia. }
  split; [exact E|]. rewrite E. apply toInt32_range.
Qed.

(** Two templates with one hash under the test runtime. *)
Example template_hash_collision :
  TemplateHash.generateTemplateHash (RT := TestRuntime.runtime) (Some (JStr "Aa"))
  = TemplateHash.generateTemplateHash (RT := TestRuntime.runtime) (Some (JStr "BB"))
  /\ TemplateHash.generateTemplateHash (RT := TestRuntime.runtime) (Some (JStr "Aa"))
     = "1mo".
Proof. split; reflexivity. Qed.

